(** * WealthLens: the client-side real-time data layer

    A shallow embedding of the stock data service ([StockDataService]), the
    real-time data provider ([RealTimeDataProvider]), the configuration of
    the API ([getApiUrl], [getBestApiUrl], [retryRequest]) and the data
    context ([DataProvider], [useInvestments], [usePortfolio]) of the
    WealthLens front end, with the properties of its specification and of
    the code around them.

    JavaScript values are modelled as the language has them: a [number] is an
    IEEE 754 binary64 value (Rocq's primitive [float]), a string is its
    sequence of UTF-16 code units, a [Map] is a finite map, an exception is an
    abrupt completion, and an [async] function is cut at its [await]s into
    the steps the event loop runs. *)

From Stdlib Require Import ZArith NArith List Bool Lia Ascii String Floats DecimalString.

From stdpp Require Import gmap list.

#[local] Set Warnings "-inexact-float".

Local Open Scope Z_scope.

(** ** JavaScript strings: sequences of UTF-16 code units *)

Module JS.

Abbreviation jsstring := (list N).

(** The code units of an ASCII literal of the source. *)
Definition lit (s : string) : jsstring :=
  List.map N_of_ascii (list_ascii_of_string s).

Definition rupee : N := 8377.   (* U+20B9, the sign in the regexes *)

Definition bullet : N := 8226.  (* U+2022, the bullet of the insights *)

Definition is_digit (c : N) : bool := ((48 <=? c) && (c <=? 57))%N.

(** [WhiteSpace] and [LineTerminator] of ECMAScript: what [trim], [\s] and
    the number parsers skip. *)
Definition is_whitespace (c : N) : bool :=
  ((9 <=? c) && (c <=? 13) || (c =? 32) || (c =? 160) || (c =? 5760)
   || (8192 <=? c) && (c <=? 8202) || (c =? 8232) || (c =? 8233)
   || (c =? 8239) || (c =? 8287) || (c =? 12288) || (c =? 65279))%N.

(** The line terminators, which [.] does not match. *)
Definition is_line_terminator (c : N) : bool :=
  ((c =? 10) || (c =? 13) || (c =? 8232) || (c =? 8233))%N.

Definition string_eqb (a b : jsstring) : bool := bool_decide (a = b).

Fixpoint trimStart (s : jsstring) : jsstring :=
  match s with
  | c :: r => if is_whitespace c then trimStart r else s
  | [] => []
  end.

Definition trimEnd (s : jsstring) : jsstring := rev (trimStart (rev s)).

(** [s.trim()] *)
Definition trim (s : jsstring) : jsstring := trimEnd (trimStart s).

(** [s.startsWith(p)] *)
Fixpoint startsWith (p s : jsstring) : bool :=
  match p, s with
  | [], _ => true
  | a :: p', b :: s' => (a =? b)%N && startsWith p' s'
  | _ :: _, [] => false
  end.

(** [s.split(sep)] for a separator of one code unit: never empty. *)
Fixpoint split (sep : N) (s : jsstring) : list jsstring :=
  match s with
  | [] => [[]]
  | c :: r =>
      if (c =? sep)%N then [] :: split sep r
      else match split sep r with
           | l :: ls => (c :: l) :: ls
           | [] => [[c]]
           end
  end.

(** [s.replace(/c/g, '')] for one code unit [c]. *)
Definition remove_all (c : N) (s : jsstring) : jsstring :=
  List.filter (fun x => negb (x =? c)%N) s.

(** The ASCII part of [toUpperCase]. *)
Definition upper_unit (c : N) : N :=
  if ((97 <=? c) && (c <=? 122))%N then (c - 32)%N else c.

Definition ascii_upper (s : jsstring) : jsstring := List.map upper_unit s.

Definition is_ascii (s : jsstring) : Prop := Forall (fun c => (c < 128)%N) s.

#[global] Instance is_ascii_dec (s : jsstring) : Decision (is_ascii s).
Proof. unfold is_ascii. apply _. Defined.

(** What the development takes from the host: [String.prototype.toUpperCase],
    which the Unicode tables fix. *)
Class Host : Type := { toUpperCase : jsstring -> jsstring }.

(** The host whose [toUpperCase] changes the ASCII letters only; it agrees
    with every host on ASCII strings. *)
Definition ascii_host : Host := {| toUpperCase := ascii_upper |}.

(** [n.toString()] for a natural number. *)
Definition nat_toString (n : nat) : jsstring :=
  lit (NilZero.string_of_uint (Nat.to_uint n)).

(** ** Abrupt completions: [throw] and [try]/[catch] *)

Inductive completion (A : Type) : Type :=
| Normal (a : A)
| Throw (e : jsstring).

Arguments Normal {A} a.

Arguments Throw {A} e.

#[global] Instance completion_ret : MRet completion := fun A a => Normal a.

#[global] Instance completion_bind : MBind completion := fun A B k c =>
  match c with
  | Normal a => k a
  | Throw e => Throw e
  end.

Definition try_catch {A} (body : completion A) (handler : jsstring -> completion A)
  : completion A :=
  match body with
  | Normal a => Normal a
  | Throw e => handler e
  end.

(** ** JavaScript numbers: IEEE 754 binary64 *)

(** The double nearest to [num / den] (ties to even), with sign [neg]: the
    rounding of the value of a decimal literal.  The quotient is taken with
    at least 64 bits and the position of the remainder, then rounded by the
    Standard Library's [binary_round_aux]. *)
Definition round_ratio (neg : bool) (num den : positive) : float :=
  let k := Z.max 0 (64 + Z.log2 (Zpos den) - Z.log2 (Zpos num)) in
  let n := Zpos num * 2 ^ k in
  let q := n / Zpos den in
  let r := n mod Zpos den in
  let loc := if r =? 0 then loc_Exact else loc_Inexact (2 * r ?= Zpos den) in
  SF2Prim (binary_round_aux prec emax neg q (- k) loc).

(** The number value of [d * 10 ^ ex] for a digit string of value [d]. *)
Definition decimal_value (neg : bool) (d ex : Z) : float :=
  match d with
  | Zpos m =>
      match ex with
      | Zneg _ => round_ratio neg m (Z.to_pos (10 ^ (- ex)))
      | _ => round_ratio neg (Z.to_pos (Zpos m * 10 ^ ex)) 1
      end
  | _ => if neg then neg_zero else zero
  end.

(** The longest prefix of digits, and what follows it. *)
Fixpoint span_digits (s : jsstring) : jsstring * jsstring :=
  match s with
  | c :: r =>
      if is_digit c then let '(ds, rest) := span_digits r in (c :: ds, rest)
      else ([], s)
  | [] => ([], [])
  end.

Definition digits_value (ds : jsstring) : Z :=
  fold_left (fun acc c => 10 * acc + (Z.of_N c - 48)) ds 0.

(** An optional sign: whether it is [-], and what follows it. *)
Definition read_sign (s : jsstring) : bool * jsstring :=
  match s with
  | 45%N :: r => (true, r)
  | 43%N :: r => (false, r)
  | _ => (false, s)
  end.

(** The value of an [ExponentPart] at the head of [s], 0 when there is none. *)
Definition read_exponent (s : jsstring) : Z :=
  match s with
  | c :: r =>
      if ((c =? 101) || (c =? 69))%N then
        let '(neg, r') := read_sign r in
        let '(ds, _) := span_digits r' in
        match ds with
        | [] => 0
        | _ => if neg then - digits_value ds else digits_value ds
        end
      else 0
  | [] => 0
  end.

(** [parseFloat(s)]: leading white space is skipped and the longest prefix
    that is a [StrDecimalLiteral] is converted; [NaN] when there is none. *)
Definition parseFloat (s : jsstring) : float :=
  let '(neg, s1) := read_sign (trimStart s) in
  if startsWith (lit "Infinity") s1 then (if neg then neg_infinity else infinity)
  else
    let '(ip, r1) := span_digits s1 in
    let '(fp, r2) := match r1 with
                     | 46%N :: r => span_digits r
                     | _ => ([], r1)
                     end in
    match ip ++ fp with
    | [] => nan
    | ds => decimal_value neg (digits_value ds) (read_exponent r2 - Z.of_nat (length fp))
    end.

(** The value of a digit of radix 16, if it is one. *)
Definition hex_digit (c : N) : option Z :=
  if is_digit c then Some (Z.of_N c - 48)
  else if ((97 <=? c) && (c <=? 102))%N then Some (Z.of_N c - 87)
  else if ((65 <=? c) && (c <=? 70))%N then Some (Z.of_N c - 55)
  else None.

Fixpoint span_hex (s : jsstring) (acc : option Z) : option Z :=
  match s with
  | c :: r =>
      match hex_digit c with
      | Some d => span_hex r (Some (16 * default 0 acc + d))
      | None => acc
      end
  | [] => acc
  end.

(** [parseInt(s)] with no radix: white space and a sign are skipped, a
    [0x] prefix selects radix 16, and the longest prefix of digits is
    converted; [NaN] when it is empty. *)
Definition parseInt (s : jsstring) : float :=
  let '(neg, s1) := read_sign (trimStart s) in
  match s1 with
  | 48%N :: x :: r =>
      if ((x =? 120) || (x =? 88))%N then
        match span_hex r None with
        | Some v => decimal_value neg v 0
        | None => nan
        end
      else
        decimal_value neg (digits_value (fst (span_digits s1))) 0
  | _ =>
      match fst (span_digits s1) with
      | [] => nan
      | ds => decimal_value neg (digits_value ds) 0
      end
  end.

(** [parseFloat(x.toFixed(2))].  For a finite [|x| < 1e21], [toFixed(2)]
    writes the integer [n] nearest to [|x| * 100] (the larger one on a tie)
    as [n / 100] with the sign of [x], and [parseFloat] rounds that decimal;
    [NaN] and the infinities are written by name and read back, and from
    [1e21] on [toFixed] is [toString], which [parseFloat] reads back as [x]. *)
Definition toFixed2 (x : float) : float :=
  match Prim2SF x with
  | S754_finite s m e =>
      if (abs x <? 1e21)%float then
        let n := match e with
                 | Zneg p => (200 * Zpos m + 2 ^ Zpos p) / 2 ^ (Zpos p + 1)
                 | _ => 100 * Zpos m * 2 ^ e
                 end in
        decimal_value s n (-2)
      else x
  | S754_zero _ => zero
  | _ => x
  end.

(** [Math.abs], [Math.min] and [Math.max] of two numbers. *)
Definition Math_abs (x : float) : float := abs x.

Definition Math_min (a b : float) : float :=
  if is_nan a || is_nan b then nan
  else if (a <? b)%float then a
  else if (b <? a)%float then b
  else if get_sign a then a else b.

Definition Math_max (a b : float) : float :=
  if is_nan a || is_nan b then nan
  else if (b <? a)%float then a
  else if (a <? b)%float then b
  else if get_sign a then b else a.

(** Truthiness of a number: [NaN], [+0] and [-0] are falsy. *)
Definition truthy (x : float) : bool := negb (is_nan x || is_zero x).

(** [xs.reduce((sum, x) => sum + x, 0)] *)
Definition sum (xs : list float) : float :=
  fold_left (fun acc x => (acc + x)%float) xs 0%float.

End JS.

(** ** Regular expressions: the backtracking matcher of [String.prototype.match] *)

Module RegExp.

Import JS.

(** The members of a character class. *)
Inductive atom : Type :=
| AUnit (c : N)   (* one code unit *)
| ADigit          (* [\d] *)
| ASpace.         (* [\s] *)

(** The patterns the program uses.  A quantifier is greedy ([r*]) or lazy
    ([r*?]); [Group i r] is the [i]-th pair of capturing parentheses. *)
Inductive regex : Type :=
| Eps
| Unit (c : N)
| AnyChar
| Class (atoms : list atom)
| Bol
| Seq (r1 r2 : regex)
| Opt (r : regex)
| Star (greedy : bool) (r : regex)
| Group (i : nat) (r : regex).

Definition Plus (r : regex) : regex := Seq r (Star true r).

Definition Str (s : jsstring) : regex :=
  fold_right (fun c r => Seq (Unit c) r) Eps s.

(** [Canonicalize] of the [i] flag.  The pattern characters of this program
    are ASCII or have no case mapping ([rupee], [bullet]), and a code unit
    from 128 on never canonicalizes to an ASCII one, so upper-casing the
    ASCII letters decides every comparison the patterns make. *)
Definition canon (ignoreCase : bool) (c : N) : N :=
  if ignoreCase then upper_unit c else c.

Definition atom_matches (ignoreCase : bool) (a : atom) (c : N) : bool :=
  match a with
  | AUnit u => (canon ignoreCase u =? canon ignoreCase c)%N
  | ADigit => is_digit c
  | ASpace => is_whitespace c
  end.

(** Where a match attempt stands: the index into the input, the input from
    there on, and the captures made so far. *)
Record mstate : Type := MState {
  pos : nat;
  rest : jsstring;
  caps : gmap nat jsstring;
}.

Definition cont : Type := mstate -> option mstate.

Definition matcher : Type := mstate -> cont -> option mstate.

(** Consume one code unit that satisfies [p]. *)
Definition one (p : N -> bool) : matcher := fun st k =>
  match rest st with
  | c :: r => if p c then k (MState (S (pos st)) r (caps st)) else None
  | [] => None
  end.

Definition orelse (a b : option mstate) : option mstate :=
  match a with
  | Some x => Some x
  | None => b
  end.

(** [RepeatMatcher] with no upper bound: a greedy loop tries one more
    iteration before the continuation, a lazy one the continuation first.
    An iteration that consumes nothing fails, so [n], one more than the
    length of the remaining input, bounds the iterations. *)
Fixpoint star_loop (greedy : bool) (m : matcher) (n : nat) : matcher :=
  fun st k =>
    match n with
    | O => k st
    | S n' =>
        let again :=
          m st (fun st' =>
                  if (pos st <? pos st')%nat then star_loop greedy m n' st' k
                  else None) in
        if greedy then orelse again (k st) else orelse (k st) again
    end.

Fixpoint compile (ignoreCase : bool) (r : regex) : matcher :=
  match r with
  | Eps => fun st k => k st
  | Unit u => one (fun c => (canon ignoreCase u =? canon ignoreCase c)%N)
  | AnyChar => one (fun c => negb (is_line_terminator c))
  | Class atoms => one (fun c => existsb (fun a => atom_matches ignoreCase a c) atoms)
  | Bol => fun st k => match pos st with O => k st | S _ => None end
  | Seq r1 r2 => fun st k =>
      compile ignoreCase r1 st (fun st' => compile ignoreCase r2 st' k)
  | Opt r1 => fun st k => orelse (compile ignoreCase r1 st k) (k st)
  | Star greedy r1 => fun st k =>
      star_loop greedy (compile ignoreCase r1) (S (length (rest st))) st k
  | Group i r1 => fun st k =>
      compile ignoreCase r1 st (fun st' =>
        k (MState (pos st') (rest st')
                  (<[i := take (pos st' - pos st) (rest st)]> (caps st'))))
  end.

(** [RegExpBuiltinExec] without the [g] and [y] flags: the match is tried
    at every index from 0 on and the first success is the result; capture 0
    is the matched text. *)
Fixpoint search (m : matcher) (i : nat) (s : jsstring) : option (gmap nat jsstring) :=
  match m (MState i s ∅) Some with
  | Some st => Some (<[O := take (pos st - i) s]> (caps st))
  | None =>
      match s with
      | [] => None
      | _ :: s' => search m (S i) s'
      end
  end.

(** [s.match(r)] for a pattern [r] without the [g] flag; [None] is [null]. *)
Definition match_ (ignoreCase : bool) (r : regex) (s : jsstring)
  : option (gmap nat jsstring) :=
  search (compile ignoreCase r) O s.

(** [m[i]] of a match result, the empty string for a group that did not
    take part. *)
Definition group (m : gmap nat jsstring) (i : nat) : jsstring := default [] (m !! i).

(** [s.replace(r, '')] for a pattern without the [g] flag: the first match
    is cut out. *)
Fixpoint replace_first (m : matcher) (i : nat) (s : jsstring) : jsstring :=
  match m (MState i s ∅) Some with
  | Some st => rest st
  | None =>
      match s with
      | [] => []
      | c :: s' => c :: replace_first m (S i) s'
      end
  end.

Definition replace_ (ignoreCase : bool) (r : regex) (s : jsstring) : jsstring :=
  replace_first (compile ignoreCase r) O s.

(** *** The language of a pattern *)

(** The texts [w] a pattern matches when the match starts at index [i] of
    the input: what the matcher decides, without the order in which it tries
    the alternatives.  An iteration of a repetition is not empty. *)
Inductive matches (ignoreCase : bool) : regex -> nat -> jsstring -> Prop :=
| matches_Eps i : matches ignoreCase Eps i []
| matches_Unit u c i :
    canon ignoreCase u = canon ignoreCase c -> matches ignoreCase (Unit u) i [c]
| matches_AnyChar c i :
    is_line_terminator c = false -> matches ignoreCase AnyChar i [c]
| matches_Class atoms c i :
    existsb (fun a => atom_matches ignoreCase a c) atoms = true ->
    matches ignoreCase (Class atoms) i [c]
| matches_Bol : matches ignoreCase Bol O []
| matches_Seq r1 r2 i w1 w2 :
    matches ignoreCase r1 i w1 ->
    matches ignoreCase r2 (i + length w1)%nat w2 ->
    matches ignoreCase (Seq r1 r2) i (w1 ++ w2)
| matches_Opt_none r i : matches ignoreCase (Opt r) i []
| matches_Opt_some r i w :
    matches ignoreCase r i w -> matches ignoreCase (Opt r) i w
| matches_Star_nil g r i : matches ignoreCase (Star g r) i []
| matches_Star_cons g r i w1 w2 :
    w1 <> [] -> matches ignoreCase r i w1 ->
    matches ignoreCase (Star g r) (i + length w1)%nat w2 ->
    matches ignoreCase (Star g r) i (w1 ++ w2)
| matches_Group n r i w :
    matches ignoreCase r i w -> matches ignoreCase (Group n r) i w.

(** A continuation whose success does not depend on the captures. *)
Definition blind (k : cont) : Prop :=
  forall st1 st2, pos st1 = pos st2 -> rest st1 = rest st2 ->
    is_Some (k st1) -> is_Some (k st2).

(** A matcher decides a language [L]: it succeeds exactly when a prefix of
    the remaining input is in [L] and the continuation succeeds after it. *)
Definition decides (m : matcher) (L : nat -> jsstring -> Prop) : Prop :=
  forall st k, blind k ->
    (is_Some (m st k) <->
     exists w rest' c', rest st = w ++ rest' /\ L (pos st) w /\
       is_Some (k (MState (pos st + length w)%nat rest' c'))).

(** What [.] matches. *)
Definition same_line (c : N) : bool := negb (is_line_terminator c).

(** A pattern that stands for one code unit that satisfies [p]. *)
Definition single (ignoreCase : bool) (r : regex) (p : N -> bool) : Prop :=
  forall i w, matches ignoreCase r i w <-> exists c, w = [c] /\ p c = true.

(** A text has a part in [L]. *)
Definition contains (L : jsstring -> Prop) (s : jsstring) : Prop :=
  exists pre w post, s = pre ++ w ++ post /\ L w.

(** *** What the greedy patterns take *)

(** The longest prefix of [s] whose units satisfy [p], and what follows
    it. *)
Fixpoint leading (p : N -> bool) (s : jsstring) : jsstring :=
  match s with
  | c :: r => if p c then c :: leading p r else []
  | [] => []
  end.

Fixpoint skip (p : N -> bool) (s : jsstring) : jsstring :=
  match s with
  | c :: r => if p c then skip p r else s
  | [] => []
  end.

(** A continuation that succeeds wherever the match stands. *)
Definition total (k : cont) : Prop := forall st, is_Some (k st).

(** The digits at the head of [s], with a point and the digits after it
    when a point follows them. *)
Definition number_prefix (s : jsstring) : jsstring :=
  leading is_digit s
  ++ match skip is_digit s with
     | c :: r => if (c =? 46)%N then c :: leading is_digit r else []
     | [] => []
     end.

(** The number that starts at the first digit of [s], if [s] has a digit. *)
Fixpoint first_number (s : jsstring) : option jsstring :=
  match s with
  | c :: r => if is_digit c then Some (number_prefix s) else first_number r
  | [] => None
  end.

(** An optional point and the digits after it. *)
Definition fraction (s : jsstring) : jsstring :=
  match s with
  | c :: r => if (c =? 46)%N then c :: leading is_digit r else leading is_digit s
  | [] => []
  end.

(** *** What the lazy patterns find *)

(** What follows [label], read in any case, at the head of [s]. *)
Fixpoint after_label (label s : jsstring) : option jsstring :=
  match label, s with
  | [], _ => Some s
  | u :: label', c :: r =>
      if (upper_unit u =? upper_unit c)%N then after_label label' r else None
  | _ :: _, [] => None
  end.

(** The first place of the line from which [t] reads something: what a
    lazy [.*?] before a pattern that reads as [t] finds. *)
Fixpoint on_line (t : jsstring -> option jsstring) (s : jsstring) : option jsstring :=
  match t s with
  | Some a => Some a
  | None =>
      match s with
      | c :: r => if same_line c then on_line t r else None
      | [] => None
      end
  end.

(** The first place of [s] where [label] stands, in any case, with a place
    after it on its line from which [t] reads something. *)
Fixpoint first_labelled (label : jsstring) (t : jsstring -> option jsstring)
    (s : jsstring) : option jsstring :=
  match after_label label s ≫= on_line t with
  | Some a => Some a
  | None =>
      match s with
      | _ :: r => first_labelled label t r
      | [] => None
      end
  end.

(** The text of group [n] when a match attempt has ended. *)
Definition captured (n : nat) (r : option mstate) : option jsstring :=
  (fun st => group (caps st) n) <$> r.

End RegExp.

(** ** The configuration of the API *)

Module ApiConfig.

Import JS.

(** What the module reads of its environment: three variables of
    [process.env], [None] for [undefined], and [Platform.OS]. *)
Record environment : Type := {
  EXPO_PUBLIC_LOCAL_IP : option jsstring;
  EXPO_PUBLIC_API_URL : option jsstring;
  NODE_ENV : option jsstring;
  Platform_OS : jsstring;
}.

(** [v || d] for a string [v] that can be [undefined]: the empty string is
    falsy too. *)
Definition or_default (v : option jsstring) (d : jsstring) : jsstring :=
  match v with
  | Some (c :: s) => c :: s
  | _ => d
  end.

(** [getLocalIP()] *)
Definition getLocalIP (env : environment) : jsstring :=
  or_default (EXPO_PUBLIC_LOCAL_IP env) (lit "192.168.0.140").

(** [API_CONFIG.BASE_URL], [API_CONFIG.DEV.LOCAL_IP] and
    [API_CONFIG.DEV.USE_LOCAL_IP]. *)
Definition BASE_URL (env : environment) : jsstring :=
  or_default (EXPO_PUBLIC_API_URL env) (lit "http://localhost:8000").

Definition LOCAL_IP (env : environment) : jsstring := getLocalIP env.

Definition USE_LOCAL_IP (env : environment) : bool :=
  string_eqb (Platform_OS env) (lit "android") || string_eqb (Platform_OS env) (lit "ios").

Definition RETRY_MAX_ATTEMPTS : Z := 3.

Definition RETRY_DELAY : Z := 1000.

(** [getApiUrl()] *)
Definition getApiUrl (env : environment) : jsstring :=
  let isDevelopment :=
    match NODE_ENV env with
    | Some v => string_eqb v (lit "development")
    | None => true
    end in
  if isDevelopment && USE_LOCAL_IP env
  then lit "http://" ++ LOCAL_IP env ++ lit ":8000"
  else BASE_URL env.

(** [getEndpointUrl(endpoint)] *)
Definition getEndpointUrl (env : environment) (endpoint : jsstring) : jsstring :=
  getApiUrl env ++ endpoint.

(** [checkUrlReachability(url)], given how its [fetch] ended: with a
    response and its [ok] flag, or rejected, which it also is when the timer
    of five seconds aborts it. *)
Definition checkUrlReachability (response : completion bool) : bool :=
  match response with
  | Normal ok => ok
  | Throw _ => false
  end.

(** [testApiConnection()], given how its [fetch] ended. *)
Definition testApiConnection (response : completion bool) : bool :=
  match response with
  | Normal ok => ok
  | Throw _ => false
  end.

(** The URLs [getBestApiUrl] tries, in order. *)
Definition candidates (env : environment) : list jsstring :=
  [ lit "http://" ++ LOCAL_IP env ++ lit ":8000";
    lit "http://localhost:8000";
    lit "http://127.0.0.1:8000";
    BASE_URL env ].

(** The loop of [getBestApiUrl]: [health n u] is how the [n]-th request of
    the run, a [GET] of [u], ends.  The result is the URL found, if one is,
    and the number of requests made. *)
Fixpoint first_reachable (health : nat -> jsstring -> completion bool) (n : nat)
    (urls : list jsstring) : option jsstring * nat :=
  match urls with
  | [] => (None, n)
  | url :: rest =>
      if checkUrlReachability (health n (url ++ lit "/health")) then (Some url, S n)
      else first_reachable health (S n) rest
  end.

(** [getBestApiUrl()], with the number of requests it made. *)
Definition getBestApiUrl (env : environment) (health : nat -> jsstring -> completion bool)
  : jsstring * nat :=
  match first_reachable health 0 (candidates env) with
  | (Some url, n) => (url, n)
  | (None, n) => (BASE_URL env, n)
  end.

(** How the promise of [retryRequest] settles: [lastError] is [undefined]
    when no attempt was made. *)
Inductive settled (A : Type) : Type :=
| Resolved (a : A)
| Rejected (lastError : option jsstring).

Arguments Resolved {A} a.

Arguments Rejected {A} lastError.

(** A run of [retryRequest]: how it settled, how many times it called
    [requestFn], and the timers it waited for, in milliseconds. *)
Record retry_run (A : Type) : Type := RetryRun {
  outcome : settled A;
  calls : nat;
  delays : list Z;
}.

Arguments RetryRun {A} outcome calls delays.

Arguments outcome {A} r.

Arguments calls {A} r.

Arguments delays {A} r.

(** The [for] loop of [retryRequest] from [attempt] on, for a whole number
    [maxAttempts]; [request n] is how the [n]-th call of [requestFn] ends.
    Every iteration adds one to [attempt]; [None] when [fuel] iterations are
    not enough. *)
Fixpoint retry_loop {A} (request : nat -> completion A) (maxAttempts : Z) (fuel : nat)
    (attempt : Z) (lastError : option jsstring) (n : nat) (timers : list Z)
  : option (retry_run A) :=
  if attempt <=? maxAttempts then
    match fuel with
    | O => None
    | S fuel' =>
        match request n with
        | Normal a => Some (RetryRun (Resolved a) (S n) timers)
        | Throw e =>
            retry_loop request maxAttempts fuel' (attempt + 1) (Some e) (S n)
              (if attempt <? maxAttempts then timers ++ [RETRY_DELAY * attempt]
               else timers)
        end
    end
  else Some (RetryRun (Rejected lastError) n timers).

(** [retryRequest(requestFn, maxAttempts)] *)
Definition retryRequest {A} (request : nat -> completion A) (maxAttempts : Z)
  : option (retry_run A) :=
  retry_loop request maxAttempts (Z.to_nat maxAttempts) 1 None 0 [].

(** The timers before the attempts 2 to [k + 1]: 1000, 2000, ... *)
Definition backoff (k : nat) : list Z :=
  List.map (fun j => RETRY_DELAY * Z.of_nat (S j)) (seq 0 k).

(** The error of the [n]-th call, if it failed. *)
Definition error_of {A} (c : completion A) : option jsstring :=
  match c with
  | Normal _ => None
  | Throw e => Some e
  end.

End ApiConfig.

(** ** The stock data service *)

(** What [response.json()] can produce. *)
#[local] Set Warnings "-register-all".

Inductive json : Type :=
| JNull
| JBool (b : bool)
| JNumber (x : float)
| JString (s : JS.jsstring)
| JArray (xs : list json)
| JObject (fields : list (JS.jsstring * json)).

Module Json.

Import JS.

(** Own property [key] of an object, [None] for [undefined]. *)
Fixpoint lookup_field (key : jsstring) (fields : list (jsstring * json)) : option json :=
  match fields with
  | (k, v) :: fs => if string_eqb k key then Some v else lookup_field key fs
  | [] => None
  end.

(** [v.answer]: a [TypeError] on [null], [undefined] on a value that has no
    such property. *)
Definition get_answer (v : json) : completion (option json) :=
  match v with
  | JNull => Throw (lit "TypeError")
  | JObject fields => Normal (lookup_field (lit "answer") fields)
  | _ => Normal None
  end.

Definition truthy (v : json) : bool :=
  match v with
  | JNull => false
  | JBool b => b
  | JNumber x => JS.truthy x
  | JString s => negb (string_eqb s [])
  | JArray _ | JObject _ => true
  end.

(** What the development takes from the host for numbers:
    [Number.prototype.toString]. *)
Class NumberHost : Type := { Number_toString : float -> jsstring }.

(** The own property [key] of a value that is not [null], [None] for
    [undefined]: only an object of JSON has properties of its own under the
    keys the service reads, and no prototype defines them. *)
Definition own (key : jsstring) (v : json) : option json :=
  match v with
  | JObject fields => lookup_field key fields
  | _ => None
  end.

(** [v.key]: a [TypeError] on [null]. *)
Definition get (key : jsstring) (v : json) : completion (option json) :=
  match v with
  | JNull => Throw (lit "TypeError")
  | _ => Normal (own key v)
  end.

(** Truthiness of a value that can be [undefined]. *)
Definition truthy_value (v : option json) : bool :=
  match v with
  | Some j => truthy j
  | None => false
  end.

(** [a || b] *)
Definition or_else (a b : option json) : option json :=
  if truthy_value a then a else b.

(** [v.toString()] of a value that is not [null], which for the values of
    JSON is [ToString(v)]: an array joins its elements with commas, [null]
    ones as empty strings; an object is written as [[object Object]] unless
    it has a property [toString] of its own, which is no function. *)
Fixpoint toString `{NumberHost} (v : json) : completion jsstring :=
  match v with
  | JNull => Normal (lit "null")
  | JBool true => Normal (lit "true")
  | JBool false => Normal (lit "false")
  | JNumber x => Normal (Number_toString x)
  | JString s => Normal s
  | JArray xs =>
      (fix join (xs : list json) : completion jsstring :=
         match xs with
         | [] => Normal []
         | x :: rest =>
             s ← match x with
                  | JNull => Normal []
                  | _ => toString x
                  end;
             match rest with
             | [] => Normal s
             | _ => r ← join rest; Normal (s ++ 44%N :: r)
             end
         end) xs
  | JObject fields =>
      match lookup_field (lit "toString") fields with
      | Some _ => Throw (lit "TypeError")
      | None => Normal (lit "[object Object]")
      end
  end.

(** [v.map(f)]: only an array has a [map] that can be called. *)
Fixpoint map_all {A B} (f : A -> completion B) (xs : list A) : completion (list B) :=
  match xs with
  | [] => Normal []
  | x :: rest => y ← f x; ys ← map_all f rest; Normal (y :: ys)
  end.

Definition array_map {B} (f : json -> completion B) (v : json) : completion (list B) :=
  match v with
  | JArray xs => map_all f xs
  | _ => Throw (lit "TypeError")
  end.

End Json.

Module StockPrice.

Record t : Type := Build {
  symbol : JS.jsstring;
  name : JS.jsstring;
  current_price : float;
  change : float;
  change_percent : float;
  previous_close : float;
  open : float;
  high : float;
  low : float;
  volume : float;
  market_cap : JS.jsstring;
  last_updated : JS.jsstring;
}.

End StockPrice.

(** What [formatStockData] builds: the fields are the values of the
    response, [None] for [undefined]. *)
Module FormattedStock.

Record t : Type := Build {
  symbol : option json;
  name : option json;
  current_price : option json;
  change : option json;
  change_percent : option json;
  previous_close : option json;
  open : option json;
  high : option json;
  low : option json;
  volume : json;
  market_cap : JS.jsstring;
  last_updated : option json;
}.

End FormattedStock.

(** A position of the portfolio. *)
Module Investment.

Record t : Type := Build {
  id : JS.jsstring;
  ticker : JS.jsstring;
  name : JS.jsstring;
  price : float;
  change : float;
  changePercent : float;
  type : JS.jsstring;
  currentValue : float;
  purchaseValue : float;
  quantity : float;
}.

End Investment.

Module StockDataService.

Import JS RegExp.

Section Service.

Context `{host : Host}.

(** An amount: digits and commas, an optional point, digits. *)
Definition amount : regex :=
  Seq (Plus (Class [ADigit; AUnit 44%N])) (Seq (Opt (Unit 46%N)) (Star true (Class [ADigit]))).

(** An optional [+] or [-]. *)
Definition sign : regex := Opt (Class [AUnit 43%N; AUnit 45%N]).

(** The pattern of [priceMatch], with the flag [i]: [Current Price], then
    lazily any units of the line, the rupee sign, and as group 1 an amount. *)
Definition priceRe : regex :=
  Seq (Str (lit "Current Price"))
    (Seq (Star false AnyChar) (Seq (Unit rupee) (Group 1 amount))).

(** The pattern of [changeMatch], with the flag [i]: [Change], then lazily
    any units of the line, the rupee sign, as group 1 a signed amount, white
    space, and between parentheses as group 2 a sign and digits and points,
    followed by a percent sign. *)
Definition changeRe : regex :=
  Seq (Str (lit "Change"))
    (Seq (Star false AnyChar)
       (Seq (Unit rupee)
          (Seq (Group 1 (Seq sign amount))
             (Seq (Star true (Class [ASpace]))
                (Seq (Unit 40%N)
                   (Seq (Group 2 (Seq sign (Plus (Class [ADigit; AUnit 46%N]))))
                      (Seq (Unit 37%N) (Unit 41%N)))))))).

(** The pattern of [previousCloseMatch], with the flag [i]. *)
Definition previousCloseRe : regex :=
  Seq (Str (lit "Previous Close"))
    (Seq (Star false AnyChar) (Seq (Unit rupee) (Group 1 amount))).

(** The pattern of [volumeMatch], with the flag [i]: [Volume], then lazily
    any units of the line, and as group 1 digits and commas. *)
Definition volumeRe : regex :=
  Seq (Str (lit "Volume"))
    (Seq (Star false AnyChar) (Group 1 (Plus (Class [ADigit; AUnit 44%N])))).

(** *** What the patterns accept *)

Definition digit_or_comma (c : N) : bool := is_digit c || (c =? 44)%N.

Definition plus_or_minus (c : N) : bool := ((c =? 43) || (c =? 45))%N.

Definition digit_or_point (c : N) : bool := is_digit c || (c =? 46)%N.

(** Digits and commas, at least one; then a point or nothing; then digits. *)
Definition is_amount (w : jsstring) : Prop :=
  exists ds pt fs, w = ds ++ pt ++ fs /\ ds <> [] /\ forallb digit_or_comma ds = true
    /\ (pt = [] \/ pt = [46%N]) /\ forallb is_digit fs = true.

Definition is_sign (w : jsstring) : Prop :=
  w = [] \/ exists c, w = [c] /\ plus_or_minus c = true.

(** The label in any case, then units of the same line, then a [tail]. *)
Definition labelled (label : jsstring) (tail : jsstring -> Prop) (w : jsstring) : Prop :=
  exists l gap t, w = l ++ gap ++ t /\ ascii_upper l = ascii_upper label
    /\ forallb same_line gap = true /\ tail t.

Definition rupee_amount (t : jsstring) : Prop :=
  exists a, t = rupee :: a /\ is_amount a.

Definition digits_and_commas (t : jsstring) : Prop :=
  t <> [] /\ forallb digit_or_comma t = true.

(** The rupee sign, a signed amount, white space, and between parentheses a
    sign, digits and points, and a percent sign. *)
Definition rupee_change (t : jsstring) : Prop :=
  exists s1 a sp s2 pc,
    t = rupee :: s1 ++ a ++ sp ++ 40%N :: s2 ++ pc ++ [37%N; 41%N]
    /\ is_sign s1 /\ is_amount a /\ forallb is_whitespace sp = true
    /\ is_sign s2 /\ pc <> [] /\ forallb digit_or_point pc = true.

(** *** What the patterns capture *)

(** The amount at the head of [s]: the digits and commas, then a point if
    one follows, then the digits after it. *)
Definition amount_prefix (s : jsstring) : jsstring :=
  leading digit_or_comma s ++ fraction (skip digit_or_comma s).

(** What the part of the price pattern after the gap reads at the head of
    [s]: the amount after a rupee sign that a digit or a comma follows. *)
Definition amount_at (s : jsstring) : option jsstring :=
  match s with
  | d :: _ => if digit_or_comma d then Some (amount_prefix s) else None
  | [] => None
  end.

Definition rupee_amount_at (s : jsstring) : option jsstring :=
  match s with
  | c :: r => if (c =? rupee)%N then amount_at r else None
  | [] => None
  end.

(** What the group of the volume pattern reads at the head of [s]. *)
Definition digits_and_commas_at (s : jsstring) : option jsstring :=
  match s with
  | d :: _ => if digit_or_comma d then Some (leading digit_or_comma s) else None
  | [] => None
  end.

(** *** Company names *)

Definition companyNames : list (jsstring * jsstring) :=
  [ (lit "AAPL", lit "Apple Inc.");
    (lit "GOOGL", lit "Alphabet Inc.");
    (lit "MSFT", lit "Microsoft Corporation");
    (lit "AMZN", lit "Amazon.com Inc.");
    (lit "TSLA", lit "Tesla Inc.");
    (lit "META", lit "Meta Platforms Inc.");
    (lit "NVDA", lit "NVIDIA Corporation");
    (lit "NFLX", lit "Netflix Inc.");
    (lit "UBER", lit "Uber Technologies Inc.");
    (lit "SPOT", lit "Spotify Technology S.A.");
    (lit "RELIANCE", lit "Reliance Industries Ltd.");
    (lit "TCS", lit "Tata Consultancy Services Ltd.");
    (lit "INFY", lit "Infosys Ltd.");
    (lit "HDFC", lit "HDFC Bank Ltd.");
    (lit "ICICI", lit "ICICI Bank Ltd.");
    (lit "SBI", lit "State Bank of India") ].

Fixpoint table_lookup {A} (key : jsstring) (table : list (jsstring * A)) : option A :=
  match table with
  | (k, v) :: t => if string_eqb k key then Some v else table_lookup key t
  | [] => None
  end.

(** [getCompanyName(symbol)].  The names of the table are not empty, so
    [||] takes the second operand only when the key is missing. *)
Definition getCompanyName (symbol : jsstring) : jsstring :=
  match table_lookup (toUpperCase symbol) companyNames with
  | Some n => n
  | None => toUpperCase symbol ++ lit " Corp."
  end.

(** The first part of [parseStockResponse]: the text of the answer.
    [Normal None] is the [return null] of the last [else]; a value that is
    not a string has no [match] method, which throws at the first call. *)
Definition answer_content (response : json) : completion (option jsstring) :=
  answer ← Json.get_answer response;
  match answer with
  | Some (JObject fields as a) =>
      match Json.lookup_field (lit "answer") fields with
      | Some (JString content) => Normal (Some content)
      | Some _ => Throw (lit "TypeError")
      | None => Normal None
      end
  | Some (JString content) =>
      if Json.truthy (JString content) then Normal (Some content) else Normal None
  | _ => Normal None
  end.

(** The statements of [parseStockResponse] after the text is extracted.
    [iso] is [new Date().toISOString()]. *)
Definition parse_content (content symbol iso : jsstring) : option StockPrice.t :=
  let priceMatch := match_ true priceRe content in
  let changeMatch := match_ true changeRe content in
  let previousCloseMatch := match_ true previousCloseRe content in
  let volumeMatch := match_ true volumeRe content in
  match priceMatch with
  | None => None
  | Some pm =>
      let currentPrice := parseFloat (remove_all 44%N (group pm 1)) in
      let change := match changeMatch with
                    | Some cm => parseFloat (remove_all 44%N (group cm 1))
                    | None => 0%float
                    end in
      let changePercent := match changeMatch with
                           | Some cm => parseFloat (group cm 2)
                           | None => 0%float
                           end in
      let previousClose := match previousCloseMatch with
                           | Some m => parseFloat (remove_all 44%N (group m 1))
                           | None => (currentPrice - change)%float
                           end in
      let volume := match volumeMatch with
                    | Some m => parseInt (remove_all 44%N (group m 1))
                    | None => 0%float
                    end in
      Some {| StockPrice.symbol := toUpperCase symbol;
              StockPrice.name := getCompanyName symbol;
              StockPrice.current_price := currentPrice;
              StockPrice.change := change;
              StockPrice.change_percent := changePercent;
              StockPrice.previous_close := previousClose;
              StockPrice.open := previousClose;
              StockPrice.high := (currentPrice + Math_abs change)%float;
              StockPrice.low := (currentPrice - Math_abs change)%float;
              StockPrice.volume := volume;
              StockPrice.market_cap := lit "N/A";
              StockPrice.last_updated := iso |}
  end.

(** [parseStockResponse(response, symbol)]: the body runs in a [try] whose
    [catch] returns [null]. *)
Definition parseStockResponse (response : json) (symbol iso : jsstring)
  : completion (option StockPrice.t) :=
  try_catch
    (content ← answer_content response;
     match content with
     | Some c => Normal (parse_content c symbol iso)
     | None => Normal None
     end)
    (fun _ => Normal None).

(** *** Answers and responses *)

(** The answer of the specification's example. *)
Definition example_answer : jsstring :=
  lit "Current Price: " ++ [rupee] ++ lit "2,850.55" ++ [10%N]
  ++ lit "Change: " ++ [rupee] ++ lit "+12.30 (0.43%)" ++ [10%N]
  ++ lit "Previous Close: " ++ [rupee] ++ lit "2,838.25".

(** The two shapes of a response whose answer is the text [content]. *)
Definition answer_string (content : jsstring) : json :=
  JObject [(lit "answer", JString content)].

Definition answer_object (content : jsstring) : json :=
  JObject [(lit "answer", JObject [(lit "answer", JString content)])].

(** *** The cache, the pending requests and the event loop *)

(** [Date.now()] and [new Date().toISOString()] at one instant. *)
Record Clock : Type := { now : Z; iso : jsstring }.

Record CacheEntry : Type := { data : StockPrice.t; timestamp : Z }.

Definition CACHE_DURATION : Z := 120000.

(** How the request of [fetchStockData] ends: [fetch] rejects, or it
    resolves to a response with its [ok] flag, whose [json()] resolves to a
    value or rejects. *)
Inductive net_outcome : Type :=
| NetFailure (e : jsstring)
| NetResponse (ok : bool) (body : completion json).

(** What the promise of [fetchStockData(symbol)] settles to: the body runs
    in a [try] whose [catch] returns [null]. *)
Definition fetchStockData_result (net : net_outcome) (symbol iso : jsstring)
  : completion (option StockPrice.t) :=
  try_catch
    (match net with
     | NetFailure e => Throw e
     | NetResponse ok body =>
         if negb ok then Throw (lit "Failed to fetch stock data")
         else
           data ← body;
           parseStockResponse data symbol iso
     end)
    (fun _ => Normal None).

(** A call of [fetchStockData]: the symbol it asks for, its promise ([None]
    while the request is in flight), and whether the call of [getStockPrice]
    that made it still waits at [await requestPromise]. *)
Record fetch : Type := Fetch {
  f_symbol : jsstring;
  f_promise : option (completion (option StockPrice.t));
  f_owner_waits : bool;
}.

(** The service object and what it has asked of the network: [fetches] lists
    the calls of [fetchStockData] in order, each of which posted one query;
    [pendingRequests] refers to a promise by its index in [fetches]. *)
Record state : Type := State {
  cache : gmap jsstring CacheEntry;
  pendingRequests : gmap jsstring nat;
  fetches : list fetch;
}.

Definition initial : state := State ∅ ∅ [].

(** What a call of [getStockPrice] has done when it first gives up control:
    returned the cached data, or suspended at [await pendingRequest], or at
    [await requestPromise] with a request of its own. *)
Inductive call_outcome : Type :=
| Returned (d : StockPrice.t)
| AwaitsPending (p : nat)
| AwaitsOwn (p : nat).

(** The cached data of [symbol] if the entry is fresh at [now]. *)
Definition fresh (st : state) (symbol : jsstring) (now : Z) : option StockPrice.t :=
  match cache st !! symbol with
  | Some cached =>
      if now - timestamp cached <? CACHE_DURATION then Some (data cached) else None
  | None => None
  end.

(** [getStockPrice(symbol)] up to its first [await]; [now] is [Date.now()]. *)
Definition getStockPrice_call (now : Z) (symbol : jsstring) (st : state)
  : state * call_outcome :=
  match fresh st symbol now with
  | Some d => (st, Returned d)
  | None =>
      match pendingRequests st !! symbol with
      | Some p => (st, AwaitsPending p)
      | None =>
          let p := length (fetches st) in
          (State (cache st)
                 (<[symbol := p]> (pendingRequests st))
                 (fetches st ++ [Fetch symbol None true]),
           AwaitsOwn p)
      end
  end.

(** The request of the [p]-th fetch ends with [net] at the instant [clk]:
    [fetchStockData] runs to its end, caching a parsed price, and its promise
    settles. *)
Definition settle (clk : Clock) (p : nat) (net : net_outcome) (st : state) : state :=
  match fetches st !! p with
  | Some (Fetch symbol None w) =>
      let r := fetchStockData_result net symbol (iso clk) in
      State (match r with
             | Normal (Some stockData) =>
                 <[symbol := Build_CacheEntry stockData (now clk)]> (cache st)
             | _ => cache st
             end)
            (pendingRequests st)
            (<[p := Fetch symbol (Some r) w]> (fetches st))
  | _ => st
  end.

(** What [await] of the [p]-th promise gives once it is settled, and what
    [getStockPrice] then returns: the value, or [null] from the outer
    [catch]. *)
Definition awaited (st : state) (p : nat) : option (option StockPrice.t) :=
  match fetches st !! p with
  | Some (Fetch _ (Some (Normal v)) _) => Some v
  | Some (Fetch _ (Some (Throw _)) _) => Some None
  | _ => None
  end.

(** The call that made the [p]-th fetch continues after its [await]: the
    [finally] block deletes the pending entry of its symbol. *)
Definition resume (p : nat) (st : state) : state :=
  match fetches st !! p with
  | Some (Fetch symbol (Some r) true) =>
      State (cache st)
            (delete symbol (pendingRequests st))
            (<[p := Fetch symbol (Some r) false]> (fetches st))
  | _ => st
  end.

(** The steps of the event loop that touch the service. *)
Inductive event : Type :=
| Call (now : Z) (symbol : jsstring)
| Settle (clk : Clock) (p : nat) (net : net_outcome)
| Resume (p : nat).

Definition step (st : state) (e : event) : state :=
  match e with
  | Call now symbol => fst (getStockPrice_call now symbol st)
  | Settle clk p net => settle clk p net st
  | Resume p => resume p st
  end.

Definition run (evs : list event) (st : state) : state := fold_left step evs st.

(** The queries posted for [symbol], and those of them still in flight. *)
Definition requests_for (symbol : jsstring) (st : state) : list fetch :=
  List.filter (fun f => string_eqb (f_symbol f) symbol) (fetches st).

Definition in_flight (symbol : jsstring) (st : state) : list fetch :=
  List.filter (fun f => match f_promise f with None => true | Some _ => false end)
    (requests_for symbol st).

(** An event that leaves the [p]-th request, one for [symbol], in flight:
    a call for [symbol] that finds no fresh entry of the cache of [st] at the
    time it reads, a call for another symbol, the settlement of another
    request, or the continuation of a caller. *)
Definition keeps_in_flight (st : state) (symbol : jsstring) (p : nat) (e : event) : bool :=
  match e with
  | Call now s =>
      if string_eqb s symbol then
        match fresh st symbol now with Some _ => false | None => true end
      else true
  | Settle _ q _ => negb (q =? p)%nat
  | Resume _ => true
  end.

(** The value of a settled promise as [getStockPrice] returns it. *)
Definition returned_value (r : completion (option StockPrice.t)) : option StockPrice.t :=
  match r with
  | Normal v => v
  | Throw _ => None
  end.

(** *** [getMultipleStockPrices] *)

(** The world of one run: how the [p]-th request ends and after how many
    milliseconds, by how many milliseconds the timer set after the batch at
    index [i] fires late, and how an instant is written by [toISOString].
    Time passes at the [await]s only.  The run is taken by itself: while it
    waits, the requests it awaits settle and nothing else touches the
    service.  What other callers and other requests do in between is
    [run_operations] below. *)
Record env : Type := {
  net_of : nat -> net_outcome;
  latency : nat -> N;
  timer_late : nat -> N;
  iso_of : Z -> jsstring;
}.

Definition clock_at (E : env) (t : Z) : Clock := {| now := t; iso := iso_of E t |}.

Definition batchSize : nat := 3.

(** [batch.map(symbol => this.getStockPrice(symbol))]: the calls run in
    order, each up to its first [await], at the instant [t]. *)
Fixpoint call_all (t : Z) (batch : list jsstring) (st : state)
  : state * list call_outcome :=
  match batch with
  | [] => (st, [])
  | symbol :: rest =>
      let '(st1, o) := getStockPrice_call t symbol st in
      let '(st2, os) := call_all t rest st1 in
      (st2, o :: os)
  end.

(** The promise a suspended call waits for. *)
Definition promise_of (o : call_outcome) : option nat :=
  match o with
  | Returned _ => None
  | AwaitsPending p | AwaitsOwn p => Some p
  end.

(** The request a call posted itself. *)
Definition own_promise (o : call_outcome) : option nat :=
  match o with
  | AwaitsOwn p => Some p
  | _ => None
  end.

(** While [Promise.all] waits, the awaited requests settle, the [p]-th one
    [latency p] milliseconds after the calls, and the caller that posted it
    continues. *)
Definition settle_one (E : env) (t : Z) (st : state) (o : call_outcome) : state :=
  match promise_of o with
  | Some p => resume p (settle (clock_at E (t + Z.of_N (latency E p))) p (net_of E p) st)
  | None => st
  end.

Definition settle_all (E : env) (t : Z) (outs : list call_outcome) (st : state) : state :=
  fold_left (settle_one E t) outs st.

(** What a call of the batch resolves to in the end. *)
Definition result_of (st : state) (o : call_outcome) : option StockPrice.t :=
  match o with
  | Returned d => Some d
  | AwaitsPending p | AwaitsOwn p => default None (awaited st p)
  end.

(** The instant at which [Promise.all] resolves: when the last awaited
    request has settled. *)
Definition batch_end (E : env) (t : Z) (outs : list call_outcome) : Z :=
  t + Z.of_N (fold_right N.max 0%N (List.map (latency E) (omap promise_of outs))).

(** The [forEach] over the batch: a result that is not [null] is set. *)
Fixpoint collect (batch : list jsstring) (batchResults : list (option StockPrice.t))
    (results : gmap jsstring StockPrice.t) : gmap jsstring StockPrice.t :=
  match batch, batchResults with
  | symbol :: batch', result :: rest =>
      collect batch' rest
        (match result with
         | Some d => <[symbol := d]> results
         | None => results
         end)
  | _, _ => results
  end.

(** What a run records of one batch: when its calls were made, for which
    symbols and how they suspended, what they resolved to and when all had,
    the service at that instant, and when the timer set after the batch
    fired, if one was set. *)
Record batch_log : Type := BatchLog {
  b_start : Z;
  b_symbols : list jsstring;
  b_outcomes : list call_outcome;
  b_results : list (option StockPrice.t);
  b_end : Z;
  b_state : state;
  b_timer : option Z;
}.

Record run_result : Type := RunResult {
  r_state : state;
  r_time : Z;
  r_results : gmap jsstring StockPrice.t;
  r_log : list batch_log;
}.

(** One batch, from the calls to the end of [await Promise.all(promises)]. *)
Definition run_batch (E : env) (t : Z) (batch : list jsstring) (st : state)
    (timer : option Z) : batch_log :=
  let '(st1, outs) := call_all t batch st in
  let st2 := settle_all E t outs st1 in
  BatchLog t batch outs (List.map (result_of st2) outs) (batch_end E t outs) st2 timer.

(** The [for] loop of [getMultipleStockPrices] from index [i] at the instant
    [t].  When symbols remain after the batch, the loop waits for a timer of
    500 milliseconds, which fires [timer_late E i] late.  Every iteration
    adds [batchSize] to [i], so [fuel] iterations are enough when [fuel] is
    at least the number of symbols from [i] on. *)
Fixpoint batches (E : env) (symbols : list jsstring) (fuel i : nat) (t : Z)
    (st : state) (results : gmap jsstring StockPrice.t) : run_result :=
  match fuel with
  | O => RunResult st t results []
  | S fuel' =>
      if (i <? length symbols)%nat then
        let batch := take batchSize (drop i symbols) in
        let more := (i + batchSize <? length symbols)%nat in
        let t_end := batch_end E t (snd (call_all t batch st)) in
        let t' := if more then t_end + 500 + Z.of_N (timer_late E i) else t_end in
        let b := run_batch E t batch st (if more then Some t' else None) in
        let r := batches E symbols fuel' (i + batchSize) t' (b_state b)
                   (collect batch (b_results b) results) in
        RunResult (r_state r) (r_time r) (r_results r) (b :: r_log r)
      else RunResult st t results []
  end.

(** [getMultipleStockPrices(symbols)] called at the instant [t]. *)
Definition getMultipleStockPrices (E : env) (symbols : list jsstring) (t : Z) (st : state)
  : run_result :=
  batches E symbols (length symbols) 0 t st ∅.

(** The queries a run posted, each with the instants at which it was posted
    and at which it settled. *)
Definition posted (E : env) (log : list batch_log) : list (Z * Z) :=
  flat_map
    (fun b => List.map (fun p => (b_start b, b_start b + Z.of_N (latency E p)))
                (omap own_promise (b_outcomes b)))
    log.

(** How many of them are in flight at the instant [tau]. *)
Definition in_flight_at (tau : Z) (reqs : list (Z * Z)) : nat :=
  length (List.filter (fun r => (fst r <=? tau) && (tau <? snd r)) reqs).

(** *** The invariant of the pending-request map *)

(** A fetch whose caller still waits is the pending entry of its symbol, a
    pending entry refers to such a fetch, and the caller of a request in
    flight still waits. *)
Record Inv (st : state) : Prop := {
  inv_owner : forall p s r,
    fetches st !! p = Some (Fetch s r true) -> pendingRequests st !! s = Some p;
  inv_pending : forall s p,
    pendingRequests st !! s = Some p -> exists r, fetches st !! p = Some (Fetch s r true);
  inv_in_flight : forall p s w,
    fetches st !! p = Some (Fetch s None w) -> w = true;
}.

(** What holds while the [p]-th request, the only one for [symbol] whose
    caller waits, is in flight. *)
Record in_flight_for (symbol : jsstring) (p : nat) (c : option CacheEntry)
    (R : list fetch) (st : state) : Prop := {
  ifl_inv : Inv st;
  ifl_pending : pendingRequests st !! symbol = Some p;
  ifl_fetch : fetches st !! p = Some (Fetch symbol None true);
  ifl_cache : cache st !! symbol = c;
  ifl_requests : requests_for symbol st = R;
}.

(** A backend that gives no price: whatever is asked, the promise of
    [fetchStockData] settles to [null]. *)
Definition gives_no_price (E : env) : Prop :=
  forall p symbol iso, fetchStockData_result (net_of E p) symbol iso = Normal None.

(** A service none of whose settled promises holds a price. *)
Definition no_price_settled (st : state) : Prop :=
  forall p v, awaited st p = Some v -> v = None.

Section Loop.

Variable E : env.

Variable symbols : list jsstring.

(** The batch the loop takes at index [i], [symbols.slice(i, i + batchSize)],
    whether symbols remain after it, and the instant of the next iteration. *)
Definition batch_at (i : nat) : list jsstring := take batchSize (drop i symbols).

Definition more_after (i : nat) : bool := (i + batchSize <? length symbols)%nat.

Definition next_start (i : nat) (t : Z) (st : state) : Z :=
  let t_end := batch_end E t (snd (call_all t (batch_at i) st)) in
  if more_after i then t_end + 500 + Z.of_N (timer_late E i) else t_end.

Definition batch_of (i : nat) (t : Z) (st : state) : batch_log :=
  run_batch E t (batch_at i) st
    (if more_after i then Some (next_start i t st) else None).

(** The instants of a run from index [i] at the instant [t]. *)
Record timed (i : nat) (t : Z) (r : run_result) : Prop := {
  tm_empty : r_log r = [] <-> (length symbols <= i)%nat;
  tm_time : r_log r = [] -> r_time r = t;
  tm_first : forall b, r_log r !! O = Some b -> b_start b = t;
  tm_next : forall k b b', r_log r !! k = Some b -> r_log r !! S k = Some b' ->
              b_timer b = Some (b_start b') /\ b_end b + 500 <= b_start b';
  tm_last : forall b, last (r_log r) = Some b -> b_timer b = None /\ r_time r = b_end b;
  tm_order : forall b, b ∈ r_log r -> t <= b_start b /\ b_start b <= b_end b;
}.

End Loop.

End Service.

(** The service after a call for AAPL at time 0 whose request was answered
    at time 1000 with the answer of the example. *)
Definition cached_state : state :=
  settle (host := ascii_host) {| now := 1000; iso := lit "2024-01-15T09:30:00.000Z" |} 0
    (NetResponse true (Normal (answer_string example_answer)))
    (fst (getStockPrice_call 0 (lit "AAPL") initial)).

(** An answer with a change, a previous close and a volume, and no price. *)
Definition answer_without_price : jsstring :=
  lit "Change: " ++ [rupee] ++ lit "+12.30 (0.43%)" ++ [10%N]
  ++ lit "Previous Close: " ++ [rupee] ++ lit "2,838.25" ++ [10%N]
  ++ lit "Volume: 1,234,567".

(** An answer with a price and nothing else. *)
Definition answer_price_only : jsstring := lit "current price - " ++ [rupee] ++ lit "1,500".

(** Seven symbols, the second and the fifth request failing: the batches
    have 3, 3 and 1 symbols, the delays are as the timers say, and the map
    has the symbols that resolved. *)
Definition example_env : env :=
  {| net_of := fun p =>
       if (p =? 1)%nat || (p =? 4)%nat then NetFailure (lit "TypeError")
       else NetResponse true (Normal (answer_string example_answer));
     latency := fun p => N.of_nat (100 * p);
     timer_late := fun _ => 7%N;
     iso_of := fun _ => lit "2024-01-15T09:30:00.000Z" |}.

(** *** The other operations of the service *)

Import Json.

Section Operations.

Context `{host : Host} `{numbers : NumberHost}.

(** [clearCache()] *)
Definition clearCache (st : state) : state :=
  State ∅ (pendingRequests st) (fetches st).

(** What can happen to the service: a step of the event loop, or a call of
    [clearCache]. *)
Inductive operation : Type :=
| Loop (e : event)
| ClearCache.

Definition perform (st : state) (o : operation) : state :=
  match o with
  | Loop e => step st e
  | ClearCache => clearCache st
  end.

Definition run_operations (ops : list operation) (st : state) : state :=
  fold_left perform ops st.

(** One call of [getStockPrice(symbol)] at the instant [t], from the call
    to the value it resolves to, in the world [E]: the service and the time
    afterwards, and the value. *)
Definition getStockPrice (E : env) (t : Z) (symbol : jsstring) (st : state)
  : state * Z * option StockPrice.t :=
  let '(st1, o) := getStockPrice_call t symbol st in
  let st2 := settle_one E t st1 o in
  (st2, batch_end E t [o], result_of st2 o).

(** [testConnection()]: [getStockPrice] does not throw, so the [catch] is
    never entered. *)
Definition testConnection (E : env) (t : Z) (st : state) : state * Z * bool :=
  let '(st', t', testStock) := getStockPrice E t (lit "AAPL") st in
  (st', t', match testStock with Some _ => true | None => false end).

(** [updateInvestmentWithRealData(investment)] *)
Definition updateInvestmentWithRealData (E : env) (t : Z) (investment : Investment.t)
    (st : state) : state * Z * Investment.t :=
  let '(st', t', stockData) := getStockPrice E t (Investment.ticker investment) st in
  (st', t',
   match stockData with
   | None => investment
   | Some stockData =>
       let usdPrice := (StockPrice.current_price stockData * 0.012)%float in
       {| Investment.id := Investment.id investment;
          Investment.ticker := Investment.ticker investment;
          Investment.name := Investment.name investment;
          Investment.price := usdPrice;
          Investment.change := (StockPrice.change stockData * 0.012)%float;
          Investment.changePercent := StockPrice.change_percent stockData;
          Investment.type := Investment.type investment;
          Investment.currentValue := (usdPrice * Investment.quantity investment)%float;
          Investment.purchaseValue := Investment.purchaseValue investment;
          Investment.quantity := Investment.quantity investment |}
   end).

(** [formatStockData(stock)] *)
Definition formatStockData (stock : json) : completion FormattedStock.t :=
  symbol ← get (lit "symbol") stock;
  name ← get (lit "name") stock;
  current_price ← get (lit "current_price") stock;
  change ← get (lit "change") stock;
  change_percent ← get (lit "change_percent") stock;
  previous_close ← get (lit "previous_close") stock;
  day_low ← get (lit "day_low") stock;
  day_high ← get (lit "day_high") stock;
  volume ← get (lit "volume") stock;
  market_cap ← get (lit "market_cap") stock;
  market_cap_text ← match market_cap with
                     | None | Some JNull => Normal []
                     | Some v => toString v
                     end;
  last_updated ← get (lit "last_updated") stock;
  Normal
    {| FormattedStock.symbol := symbol;
       FormattedStock.name := name;
       FormattedStock.current_price := current_price;
       FormattedStock.change := change;
       FormattedStock.change_percent := change_percent;
       FormattedStock.previous_close := previous_close;
       FormattedStock.open := or_else day_low current_price;
       FormattedStock.high := or_else day_high current_price;
       FormattedStock.low := or_else day_low current_price;
       FormattedStock.volume :=
         match volume with
         | Some v => if truthy v then v else JNumber 0
         | None => JNumber 0
         end;
       FormattedStock.market_cap :=
         match market_cap_text with
         | [] => lit "N/A"
         | _ => market_cap_text
         end;
       FormattedStock.last_updated := last_updated |}.

(** The body of the [try] of [getLiveOpportunities] and of [searchStocks],
    from the response on. *)
Definition stocks_of_response (net : net_outcome) (message : jsstring)
  : completion (list FormattedStock.t) :=
  match net with
  | NetFailure e => Throw e
  | NetResponse ok body =>
      if negb ok then Throw message
      else
        data ← body;
        success ← get (lit "success") data;
        if truthy_value success then
          d ← get (lit "data") data;
          match d with
          | Some dv => if truthy dv then array_map formatStockData dv else Normal []
          | None => Normal []
          end
        else Normal []
  end.

(** [getLiveOpportunities(limit)], given how its request ended. *)
Definition getLiveOpportunities (net : net_outcome) : completion (list FormattedStock.t) :=
  try_catch (stocks_of_response net (lit "Failed to fetch opportunities"))
    (fun _ => Normal []).

(** [query.isWellFormed()]: no surrogate of [query] stands alone.
    [encodeURIComponent(query)] throws a [URIError] when it is not so. *)
Fixpoint isWellFormed (query : jsstring) : bool :=
  match query with
  | [] => true
  | c :: r =>
      if ((55296 <=? c) && (c <=? 56319))%N then
        match r with
        | d :: r' => ((56320 <=? d) && (d <=? 57343))%N && isWellFormed r'
        | [] => false
        end
      else negb ((56320 <=? c) && (c <=? 57343))%N && isWellFormed r
  end.

(** [searchStocks(query, limit)], given how its request ended; the request
    is made only when the query can be encoded. *)
Definition searchStocks (query : jsstring) (net : net_outcome)
  : completion (list FormattedStock.t) :=
  try_catch
    (if isWellFormed query then stocks_of_response net (lit "Failed to search stocks")
     else Throw (lit "URIError: URI malformed"))
    (fun _ => Normal []).

(** [movers?.map(stock => this.formatStockData(stock)) || []] *)
Definition movers_list (movers : option json) : completion (list FormattedStock.t) :=
  match movers with
  | None | Some JNull => Normal []
  | Some v => array_map formatStockData v
  end.

(** [getMarketMovers()], given how its request ended: the gainers and the
    losers. *)
Definition getMarketMovers (net : net_outcome)
  : completion (list FormattedStock.t * list FormattedStock.t) :=
  try_catch
    (match net with
     | NetFailure e => Throw e
     | NetResponse ok body =>
         if negb ok then Throw (lit "Failed to fetch market movers")
         else
           data ← body;
           success ← get (lit "success") data;
           if truthy_value success then
             d ← get (lit "data") data;
             match d with
             | Some dv =>
                 if truthy dv then
                   gainers ← (g ← get (lit "gainers") dv; movers_list g);
                   losers ← (l ← get (lit "losers") dv; movers_list l);
                   Normal (gainers, losers)
                 else Normal ([], [])
             | None => Normal ([], [])
             end
           else Normal ([], [])
     end)
    (fun _ => Normal ([], [])).

(** What the parser writes into every price it builds for [symbol]. *)
Definition parsed_for (symbol : jsstring) (d : StockPrice.t) : Prop :=
  StockPrice.symbol d = toUpperCase symbol
  /\ StockPrice.name d = getCompanyName symbol
  /\ StockPrice.open d = StockPrice.previous_close d
  /\ StockPrice.market_cap d = lit "N/A".

(** Every entry of the cache holds what a settled request for its key
    resolved to, with the time of the settlement not recorded here. *)
Definition sourced (st : state) : Prop :=
  forall s e, cache st !! s = Some e ->
    parsed_for s (data e)
    /\ exists p w, fetches st !! p = Some (Fetch s (Some (Normal (Some (data e)))) w).

(** An operation that does not read the clock before the instant [t]: a
    request that settles stores its price with the [Date.now()] of the
    instant at which it settles. *)
Definition not_before (t : Z) (o : operation) : bool :=
  match o with
  | Loop (Settle clk _ _) => t <=? now clk
  | _ => true
  end.

(** The entries of the cache were stored at the instant [t] or later. *)
Definition stored_since (t : Z) (st : state) : Prop :=
  forall s e, cache st !! s = Some e -> t <= timestamp e.

End Operations.

End StockDataService.

(** ** The real-time data provider *)

Module PortfolioConfig.

Record t : Type := Build {
  ticker : JS.jsstring;
  quantity : float;
  purchaseValue : float;
}.

End PortfolioConfig.

(** The data of a chart: [{ data, labels }]. *)
Module Series.

Record t : Type := Build { data : list float; labels : list JS.jsstring }.

End Series.

Module RealTimeDataProvider.

Import JS RegExp.

(** [i] as a number, for the small indices of the loops. *)
Definition number_of_nat (i : nat) : float := PrimFloat.of_uint63 (Uint63.of_Z (Z.of_nat i)).

Definition USER_PORTFOLIO_CONFIG : list PortfolioConfig.t :=
  [ PortfolioConfig.Build (lit "AAPL") 100 15000;
    PortfolioConfig.Build (lit "GOOGL") 10 30000;
    PortfolioConfig.Build (lit "MSFT") 50 15000;
    PortfolioConfig.Build (lit "TSLA") 25 12000;
    PortfolioConfig.Build (lit "NVDA") 30 18000 ].

Definition CACHE_DURATION : Z := 300000.

(** The provider object. *)
Record provider : Type := Provider {
  investmentCache : option (list Investment.t);
  lastInvestmentUpdate : Z;
}.

Definition new_provider : provider := Provider None 0.

(** [{ price, change, changePercent }] of the fallback table. *)
Record fallback_price : Type := FallbackPrice {
  fb_price : float;
  fb_change : float;
  fb_changePercent : float;
}.

Definition fallbackPrices : list (jsstring * fallback_price) :=
  [ (lit "AAPL", FallbackPrice 175.23 2.45 1.42);
    (lit "GOOGL", FallbackPrice 2847.56 (-15.23) (-0.53));
    (lit "MSFT", FallbackPrice 331.78 4.12 1.26);
    (lit "TSLA", FallbackPrice 248.50 (-3.20) (-1.27));
    (lit "NVDA", FallbackPrice 875.30 12.45 1.44) ].

Definition months : list jsstring :=
  [lit "Jul"; lit "Aug"; lit "Sep"; lit "Oct"; lit "Nov"; lit "Dec"].

Definition fallback_portfolio : Series.t :=
  Series.Build [67; 72; 69; 75; 78; 82]%float months.

Definition fallback_exchange_rates : Series.t :=
  Series.Build [83.2; 83.5; 83.1; 83.3; 83.6; 83.4; 83.7]%float
    [lit "Day 1"; lit "Day 2"; lit "Day 3"; lit "Day 4"; lit "Day 5";
     lit "Day 6"; lit "Day 7"].

(** [getFallbackInsights()] *)
Definition getFallbackInsights : list jsstring :=
  [ lit "Tech stocks showing mixed performance amid market volatility";
    lit "Federal Reserve policy decisions continue to impact market sentiment";
    lit "Energy sector gains momentum with rising commodity prices" ].

(** The pattern of the bullet at the start of a line: the start of the
    input, a bullet or a hyphen, white space. *)
Definition bulletRe : regex :=
  Seq Bol (Seq (Class [AUnit bullet; AUnit 45%N]) (Star true (Class [ASpace]))).

(** The pattern of the rate: as group 1 digits, an optional point, digits. *)
Definition rateRe : regex :=
  Group 1 (Seq (Plus (Class [ADigit])) (Seq (Opt (Unit 46%N)) (Star true (Class [ADigit])))).

Section Provider.

Context `{host : Host}.

(** [getFallbackInvestment(config, index)], for a [config] of the portfolio
    configuration. *)
Definition getFallbackInvestment (config : PortfolioConfig.t) (index : nat) : Investment.t :=
  let fallback :=
    match StockDataService.table_lookup (PortfolioConfig.ticker config) fallbackPrices with
    | Some f => f
    | None => FallbackPrice 100 0 0
    end in
  {| Investment.id := nat_toString (index + 1);
     Investment.ticker := PortfolioConfig.ticker config;
     Investment.name :=
       StockDataService.getCompanyName (PortfolioConfig.ticker config);
     Investment.price := fb_price fallback;
     Investment.change := fb_change fallback;
     Investment.changePercent := fb_changePercent fallback;
     Investment.type := lit "stock";
     Investment.currentValue := (fb_price fallback * PortfolioConfig.quantity config)%float;
     Investment.purchaseValue := PortfolioConfig.purchaseValue config;
     Investment.quantity := PortfolioConfig.quantity config |}.

(** [getFallbackInvestments()] *)
Definition getFallbackInvestments : list Investment.t :=
  imap (fun index config => getFallbackInvestment config index) USER_PORTFOLIO_CONFIG.

(** The position built from a live price. *)
Definition live_investment (config : PortfolioConfig.t) (index : nat)
    (stockData : StockPrice.t) : Investment.t :=
  let usdPrice := (StockPrice.current_price stockData * 0.012)%float in
  let usdChange := (StockPrice.change stockData * 0.012)%float in
  {| Investment.id := nat_toString (index + 1);
     Investment.ticker := PortfolioConfig.ticker config;
     Investment.name := StockPrice.name stockData;
     Investment.price := toFixed2 usdPrice;
     Investment.change := toFixed2 usdChange;
     Investment.changePercent := toFixed2 (StockPrice.change_percent stockData);
     Investment.type := lit "stock";
     Investment.currentValue := toFixed2 (usdPrice * PortfolioConfig.quantity config)%float;
     Investment.purchaseValue := PortfolioConfig.purchaseValue config;
     Investment.quantity := PortfolioConfig.quantity config |}.

(** The [map] over the configuration in [getRealTimeInvestments]. *)
Definition build_investments (stockPrices : gmap jsstring StockPrice.t)
  : list Investment.t :=
  imap (fun index config =>
          match stockPrices !! PortfolioConfig.ticker config with
          | Some stockData => live_investment config index stockData
          | None => getFallbackInvestment config index
          end)
       USER_PORTFOLIO_CONFIG.

(** The cached investments if they are fresh at [now]. *)
Definition cached_investments (P : provider) (now : Z) : option (list Investment.t) :=
  match investmentCache P with
  | Some c => if now - lastInvestmentUpdate P <? CACHE_DURATION then Some c else None
  | None => None
  end.

(** [getRealTimeInvestments()] from its [await] on: [prices] is how
    [getMultipleStockPrices] completed and [now] the time when it did. *)
Definition getRealTimeInvestments_after (P : provider) (now : Z)
    (prices : completion (gmap jsstring StockPrice.t))
  : provider * completion (list Investment.t) :=
  let body := stockPrices ← prices; Normal (build_investments stockPrices) in
  (match body with
   | Normal investments => Provider (Some investments) now
   | Throw _ => P
   end,
   try_catch body (fun _ => Normal getFallbackInvestments)).

(** [getRealTimeInvestments()] called at the instant [t], with the service
    in the state [st]: the provider, the service and the time afterwards,
    and the result. *)
Definition getRealTimeInvestments (E : StockDataService.env) (t : Z) (P : provider)
    (st : StockDataService.state)
  : provider * StockDataService.state * Z * completion (list Investment.t) :=
  match cached_investments P t with
  | Some c => (P, st, t, Normal c)
  | None =>
      let symbols := List.map PortfolioConfig.ticker USER_PORTFOLIO_CONFIG in
      let r := StockDataService.getMultipleStockPrices E symbols t st in
      let '(P', result) :=
        getRealTimeInvestments_after P (StockDataService.r_time r)
          (Normal (StockDataService.r_results r)) in
      (P', StockDataService.r_state r, StockDataService.r_time r, result)
  end.

(** The body of the [try] of [getRealTimePortfolioData], from the
    investments on; [random i] is the [i]-th value of [Math.random()]. *)
Definition portfolio_series (investments : list Investment.t) (random : nat -> float)
  : Series.t :=
  let totalCurrentValue := JS.sum (List.map Investment.currentValue investments) in
  let totalPurchaseValue := JS.sum (List.map Investment.purchaseValue investments) in
  let currentPerformance :=
    ((totalCurrentValue - totalPurchaseValue) / totalPurchaseValue * 100)%float in
  let baseValue := 100%float in
  {| Series.data :=
       List.map
         (fun i =>
            let variation := ((random i - 0.5) * 10)%float in
            let value :=
              (baseValue + currentPerformance * number_of_nat (i + 1) / 6 + variation)%float in
            Math_max 50 (Math_min 150 value))
         (seq 0 6);
     Series.labels := months |}.

(** [getRealTimePortfolioData()], given how [getRealTimeInvestments]
    completed. *)
Definition getRealTimePortfolioData_after (investments : completion (list Investment.t))
    (random : nat -> float) : completion Series.t :=
  try_catch
    (invs ← investments; Normal (portfolio_series invs random))
    (fun _ => Normal fallback_portfolio).

Definition getRealTimePortfolioData (E : StockDataService.env) (t : Z) (P : provider)
    (st : StockDataService.state) (random : nat -> float)
  : provider * StockDataService.state * Z * completion Series.t :=
  let '(P', st', t', investments) := getRealTimeInvestments E t P st in
  (P', st', t', getRealTimePortfolioData_after investments random).

(** The lines of the answer that are insights. *)
Definition parse_insights (response : jsstring) : list jsstring :=
  take 3
    (List.filter (fun insight => negb (length insight =? 0)%nat)
       (List.map (fun line => trim (replace_ false bulletRe line))
          (List.filter
             (fun line => startsWith [bullet] (trim line) || startsWith [45%N] (trim line))
             (split 10%N response)))).

(** [getMarketInsights()], given how [chatbotApi.sendQuery] completed. *)
Definition getMarketInsights (response : completion jsstring) : completion (list jsstring) :=
  try_catch
    (r ← response;
     let insights := parse_insights r in
     if (0 <? length insights)%nat then Normal insights else Normal getFallbackInsights)
    (fun _ => Normal getFallbackInsights).

(** The body of the [try] of [getRealTimeExchangeRates], from the answer on. *)
Definition exchange_series (response : jsstring) (random : nat -> float) : Series.t :=
  let rateMatch := match_ false rateRe response in
  let currentRate := match rateMatch with
                     | Some m => parseFloat (group m 1)
                     | None => 83.5%float
                     end in
  {| Series.data :=
       List.map
         (fun i =>
            let variation := ((random i - 0.5) * 2)%float in
            let rate := (currentRate + variation)%float in
            toFixed2 rate)
         (seq 0 7);
     Series.labels := List.map (fun i => lit "Day " ++ nat_toString (i + 1)) (seq 0 7) |}.

(** [getRealTimeExchangeRates()], given how [chatbotApi.sendQuery] completed. *)
Definition getRealTimeExchangeRates (response : completion jsstring)
    (random : nat -> float) : completion Series.t :=
  try_catch
    (r ← response; Normal (exchange_series r random))
    (fun _ => Normal fallback_exchange_rates).

(** *** The fallback table *)

(** The five positions of the fallback table, as the specification lists
    them. *)
Definition fallback_table : list Investment.t :=
  [ Investment.Build (lit "1") (lit "AAPL") (lit "Apple Inc.")
      175.23 2.45 1.42 (lit "stock") (175.23 * 100) 15000 100;
    Investment.Build (lit "2") (lit "GOOGL") (lit "Alphabet Inc.")
      2847.56 (-15.23) (-0.53) (lit "stock") (2847.56 * 10) 30000 10;
    Investment.Build (lit "3") (lit "MSFT") (lit "Microsoft Corporation")
      331.78 4.12 1.26 (lit "stock") (331.78 * 50) 15000 50;
    Investment.Build (lit "4") (lit "TSLA") (lit "Tesla Inc.")
      248.50 (-3.20) (-1.27) (lit "stock") (248.50 * 25) 12000 25;
    Investment.Build (lit "5") (lit "NVDA") (lit "NVIDIA Corporation")
      875.30 12.45 1.44 (lit "stock") (875.30 * 30) 18000 30 ]%float.

(** *** Refreshing, and what the answers are read for *)

(** The tickers of the configuration. *)
Definition tickers : list jsstring :=
  List.map PortfolioConfig.ticker USER_PORTFOLIO_CONFIG.

(** [refreshAllData()] up to its first [await], called at the instant [t]:
    the cache of the provider is dropped, the cache of the service is
    cleared, [getRealTimeInvestments] finds no investments cached and
    [getMultipleStockPrices] makes the calls of its first batch. *)
Definition refreshAllData_start (t : Z) (st : StockDataService.state)
  : provider * StockDataService.state * list StockDataService.call_outcome :=
  let P := Provider None 0 in
  let st := StockDataService.clearCache st in
  match cached_investments P t with
  | Some _ => (P, st, [])
  | None =>
      let '(st', outs) := StockDataService.call_all t (StockDataService.batch_at tickers 0) st in
      (P, st', outs)
  end.

(** A list of positions that follows the configuration: one position for
    each entry, in order, numbered from 1, a stock with the ticker, the
    quantity and the purchase value of the entry. *)
Definition configured (investments : list Investment.t) : Prop :=
  Forall2 (fun inv config =>
             Investment.ticker inv = PortfolioConfig.ticker config
             /\ Investment.quantity inv = PortfolioConfig.quantity config
             /\ Investment.purchaseValue inv = PortfolioConfig.purchaseValue config
             /\ Investment.type inv = lit "stock")
    investments USER_PORTFOLIO_CONFIG
  /\ List.map Investment.id investments = [lit "1"; lit "2"; lit "3"; lit "4"; lit "5"].

(** What an insight is made of a line: the bullet at the very start of the
    line is taken off. *)
Definition is_bullet (c : N) : bool := ((c =? bullet) || (c =? 45))%N.

Definition insight_of (line : jsstring) : jsstring :=
  match line with
  | c :: text => if is_bullet c then trim text else trim line
  | [] => []
  end.

(** The lines [parse_insights] keeps. *)
Definition bullet_line (line : jsstring) : bool :=
  startsWith [bullet] (trim line) || startsWith [45%N] (trim line).

End Provider.

(** A backend that cannot be reached: every request fails. *)
Definition unreachable : StockDataService.env :=
  {| StockDataService.net_of := fun _ =>
       StockDataService.NetFailure (lit "TypeError: Network request failed");
     StockDataService.latency := fun _ => 30%N;
     StockDataService.timer_late := fun _ => 0%N;
     StockDataService.iso_of := fun _ => lit "2024-01-15T09:30:00.000Z" |}.

End RealTimeDataProvider.

(** ** The data context *)

Module DataContext.

Import JS.

(** Who called [refreshData]: [toggleRealTime], the polling timer, or the
    user interface. *)
Inductive caller : Type := ByToggle | ByTimer | ByUser.

(** The data a refresh loads. *)
Record loaded : Type := Loaded {
  l_investments : list Investment.t;
  l_portfolio : Series.t;
  l_exchangeRates : Series.t;
  l_insights : list jsstring;
  l_time : Z;
}.

(** How a call of [refreshData] that reached [await testApiConnection()]
    ends: the backend answers and the data is loaded, or it does not answer,
    or an awaited call throws. *)
Inductive refresh_outcome : Type :=
| Refreshed (d : loaded)
| Unavailable
| Failed.

(** The state of the [DataProvider] component as of its last render, with
    whether the polling timer of its effect is set, how many calls of
    [refreshData] are suspended at an [await], and the calls of
    [refreshData] so far. *)
Record state : Type := State {
  investments : list Investment.t;
  portfolioData : Series.t;
  exchangeRateData : Series.t;
  marketInsights : list jsstring;
  isLoading : bool;
  isRealTimeEnabled : bool;
  lastUpdated : option Z;
  error : option jsstring;
  interval : bool;
  suspended : nat;
  refreshes : list caller;
}.

(** The component as its first render leaves it: the initial values of
    [useState], and the timer set by the effect.  The call of
    [loadInitialData] that the mount effect makes is in [mounting] below. *)
Definition mounted : state :=
  State [] RealTimeDataProvider.fallback_portfolio
    RealTimeDataProvider.fallback_exchange_rates
    RealTimeDataProvider.getFallbackInsights
    false true None None true 0 [].

Definition set_isLoading (b : bool) (s : state) : state :=
  State (investments s) (portfolioData s) (exchangeRateData s) (marketInsights s)
    b (isRealTimeEnabled s) (lastUpdated s) (error s) (interval s) (suspended s)
    (refreshes s).

Definition set_isRealTimeEnabled (b : bool) (s : state) : state :=
  State (investments s) (portfolioData s) (exchangeRateData s) (marketInsights s)
    (isLoading s) b (lastUpdated s) (error s) (interval s) (suspended s) (refreshes s).

Definition set_error (e : option jsstring) (s : state) : state :=
  State (investments s) (portfolioData s) (exchangeRateData s) (marketInsights s)
    (isLoading s) (isRealTimeEnabled s) (lastUpdated s) e (interval s) (suspended s)
    (refreshes s).

Definition set_suspended (n : nat) (s : state) : state :=
  State (investments s) (portfolioData s) (exchangeRateData s) (marketInsights s)
    (isLoading s) (isRealTimeEnabled s) (lastUpdated s) (error s) (interval s) n
    (refreshes s).

Definition set_loaded (d : loaded) (s : state) : state :=
  State (l_investments d) (l_portfolio d) (l_exchangeRates d) (l_insights d)
    (isLoading s) (isRealTimeEnabled s) (Some (l_time d)) (error s) (interval s)
    (suspended s) (refreshes s).

Definition record_call (who : caller) (s : state) : state :=
  State (investments s) (portfolioData s) (exchangeRateData s) (marketInsights s)
    (isLoading s) (isRealTimeEnabled s) (lastUpdated s) (error s) (interval s)
    (suspended s) (refreshes s ++ [who]).

(** [refreshData()] up to its first [await].  The function reads the state
    of the render it was created in, [c], and its updates go to the next
    state, [s].  When real time is off in [c] the [try] block does nothing
    and [finally] runs at once. *)
Definition refreshData (who : caller) (c s : state) : state :=
  let s := record_call who s in
  if isLoading c then s
  else
    let s := set_error None (set_isLoading true s) in
    if isRealTimeEnabled c then set_suspended (S (suspended s)) s
    else set_isLoading false s.

(** [toggleRealTime()] *)
Definition toggleRealTime (c : state) : state :=
  let s := set_error None (set_isRealTimeEnabled (negb (isRealTimeEnabled c)) c) in
  if negb (isRealTimeEnabled c) then refreshData ByToggle c s else s.

(** A suspended call of [refreshData] runs to its end. *)
Definition refresh_settles (o : refresh_outcome) (s : state) : state :=
  let s := set_suspended (pred (suspended s)) s in
  set_isLoading false
    match o with
    | Refreshed d => set_error None (set_loaded d s)
    | Unavailable =>
        set_isRealTimeEnabled false
          (set_error (Some (lit "Backend unavailable. Using cached data.")) s)
    | Failed => set_error (Some (lit "Failed to refresh data. Please try again.")) s
    end.

(** The auto-refresh effect after a render: its clean-up clears the timer,
    and the timer is set again only when real time is on. *)
Definition commit (s : state) : state :=
  State (investments s) (portfolioData s) (exchangeRateData s) (marketInsights s)
    (isLoading s) (isRealTimeEnabled s) (lastUpdated s) (error s)
    (isRealTimeEnabled s) (suspended s) (refreshes s).

(** What can happen to the component. *)
Inductive event : Type :=
| Toggle
| Tick
| UserRefresh
| ClearError
| Settled (o : refresh_outcome).

(** One event and the render that follows it; [None] when the event cannot
    happen: the timer fires only while it is set, and a refresh settles only
    while one is suspended. *)
Definition step (c : state) (e : event) : option state :=
  match e with
  | Toggle => Some (commit (toggleRealTime c))
  | Tick =>
      if interval c then
        Some (commit (if isLoading c then c else refreshData ByTimer c c))
      else None
  | UserRefresh => Some (commit (refreshData ByUser c c))
  | ClearError => Some (commit (set_error None c))
  | Settled o =>
      match suspended c with
      | O => None
      | S _ => Some (commit (refresh_settles o c))
      end
  end.

(** A sequence of events, those that cannot happen left out. *)
Definition run (evs : list event) (c : state) : state :=
  fold_left (fun c e => default c (step c e)) evs c.

(** The events that are neither a toggle nor a refresh asked by the user. *)
Definition passive (e : event) : bool :=
  match e with
  | Tick | ClearError | Settled _ => true
  | Toggle | UserRefresh => false
  end.

(** *** The derived aggregates of the hooks *)

Record investment_totals : Type := {
  totalValue : float;
  totalPurchaseValue : float;
  totalGainLoss : float;
  totalGainLossPercent : float;
}.

(** The aggregates of [useInvestments()] over the investments of the context. *)
Definition useInvestments (investments : list Investment.t) : investment_totals :=
  let totalValue := JS.sum (List.map Investment.currentValue investments) in
  let totalPurchaseValue := JS.sum (List.map Investment.purchaseValue investments) in
  let totalGainLoss := (totalValue - totalPurchaseValue)%float in
  let totalGainLossPercent :=
    if (0 <? totalPurchaseValue)%float
    then (totalGainLoss / totalPurchaseValue * 100)%float
    else 0%float in
  Build_investment_totals totalValue totalPurchaseValue totalGainLoss totalGainLossPercent.

(** [xs[i] || 0]: an index outside of the array gives [undefined]. *)
Definition element_or_zero (xs : list float) (i : Z) : float :=
  match (if i <? 0 then None else xs !! Z.to_nat i) with
  | Some x => if truthy x then x else 0%float
  | None => 0%float
  end.

Record portfolio_change : Type := {
  currentValue : float;
  change : float;
  changePercent : float;
}.

(** The aggregates of [usePortfolio()] over the portfolio data of the context. *)
Definition usePortfolio (portfolioData : Series.t) : portfolio_change :=
  let xs := Series.data portfolioData in
  let currentValue := element_or_zero xs (Z.of_nat (length xs) - 1) in
  let previousValue := element_or_zero xs (Z.of_nat (length xs) - 2) in
  let change := (currentValue - previousValue)%float in
  let changePercent :=
    if (0 <? previousValue)%float then (change / previousValue * 100)%float
    else 0%float in
  Build_portfolio_change currentValue change changePercent.

(** The second-to-last point of a series, if it has one. *)
Definition second_to_last (xs : list float) : option float :=
  match length xs with
  | S (S n) => xs !! n
  | _ => None
  end.

(** *** What is shown, and the refresh in progress *)

(** What the component shows of the data. *)
Definition shown (s : state)
  : list Investment.t * Series.t * Series.t * list jsstring * option Z :=
  (investments s, portfolioData s, exchangeRateData s, marketInsights s, lastUpdated s).

(** A refresh is suspended only while the component is loading, and never
    more than one. *)
Definition one_refresh (s : state) : Prop :=
  (suspended s <= 1)%nat /\ (suspended s = 1%nat -> isLoading s = true).

(** *** The mount effect *)

Section Mount.

Context `{host : Host}.

(** Where [loadInitialData] waits: at the race between
    [isRealTimeDataAvailable()] and the timer of ten seconds, or at the
    [Promise.all] of [loadRealTimeData]. *)
Inductive load_phase : Type := Checking | LoadingRealTime.

(** The component together with the call of [loadInitialData] that its
    mount effect made: [initialLoad] says where that call waits, and is
    [None] once it has ended. *)
Record component : Type := Component {
  view : state;
  initialLoad : option load_phase;
}.

Definition set_investments (investments : list Investment.t) (now : Z) (s : state) : state :=
  State investments (portfolioData s) (exchangeRateData s) (marketInsights s)
    (isLoading s) (isRealTimeEnabled s) (Some now) (error s) (interval s) (suspended s)
    (refreshes s).

(** [loadFallbackData()]; [now] is [new Date()]. *)
Definition loadFallbackData (now : Z) (s : state) : state :=
  set_investments RealTimeDataProvider.getFallbackInvestments now s.

(** The two messages of [loadInitialData]; each starts with the four
    characters that the source file holds before its text. *)
Definition unavailable_message : jsstring :=
  [240; 376; 8220; 161]%N ++ lit " Real-time data unavailable. Using offline data.".

Definition failed_message : jsstring :=
  [240; 376; 8221; 8222]%N ++ lit " Connection failed. Using offline data.".

(** The [catch] and the [finally] of [loadInitialData]. *)
Definition initial_load_fails (now : Z) (s : state) : state :=
  set_isLoading false (loadFallbackData now (set_error (Some failed_message) s)).

(** The component after its first render and the effects of that render,
    rendered again: [loadInitialData] has set [isLoading] and waits for the
    race, and the timer is set. *)
Definition mounting : component :=
  Component (commit (set_error None (set_isLoading true mounted))) (Some Checking).

(** What can happen to the component and to the call of [loadInitialData]:
    an event of the component; the race settles, with [true] or [false] or
    rejected; the [Promise.all] of [loadRealTimeData] settles. *)
Inductive lifecycle_event : Type :=
| Happens (e : event)
| Checked (isAvailable : completion bool) (now : Z)
| RealTimeLoaded (d : completion loaded) (now : Z).

(** One event and the render that follows it.  [loadInitialData] reads
    [isRealTimeEnabled] of the first render, which is [true]. *)
Definition lifecycle_step (s : component) (e : lifecycle_event) : option component :=
  match e with
  | Happens e => (fun v => Component v (initialLoad s)) <$> step (view s) e
  | Checked isAvailable now =>
      match initialLoad s with
      | Some Checking =>
          match isAvailable with
          | Normal true => Some (Component (view s) (Some LoadingRealTime))
          | Normal false =>
              Some (Component
                      (commit (set_isLoading false
                                 (set_error (Some unavailable_message)
                                    (loadFallbackData now (view s)))))
                      None)
          | Throw _ => Some (Component (commit (initial_load_fails now (view s))) None)
          end
      | _ => None
      end
  | RealTimeLoaded r now =>
      match initialLoad s with
      | Some LoadingRealTime =>
          match r with
          | Normal d =>
              Some (Component
                      (commit (set_isLoading false (set_error None (set_loaded d (view s)))))
                      None)
          | Throw _ =>
              Some (Component (commit (initial_load_fails now (view s))) None)
          end
      | _ => None
      end
  end.

(** A sequence of events, those that cannot happen left out. *)
Definition lifecycle_run (evs : list lifecycle_event) (s : component) : component :=
  fold_left (fun s e => default s (lifecycle_step s e)) evs s.

End Mount.

End DataContext.

(** * The properties *)

(** ** The built-in functions at known values *)

Module JSProperties.
Import JS RegExp.

Example parseFloat_decimals :
  parseFloat (lit "2850.55") = 2850.55%float
  /\ parseFloat (lit "+12.30") = 12.3%float
  /\ parseFloat (lit "0.1") = 0.1%float
  /\ parseFloat (lit "  -3.5abc") = (-3.5)%float
  /\ parseFloat (lit "5.") = 5%float
  /\ parseFloat (lit ".5e1") = 5%float
  /\ parseFloat (lit "1.2.3") = 1.2%float
  /\ parseFloat (lit "-0") = neg_zero.
Proof. repeat split; vm_compute; reflexivity. Qed.

Example parseFloat_not_a_number :
  parseFloat (lit "") = nan /\ parseFloat (lit ".") = nan
  /\ parseFloat (lit "abc") = nan /\ parseFloat (lit "+") = nan.
Proof. repeat split; vm_compute; reflexivity. Qed.

(** Ties go to the even mantissa, the subnormal numbers are reached, and
    the range overflows to infinity. *)
Example parseFloat_rounding :
  parseFloat (lit "9007199254740993") = 9007199254740992%float
  /\ parseFloat (lit "9007199254740995") = 9007199254740996%float
  /\ parseFloat (lit "5e-324") = 5e-324%float
  /\ parseFloat (lit "2e-324") = 0%float
  /\ parseFloat (lit "2.2250738585072011e-308") = 2.2250738585072011e-308%float
  /\ parseFloat (lit "1.7976931348623157e308") = 1.7976931348623157e308%float
  /\ parseFloat (lit "1.7976931348623159e308") = infinity
  /\ parseFloat (lit "-Infinity") = neg_infinity.
Proof. repeat split; vm_compute; reflexivity. Qed.

Example parseInt_values :
  parseInt (lit "1234567") = 1234567%float
  /\ parseInt (lit " 42px") = 42%float
  /\ parseInt (lit "0x1F") = 31%float
  /\ parseInt (lit "-7") = (-7)%float
  /\ parseInt (lit "") = nan.
Proof. repeat split; vm_compute; reflexivity. Qed.

Example toFixed2_values :
  toFixed2 2.345 = 2.35%float
  /\ toFixed2 1.005 = 1%float
  /\ toFixed2 0.125 = 0.13%float
  /\ toFixed2 34.206599999999995 = 34.21%float
  /\ toFixed2 (-0.001) = neg_zero
  /\ toFixed2 (-2.5) = (-2.5)%float
  /\ toFixed2 1e21 = 1e21%float
  /\ toFixed2 nan = nan
  /\ toFixed2 infinity = infinity.
Proof. repeat split; vm_compute; reflexivity. Qed.

Example Math_min_max_values :
  Math_max 50 (Math_min 150 172.5) = 150%float
  /\ Math_max 50 (Math_min 150 12) = 50%float
  /\ Math_max 50 (Math_min 150 nan) = nan
  /\ Math_min 0 neg_zero = neg_zero
  /\ Math_max neg_zero 0 = 0%float.
Proof. repeat split; vm_compute; reflexivity. Qed.

Example string_functions :
  split 10%N (lit "a") = [lit "a"]
  /\ split 10%N [97; 10; 10; 98; 10]%N = [lit "a"; []; lit "b"; []]
  /\ trim ([9; 32; 160]%N ++ lit "a b" ++ [10; 8233]%N) = lit "a b"
  /\ startsWith (lit "-") (lit "- x") = true
  /\ remove_all 44%N (lit "1,234,567") = lit "1234567"
  /\ nat_toString 12 = lit "12".
Proof. repeat split; vm_compute; reflexivity. Qed.

(** A lazy quantifier stops at the first rupee sign that an amount follows,
    the flag [i] ignores the case of the ASCII letters, and [.] does not
    cross a line terminator. *)
Example match_price :
  (match_ true StockDataService.priceRe
     (lit "xx cURRENT price " ++ [rupee] ++ lit "zz" ++ [rupee] ++ lit ",12.5.6"))
    ≫= (fun m => m !! 1%nat) = Some (lit ",12.5")
  /\ match_ true StockDataService.priceRe
       (lit "Current Price " ++ [10%N; rupee] ++ lit "12") = None
  /\ match_ false StockDataService.priceRe
       (lit "current price " ++ [rupee] ++ lit "12") = None.
Proof. repeat split; vm_compute; reflexivity. Qed.

(** The bullet is cut off only at the very start of a line. *)
Example replace_bullet :
  replace_ false RealTimeDataProvider.bulletRe ([bullet] ++ lit "  Markets up")
  = lit "Markets up"
  /\ replace_ false RealTimeDataProvider.bulletRe (lit " - Markets up")
     = lit " - Markets up".
Proof. repeat split; vm_compute; reflexivity. Qed.

End JSProperties.

(** ** The matcher and the language of a pattern *)

Module RegExpProperties.
Import JS RegExp.

Local Open Scope nat_scope.

(** *** The matcher decides the language *)

Lemma is_Some_orelse a b : is_Some (orelse a b) <-> is_Some a \/ is_Some b.
Proof.
  destruct a as [x|]; cbn.
  - split; [intros _; left; eauto | intros _; eauto].
  - split; [intros H; right; exact H | intros [H|H]; [destruct H; discriminate | exact H]].
Qed.

(** A matcher that decides a language does not look at the captures. *)
Lemma decides_blind m L k : decides m L -> blind k -> blind (fun st => m st k).
Proof.
  intros Hm Hk st1 st2 Hp Hr H. apply (Hm _ _ Hk) in H. apply (Hm _ _ Hk).
  rewrite <- Hp, <- Hr. exact H.
Qed.

Lemma one_decides p :
  decides (one p) (fun _ w => exists c, w = [c] /\ p c = true).
Proof.
  intros st k Hk. unfold one. split.
  - destruct (rest st) as [|c r] eqn:Hr; [intros []; discriminate|].
    destruct (p c) eqn:Hc; [|intros []; discriminate].
    intros H. exists [c], r, (caps st). repeat split; eauto.
    cbn. replace (pos st + 1) with (S (pos st)) by lia. exact H.
  - intros (w & r & c' & Hr & (c & -> & Hc) & H). rewrite Hr. cbn. rewrite Hc.
    revert H. apply Hk; cbn; [lia | reflexivity].
Qed.

(** The loop of a repetition, for a body whose matcher decides its
    language. *)
Section Star.

Variables (ignoreCase greedy : bool) (r : regex).

Hypothesis body : decides (compile ignoreCase r) (matches ignoreCase r).

Lemma star_loop_blind k n :
  blind k -> blind (fun st => star_loop greedy (compile ignoreCase r) n st k).
Proof.
  intros Hk. induction n as [|n IH]; [exact Hk|].
  intros st1 st2 Hp Hr. cbn. rewrite Hp.
  set (K := fun st' =>
              if pos st2 <? pos st'
              then star_loop greedy (compile ignoreCase r) n st' k else None).
  assert (HK : blind K).
  { intros a b Hpa Hra. unfold K. rewrite Hpa. destruct (pos st2 <? pos b); [|intros H; exact H].
    apply IH; assumption. }
  pose proof (decides_blind _ _ K body HK st1 st2 Hp Hr) as Hm. cbn in Hm.
  destruct greedy; rewrite !is_Some_orelse; intros [H|H]; eauto.
Qed.

Lemma star_loop_sound k n st :
  blind k ->
  is_Some (star_loop greedy (compile ignoreCase r) n st k) ->
  exists w rest' c', rest st = w ++ rest' /\
    matches ignoreCase (Star greedy r) (pos st) w /\
    is_Some (k (MState (pos st + length w) rest' c')).
Proof.
  intros Hk. revert st. induction n as [|n IH]; intros st.
  - cbn. intros H. exists [], (rest st), (caps st). repeat split; [constructor|].
    revert H. apply Hk; cbn; [lia | reflexivity].
  - cbn.
    set (K := fun st' =>
                if pos st <? pos st'
                then star_loop greedy (compile ignoreCase r) n st' k else None).
    assert (HK : blind K).
    { intros a b Hpa Hra. unfold K. rewrite Hpa. destruct (pos st <? pos b); [|intros H; exact H].
      apply star_loop_blind; assumption. }
    assert (Hnow : is_Some (k st) ->
      exists w rest' c', rest st = w ++ rest' /\
        matches ignoreCase (Star greedy r) (pos st) w /\
        is_Some (k (MState (pos st + length w) rest' c'))).
    { intros H. exists [], (rest st), (caps st). repeat split; [constructor|].
      revert H. apply Hk; cbn; [lia | reflexivity]. }
    assert (Hagain : is_Some (compile ignoreCase r st K) ->
      exists w rest' c', rest st = w ++ rest' /\
        matches ignoreCase (Star greedy r) (pos st) w /\
        is_Some (k (MState (pos st + length w) rest' c'))).
    { intros H. apply (body _ _ HK) in H. destruct H as (w1 & r1 & c1 & Hr & Hw1 & H).
      unfold K in H. cbn [pos] in H.
      destruct (pos st <? pos st + length w1) eqn:Hlt; [|destruct H; discriminate].
      apply Nat.ltb_lt in Hlt.
      apply IH in H. destruct H as (w2 & r2 & c2 & Hr2 & Hw2 & H). cbn [pos rest] in *.
      exists (w1 ++ w2), r2, c2. repeat split.
      - rewrite Hr, Hr2, app_assoc. reflexivity.
      - apply matches_Star_cons; [|assumption|assumption].
        intros ->. cbn in Hlt. lia.
      - rewrite length_app, Nat.add_assoc. exact H. }
    destruct greedy; rewrite is_Some_orelse; intros [H|H]; eauto.
Qed.

(** The bound on the iterations is never what stops the loop: with more
    iterations allowed than units remain, every text of the language is
    found. *)
Lemma star_loop_complete k w :
  blind k ->
  forall i, matches ignoreCase (Star greedy r) i w ->
  forall n st rest' c',
    pos st = i -> rest st = w ++ rest' -> length (rest st) < n ->
    is_Some (k (MState (i + length w) rest' c')) ->
    is_Some (star_loop greedy (compile ignoreCase r) n st k).
Proof.
  intros Hk i Hw. remember (Star greedy r) as R eqn:HR.
  induction Hw as [| | | | | | | | g r0 i | g r0 i w1 w2 Hne Hw1 _ Hw2 IH | ];
    try discriminate; injection HR as -> ->; intros n st rest' c' Hp Hr Hn H.
  - destruct n as [|n]; [lia|]. cbn.
    assert (Hnow : is_Some (k st)).
    { revert H. apply Hk; cbn; [lia | rewrite Hr; reflexivity]. }
    destruct greedy; rewrite is_Some_orelse; eauto.
  - destruct n as [|n]; [lia|]. cbn.
    set (K := fun st' =>
                if pos st <? pos st'
                then star_loop greedy (compile ignoreCase r) n st' k else None).
    assert (HK : blind K).
    { intros a b Hpa Hra. unfold K. rewrite Hpa. destruct (pos st <? pos b); [|intros H'; exact H'].
      apply star_loop_blind; assumption. }
    assert (Hagain : is_Some (compile ignoreCase r st K)).
    { apply (body _ _ HK). exists w1, (w2 ++ rest'), c'. repeat split.
      - rewrite Hr, app_assoc. reflexivity.
      - rewrite Hp. exact Hw1.
      - unfold K. cbn [pos].
        assert (Hlen : 0 < length w1) by (destruct w1; [congruence | cbn; lia]).
        replace (pos st <? pos st + length w1) with true
          by (symmetry; apply Nat.ltb_lt; lia).
        apply (IH eq_refl n _ rest' c'); cbn [pos rest].
        + rewrite Hp. reflexivity.
        + reflexivity.
        + rewrite Hr, !length_app in Hn. rewrite length_app. lia.
        + rewrite length_app, Nat.add_assoc in H. exact H. }
    destruct greedy; rewrite is_Some_orelse; eauto.
Qed.

End Star.

(** The matcher of a pattern decides its language. *)
Theorem compile_decides ignoreCase r :
  decides (compile ignoreCase r) (matches ignoreCase r).
Proof.
  induction r as [|u| |atoms| |r1 IH1 r2 IH2|r IH|g r IH|n r IH].
  - intros st k Hk. cbn. split.
    + intros H. exists [], (rest st), (caps st). repeat split; [constructor|].
      revert H. apply Hk; cbn; [lia | reflexivity].
    + intros (w & r' & c' & Hr & Hw & H). inversion Hw; subst.
      revert H. apply Hk; cbn; [lia | rewrite Hr; reflexivity].
  - intros st k Hk. cbn [compile]. rewrite (one_decides _ st k Hk). split.
    + intros (w & r' & c' & Hr & (c & -> & Hc) & H). exists [c], r', c'.
      repeat split; [assumption | | assumption].
      constructor. apply N.eqb_eq. exact Hc.
    + intros (w & r' & c' & Hr & Hw & H). inversion Hw; subst.
      exists [c], r', c'. repeat split; [assumption | | assumption].
      exists c. split; [reflexivity | apply N.eqb_eq; assumption].
  - intros st k Hk. cbn [compile]. rewrite (one_decides _ st k Hk). split.
    + intros (w & r' & c' & Hr & (c & -> & Hc) & H). exists [c], r', c'.
      repeat split; [assumption | | assumption].
      constructor. apply negb_true_iff. exact Hc.
    + intros (w & r' & c' & Hr & Hw & H). inversion Hw; subst.
      exists [c], r', c'. repeat split; [assumption | | assumption].
      exists c. split; [reflexivity | apply negb_true_iff; assumption].
  - intros st k Hk. cbn [compile]. rewrite (one_decides _ st k Hk). split.
    + intros (w & r' & c' & Hr & (c & -> & Hc) & H). exists [c], r', c'.
      repeat split; [assumption | | assumption].
      constructor. exact Hc.
    + intros (w & r' & c' & Hr & Hw & H). inversion Hw; subst.
      exists [c], r', c'. repeat split; [assumption | | assumption].
      exists c. split; [reflexivity | assumption].
  - intros st k Hk. cbn. split.
    + destruct (pos st) eqn:Hp; [|intros []; discriminate].
      intros H. exists [], (rest st), (caps st). repeat split; [constructor|].
      revert H. apply Hk; cbn; [lia | reflexivity].
    + intros (w & r' & c' & Hr & Hw & H). inversion Hw as [| | | |Hb Hi| | | | | |]; subst.
      revert H. apply Hk; cbn; [lia | rewrite Hr; reflexivity].
  - intros st k Hk. cbn [compile].
    pose proof (decides_blind _ _ k IH2 Hk) as HK.
    rewrite (IH1 st _ HK). split.
    + intros (w1 & r1' & c1 & Hr & Hw1 & H).
      apply (IH2 _ _ Hk) in H. destruct H as (w2 & r2' & c2 & Hr2 & Hw2 & H).
      cbn [pos rest] in *. exists (w1 ++ w2), r2', c2. repeat split.
      * rewrite Hr, Hr2, app_assoc. reflexivity.
      * constructor; assumption.
      * rewrite length_app, Nat.add_assoc. exact H.
    + intros (w & r' & c' & Hr & Hw & H). inversion Hw; subst.
      exists w1, (w2 ++ r'), c'. repeat split.
      * rewrite Hr, app_assoc. reflexivity.
      * assumption.
      * apply (IH2 _ _ Hk). cbn [pos rest]. exists w2, r', c'. repeat split.
        -- assumption.
        -- rewrite length_app, Nat.add_assoc in H. exact H.
  - intros st k Hk. cbn [compile]. rewrite is_Some_orelse, (IH st k Hk). split.
    + intros [(w & r' & c' & Hr & Hw & H)|H].
      * exists w, r', c'. repeat split; [assumption | | assumption].
        apply matches_Opt_some. assumption.
      * exists [], (rest st), (caps st). repeat split; [constructor|].
        revert H. apply Hk; cbn; [lia | reflexivity].
    + intros (w & r' & c' & Hr & Hw & H). inversion Hw; subst.
      * right. revert H. apply Hk; cbn; [lia | rewrite Hr; reflexivity].
      * left. exists w, r', c'. repeat split; assumption.
  - intros st k Hk. cbn [compile]. split.
    + apply star_loop_sound; assumption.
    + intros (w & r' & c' & Hr & Hw & H).
      apply (star_loop_complete ignoreCase g r IH k w Hk (pos st) Hw _ st r' c');
        [reflexivity | assumption | lia | assumption].
  - intros st k Hk. cbn [compile].
    set (K := fun st' =>
                k (MState (pos st') (rest st')
                     (<[n := take (pos st' - pos st) (rest st)]> (caps st')))).
    assert (HK : blind K).
    { intros a b Hpa Hra. unfold K. apply Hk; cbn; assumption. }
    rewrite (IH st K HK). unfold K. cbn [pos rest]. split.
    + intros (w & r' & c' & Hr & Hw & H). exists w, r', c'.
      repeat split; [assumption | constructor; assumption |].
      revert H. apply Hk; reflexivity.
    + intros (w & r' & c' & Hr & Hw & H). inversion Hw; subst.
      exists w, r', c'. repeat split; [assumption | assumption |].
      revert H. apply Hk; reflexivity.
Qed.

(** The search from index [i] on succeeds exactly when the language has a
    text at some index from [i] on. *)
Lemma search_matches ignoreCase r s : forall i,
  is_Some (search (compile ignoreCase r) i s) <->
  exists pre w post, s = pre ++ w ++ post /\ matches ignoreCase r (i + length pre) w.
Proof.
  assert (Hk : blind Some) by (intros ? ? _ _ _; eauto).
  induction s as [|c s IH]; intros i; cbn [search].
  - destruct (compile ignoreCase r (MState i [] ∅) Some) as [st|] eqn:Hm.
    + split; [intros _ | intros _; eauto].
      assert (H : is_Some (compile ignoreCase r (MState i [] ∅) Some)) by (rewrite Hm; eauto).
      apply (compile_decides _ _ _ _ Hk) in H. destruct H as (w & r' & c' & Hr & Hw & _).
      cbn [pos rest] in *. exists [], w, r'. cbn. rewrite Nat.add_0_r. eauto.
    + split; [intros []; discriminate|].
      intros (pre & w & post & Hs & Hw).
      destruct pre; [|discriminate]. cbn in Hs, Hw. rewrite Nat.add_0_r in Hw.
      assert (H : is_Some (compile ignoreCase r (MState i [] ∅) Some)).
      { apply (compile_decides _ _ _ _ Hk). exists w, post, ∅. cbn [pos rest]. eauto. }
      rewrite Hm in H. destruct H; discriminate.
  - destruct (compile ignoreCase r (MState i (c :: s) ∅) Some) as [st|] eqn:Hm.
    + split; [intros _ | intros _; eauto].
      assert (H : is_Some (compile ignoreCase r (MState i (c :: s) ∅) Some)) by (rewrite Hm; eauto).
      apply (compile_decides _ _ _ _ Hk) in H. destruct H as (w & r' & c' & Hr & Hw & _).
      cbn [pos rest] in *. exists [], w, r'. cbn. rewrite Nat.add_0_r. eauto.
    + rewrite IH. split.
      * intros (pre & w & post & Hs & Hw). exists (c :: pre), w, post. split.
        -- cbn. rewrite Hs. reflexivity.
        -- cbn [length]. replace (i + S (length pre)) with (S i + length pre) by lia. exact Hw.
      * intros (pre & w & post & Hs & Hw). destruct pre as [|c0 pre].
        -- cbn in Hs, Hw. rewrite Nat.add_0_r in Hw.
           assert (H : is_Some (compile ignoreCase r (MState i (c :: s) ∅) Some)).
           { apply (compile_decides _ _ _ _ Hk). exists w, post, ∅. cbn [pos rest]. eauto. }
           rewrite Hm in H. destruct H; discriminate.
        -- cbn in Hs. injection Hs as <- ->. exists pre, w, post. split; [reflexivity|].
           cbn [length] in Hw. replace (S i + length pre) with (i + S (length pre)) by lia. exact Hw.
Qed.

(** [s.match(r)] is not [null] exactly when some part of [s] is in the
    language of [r]. *)
Theorem match_matches ignoreCase r s :
  is_Some (match_ ignoreCase r s) <->
  exists pre w post, s = pre ++ w ++ post /\ matches ignoreCase r (length pre) w.
Proof. apply search_matches. Qed.

(** *** The language, pattern by pattern *)

Lemma matches_Seq_iff ic r1 r2 i w :
  matches ic (Seq r1 r2) i w <->
  exists w1 w2, w = w1 ++ w2 /\ matches ic r1 i w1 /\ matches ic r2 (i + length w1) w2.
Proof.
  split.
  - intros H. inversion H; subst. eauto.
  - intros (w1 & w2 & -> & H1 & H2). by constructor.
Qed.

Lemma matches_Group_iff ic n r i w : matches ic (Group n r) i w <-> matches ic r i w.
Proof. split; [intros H; by inversion H | by constructor]. Qed.

Lemma matches_Opt_iff ic r i w : matches ic (Opt r) i w <-> w = [] \/ matches ic r i w.
Proof.
  split.
  - intros H. inversion H; subst; eauto.
  - intros [->|H]; [constructor | by apply matches_Opt_some].
Qed.

Lemma matches_Eps_iff ic i w : matches ic Eps i w <-> w = [].
Proof. split; [intros H; by inversion H | intros ->; constructor]. Qed.

Lemma single_Unit ic u : single ic (Unit u) (fun c => (canon ic u =? canon ic c)%N).
Proof.
  intros i w. split.
  - intros H. inversion H; subst. eexists. split; [done|]. by apply N.eqb_eq.
  - intros (c & -> & H). constructor. by apply N.eqb_eq.
Qed.

Lemma single_AnyChar ic : single ic AnyChar same_line.
Proof.
  intros i w. unfold same_line. split.
  - intros H. inversion H; subst. eexists. split; [done|]. by apply negb_true_iff.
  - intros (c & -> & H). constructor. by apply negb_true_iff.
Qed.

Lemma single_Class ic atoms :
  single ic (Class atoms) (fun c => existsb (fun a => atom_matches ic a c) atoms).
Proof.
  intros i w. split.
  - intros H. inversion H; subst. eauto.
  - intros (c & -> & H). by constructor.
Qed.

Lemma single_ext ic r p q : (forall c, p c = q c) -> single ic r p -> single ic r q.
Proof.
  intros E H i w. rewrite (H i w). split; intros (c & -> & Hc); exists c; split; try done.
  - by rewrite <- E.
  - by rewrite E.
Qed.

(** A repetition of a pattern for one code unit accepts the texts made of
    such units, greedy or lazy. *)
Lemma matches_Star_single ic g r p i w :
  single ic r p -> (matches ic (Star g r) i w <-> forallb p w = true).
Proof.
  intros Hr. split.
  - intros H. remember (Star g r) as R eqn:HR.
    induction H as [| | | | | | | | | g0 r0 i w1 w2 Hne Hw1 _ Hw2 IH | ]; try discriminate.
    + done.
    + injection HR as -> ->. apply Hr in Hw1. destruct Hw1 as (c & -> & Hc).
      cbn. rewrite Hc. by apply IH.
  - revert i. induction w as [|c w IH]; intros i; [constructor|].
    cbn. intros [Hc Hw]%andb_true_iff.
    apply (matches_Star_cons ic g r i [c] w); [done | apply Hr; eauto | by apply IH].
Qed.

Lemma matches_Plus_single ic r p i w :
  single ic r p -> (matches ic (Plus r) i w <-> w <> [] /\ forallb p w = true).
Proof.
  intros Hr. unfold Plus. rewrite matches_Seq_iff. split.
  - intros (w1 & w2 & -> & H1 & H2). apply Hr in H1. destruct H1 as (c & -> & Hc).
    apply (matches_Star_single _ _ _ _ _ _ Hr) in H2. cbn. by rewrite Hc, H2.
  - intros [Hne H]. destruct w as [|c w]; [done|]. cbn in H.
    apply andb_true_iff in H as [Hc Hw]. exists [c], w. split; [done|]. split.
    + apply Hr. eauto.
    + by apply (matches_Star_single _ _ _ _ _ _ Hr).
Qed.

(** A literal accepts the texts that canonicalize to it. *)
Lemma matches_Str ic s i w :
  matches ic (Str s) i w <-> map (canon ic) w = map (canon ic) s.
Proof.
  revert i w. induction s as [|u s IH]; intros i w; cbn [Str fold_right].
  - rewrite matches_Eps_iff. destruct w; cbn; split; congruence.
  - fold (Str s). rewrite matches_Seq_iff. split.
    + intros (w1 & w2 & -> & H1 & H2). apply single_Unit in H1. destruct H1 as (c & -> & Hc).
      apply IH in H2. apply N.eqb_eq in Hc. cbn. congruence.
    + destruct w as [|c w]; [done|]. cbn. intros H. injection H as Hc Hw.
      exists [c], w. split; [done|]. split.
      * apply single_Unit. exists c. split; [done|]. by apply N.eqb_eq.
      * by apply IH.
Qed.

(** A pattern unit that is not a letter matches itself only. *)
Lemma canon_not_letter ic u c :
  (u < 65 \/ 122 < u)%N -> ((canon ic u =? canon ic c)%N = (c =? u)%N).
Proof.
  intros Hu. unfold canon, upper_unit. destruct ic; [|apply N.eqb_sym].
  replace ((97 <=? u)%N && (u <=? 122)%N) with false
    by (symmetry; apply andb_false_iff; rewrite N.leb_gt, N.leb_gt; lia).
  destruct ((97 <=? c)%N && (c <=? 122)%N) eqn:E.
  - apply andb_true_iff in E as [E1%N.leb_le E2%N.leb_le].
    transitivity false; [apply N.eqb_neq | symmetry; apply N.eqb_neq]; lia.
  - apply N.eqb_sym.
Qed.

Lemma single_unit ic u : (u < 65 \/ 122 < u)%N -> single ic (Unit u) (fun c => (c =? u)%N).
Proof.
  intros Hu. eapply single_ext; [|apply single_Unit]. intros c. cbn.
  by rewrite canon_not_letter.
Qed.

Lemma matches_unit ic u i w :
  (u < 65 \/ 122 < u)%N -> (matches ic (Unit u) i w <-> w = [u]).
Proof.
  intros Hu. rewrite (single_unit ic u Hu i w). split.
  - intros (c & -> & Hc%N.eqb_eq). by subst.
  - intros ->. exists u. split; [done|]. apply N.eqb_refl.
Qed.

(** When the language of [r] is [L] at every index, [s.match(r)] is not
    [null] exactly when [s] has a part in [L]. *)
Lemma match_contains ignoreCase r (L : jsstring -> Prop) s :
  (forall i w, matches ignoreCase r i w <-> L w) ->
  (is_Some (match_ ignoreCase r s) <-> contains L s).
Proof.
  intros HL. rewrite match_matches. unfold contains.
  split; intros (pre & w & post & Hs & Hw); exists pre, w, post; (split; [done|]);
    by apply (HL (length pre)).
Qed.

Lemma match_None_contains ignoreCase r (L : jsstring -> Prop) s :
  (forall i w, matches ignoreCase r i w <-> L w) ->
  (match_ ignoreCase r s = None <-> ~ contains L s).
Proof.
  intros HL. rewrite <- (match_contains ignoreCase r L s HL).
  rewrite <- eq_None_not_Some. done.
Qed.

(** *** What a greedy repetition takes *)

Lemma leading_skip p s : leading p s ++ skip p s = s.
Proof. induction s as [|c r IH]; [done|]. cbn. destruct (p c); [by rewrite <- IH at 3 | done]. Qed.

Lemma leading_ext p q s : (forall c, p c = q c) -> leading p s = leading q s.
Proof. intros H. induction s as [|c r IH]; [done|]. cbn. by rewrite H, IH. Qed.

Lemma skip_ext p q s : (forall c, p c = q c) -> skip p s = skip q s.
Proof. intros H. induction s as [|c r IH]; [done|]. cbn. by rewrite H, IH. Qed.

Lemma skip_length p s : length (skip p s) = length s - length (leading p s).
Proof.
  rewrite <- (leading_skip p s) at 2. rewrite length_app. lia.
Qed.

Lemma skip_whitespace s : skip is_whitespace s = trimStart s.
Proof. induction s as [|c r IH]; [done|]. cbn. by rewrite IH. Qed.

Lemma state_eta st : MState (pos st) (rest st) (caps st) = st.
Proof. by destruct st. Qed.

(** A greedy repetition of a pattern for one unit, before a continuation
    that cannot fail, takes all the units it can. *)
Lemma star_greedy (p : N -> bool) (k : cont) (n : nat) (st : mstate) :
  total k -> length (rest st) < n ->
  star_loop true (one p) n st k
  = k (MState (pos st + length (leading p (rest st))) (skip p (rest st)) (caps st)).
Proof.
  intros Hk. revert st. induction n as [|n IH]; intros st Hn; [lia|].
  cbn [star_loop]. unfold one at 1.
  destruct st as [i s c]. cbn [pos rest caps] in *.
  destruct s as [|u r]; cbn [leading skip length].
  - by rewrite Nat.add_0_r.
  - destruct (p u); cbn [length].
    + replace (i <? S i) with true by (symmetry; apply Nat.ltb_lt; lia).
      rewrite IH by (cbn in *; lia). cbn [pos rest caps].
      replace (S i + length (leading p r)) with (i + S (length (leading p r))) by lia.
      by destruct (Hk (MState (i + S (length (leading p r))) (skip p r) c)) as [x ->].
    + by rewrite Nat.add_0_r.
Qed.

Lemma compile_star_class ic atoms st k :
  total k ->
  compile ic (Star true (Class atoms)) st k
  = k (MState (pos st + length (leading (fun c => existsb (fun a => atom_matches ic a c) atoms)
                                  (rest st)))
              (skip (fun c => existsb (fun a => atom_matches ic a c) atoms) (rest st))
              (caps st)).
Proof. intros Hk. cbn [compile]. apply star_greedy; [done | lia]. Qed.

Lemma total_star ic atoms k : total k -> total (fun st => compile ic (Star true (Class atoms)) st k).
Proof. intros Hk st. rewrite compile_star_class by done. apply Hk. Qed.

Lemma digit_class ic c : existsb (fun a => atom_matches ic a c) [ADigit] = is_digit c.
Proof. cbn. apply orb_false_r. Qed.

Lemma digits_star ic st k :
  total k ->
  compile ic (Star true (Class [ADigit])) st k
  = k (MState (pos st + length (leading is_digit (rest st))) (skip is_digit (rest st))
         (caps st)).
Proof.
  intros Hk. rewrite compile_star_class by done.
  by rewrite (leading_ext _ is_digit _ (digit_class ic)),
       (skip_ext _ is_digit _ (digit_class ic)).
Qed.

Lemma compile_Seq ic r1 r2 st k :
  compile ic (Seq r1 r2) st k = compile ic r1 st (fun st' => compile ic r2 st' k).
Proof. done. Qed.

Lemma compile_Opt ic r st k :
  compile ic (Opt r) st k = orelse (compile ic r st k) (k st).
Proof. done. Qed.

Lemma compile_Unit ic u st k :
  compile ic (Unit u) st k = one (fun c => (canon ic u =? canon ic c)%N) st k.
Proof. done. Qed.

Lemma compile_Class ic atoms st k :
  compile ic (Class atoms) st k
  = one (fun c => existsb (fun a => atom_matches ic a c) atoms) st k.
Proof. done. Qed.

Lemma compile_Group ic n r st k :
  compile ic (Group n r) st k
  = compile ic r st (fun st' =>
      k (MState (pos st') (rest st')
           (<[n := take (pos st' - pos st) (rest st)]> (caps st')))).
Proof. done. Qed.

Lemma compile_Bol ic st k :
  compile ic Bol st k = match pos st with O => k st | S _ => None end.
Proof. done. Qed.

Lemma drop_leading p s : drop (length (leading p s)) s = skip p s.
Proof. rewrite <- (leading_skip p s) at 2. by rewrite drop_app_length. Qed.

Lemma fraction_at ic st k :
  total k ->
  compile ic (Seq (Opt (Unit 46%N)) (Star true (Class [ADigit]))) st k
  = k (MState (pos st + length (fraction (rest st)))
         (drop (length (fraction (rest st))) (rest st)) (caps st)).
Proof.
  intros Hk. rewrite compile_Seq, compile_Opt, compile_Unit. unfold one. cbv beta.
  rewrite !digits_star by done.
  destruct st as [i s c]. cbn [pos rest caps].
  destruct s as [|u r]; [done|].
  rewrite canon_not_letter by lia. unfold fraction. destruct (u =? 46)%N eqn:Hu.
  - rewrite digits_star by done. cbn [pos rest caps length drop].
    replace (S i + length (leading is_digit r)) with (i + S (length (leading is_digit r)))
      by lia.
    rewrite drop_leading.
    by destruct (Hk (MState (i + S (length (leading is_digit r))) (skip is_digit r) c))
      as [x ->].
  - cbn [orelse]. by rewrite drop_leading.
Qed.

Lemma digits_plus st k :
  total k ->
  compile false (Plus (Class [ADigit])) st k
  = match rest st with
    | c :: _ =>
        if is_digit c
        then k (MState (pos st + length (leading is_digit (rest st)))
                  (skip is_digit (rest st)) (caps st))
        else None
    | [] => None
    end.
Proof.
  intros Hk. unfold Plus. rewrite compile_Seq, compile_Class. unfold one. cbv beta.
  destruct st as [i s c]. cbn [pos rest caps].
  destruct s as [|u r]; [done|]. rewrite digit_class.
  destruct (is_digit u) eqn:Hu; [|done].
  rewrite digits_star by done. cbn [pos rest caps leading skip length]. rewrite Hu.
  cbn [length]. by replace (S i + length (leading is_digit r))
    with (i + S (length (leading is_digit r))) by lia.
Qed.

Lemma fraction_after_digits s :
  fraction (skip is_digit s)
  = match skip is_digit s with
    | c :: r => if (c =? 46)%N then c :: leading is_digit r else []
    | [] => []
    end.
Proof.
  unfold fraction. destruct (skip is_digit s) as [|c r] eqn:Hs; [done|].
  destruct (c =? 46)%N; [done|].
  assert (Hc : is_digit c = false).
  { clear -Hs. induction s as [|x s IH]; [done|]. cbn in Hs.
    destruct (is_digit x) eqn:Hx; [by apply IH | congruence]. }
  cbn. by rewrite Hc.
Qed.

Lemma number_prefix_fraction s :
  number_prefix s = leading is_digit s ++ fraction (skip is_digit s).
Proof. unfold number_prefix. by rewrite fraction_after_digits. Qed.

Lemma fraction_take s : take (length (fraction s)) s = fraction s.
Proof.
  unfold fraction. destruct s as [|u tl]; [done|]. destruct (u =? 46)%N.
  - cbn [length take]. f_equal. rewrite <- (leading_skip is_digit tl) at 2.
    by rewrite take_app_length.
  - rewrite <- (leading_skip is_digit (u :: tl)) at 2. by rewrite take_app_length.
Qed.

Lemma number_prefix_split s :
  s = number_prefix s ++ drop (length (fraction (skip is_digit s))) (skip is_digit s).
Proof.
  rewrite number_prefix_fraction, <- app_assoc.
  rewrite <- (leading_skip is_digit s) at 1. f_equal.
  rewrite <- (take_drop (length (fraction (skip is_digit s))) (skip is_digit s)) at 1.
  by rewrite fraction_take.
Qed.

Lemma take_prefix {A} (a tl s : list A) : s = a ++ tl -> take (length a) s = a.
Proof. intros ->. apply take_app_length. Qed.

Lemma drop_prefix {A} (a tl s : list A) : s = a ++ tl -> drop (length a) s = tl.
Proof. intros ->. apply drop_app_length. Qed.

(** *** What a lazy repetition finds *)

Lemma compile_Str (label : jsstring) (st : mstate) (k : cont) :
  compile true (Str label) st k
  = match after_label label (rest st) with
    | Some r => k (MState (pos st + length label) r (caps st))
    | None => None
    end.
Proof.
  revert st. induction label as [|u label IH]; intros [i s c]; cbn [pos rest caps].
  - cbn. by rewrite Nat.add_0_r.
  - change (Str (u :: label)) with (Seq (Unit u) (Str label)).
    rewrite compile_Seq, compile_Unit. unfold one. cbn [rest pos caps after_label].
    destruct s as [|x r]; [done|]. unfold canon.
    destruct (upper_unit u =? upper_unit x)%N; [|done].
    rewrite IH. cbn [pos rest caps length].
    by replace (S i + length label)%nat with (i + S (length label))%nat by lia.
Qed.

(** A lazy repetition of [.] stops at the first place of the line where the
    continuation succeeds. *)
Lemma lazy_scan (g : nat) (t : jsstring -> option jsstring) (k : cont) :
  (forall j r c, captured g (k (MState j r c)) = t r) ->
  forall n j r c, (length r < n)%nat ->
  captured g (star_loop false (compile true AnyChar) n (MState j r c) k) = on_line t r.
Proof.
  intros Hk. induction n as [|n IH]; intros j r c Hn; [lia|].
  cbn [star_loop]. specialize (Hk j r c).
  destruct (k (MState j r c)) as [st|] eqn:Ek.
  - cbn [orelse]. destruct r; cbn [on_line]; by rewrite <- Hk.
  - cbn [orelse]. cbn [compile]. unfold one. cbn [rest pos caps].
    destruct r as [|x r]; cbn [on_line]; rewrite <- Hk; cbn [captured fmap option_fmap option_map].
    + done.
    + unfold same_line. destruct (negb (is_line_terminator x)); [|done].
      replace (j <? S j)%nat with true by (symmetry; apply Nat.ltb_lt; lia).
      apply IH. cbn in Hn. lia.
Qed.

(** A label, lazily the units of the line, and a tail that reads as [t]. *)
Lemma labelled_at (g : nat) (label : jsstring) (tail : regex)
    (t : jsstring -> option jsstring) :
  (forall j r c, captured g (compile true tail (MState j r c) Some) = t r) ->
  forall i s c,
    captured g (compile true (Seq (Str label) (Seq (Star false AnyChar) tail))
                  (MState i s c) Some)
    = after_label label s ≫= on_line t.
Proof.
  intros Ht i s c. rewrite compile_Seq, compile_Str. cbn [pos rest caps].
  destruct (after_label label s) as [r|]; [|done].
  cbn [mbind option_bind]. rewrite compile_Seq.
  change (compile true (Star false AnyChar)) with
    (fun st k => star_loop false (compile true AnyChar) (S (length (rest st))) st k).
  cbv beta. cbn [rest]. apply lazy_scan; [|lia]. intros j r' c'. apply Ht.
Qed.

(** The search through the indexes finds the first place where the pattern
    reads something. *)
Lemma search_first (g : nat) (m : matcher) (t : jsstring -> option jsstring) :
  g <> O ->
  (forall i s, captured g (m (MState i s ∅) Some) = t s) ->
  forall i s,
    (fun caps => group caps g) <$> search m i s
    = (fix first (s : jsstring) : option jsstring :=
         match t s with
         | Some a => Some a
         | None => match s with _ :: r => first r | [] => None end
         end) s.
Proof.
  intros Hg Ht i s. revert i. induction s as [|x r IH]; intros i; cbn [search];
    rewrite <- (Ht i); destruct (m (MState i _ ∅) Some) as [st|];
    cbn [captured fmap option_fmap option_map];
    try (unfold group; by rewrite lookup_insert_ne); try done; apply IH.
Qed.

Lemma match_first_labelled (g : nat) (label : jsstring) (tail : regex)
    (t : jsstring -> option jsstring) (s : jsstring) :
  g <> O ->
  (forall j r c, captured g (compile true tail (MState j r c) Some) = t r) ->
  (fun caps => group caps g) <$> match_ true (Seq (Str label) (Seq (Star false AnyChar) tail)) s
  = first_labelled label t s.
Proof.
  intros Hg Ht. unfold match_.
  rewrite (search_first g _ (fun s => after_label label s ≫= on_line t) Hg).
  - induction s as [|x r IH]; cbn [first_labelled]; [done|]. by rewrite IH.
  - intros i s'. by apply labelled_at.
Qed.


(** One or more units of a class, greedily, before a continuation that
    cannot fail. *)
Lemma class_plus ic atoms (p : N -> bool) st k :
  (forall c, existsb (fun a => atom_matches ic a c) atoms = p c) ->
  total k ->
  compile ic (Plus (Class atoms)) st k
  = match rest st with
    | c :: _ =>
        if p c
        then k (MState (pos st + length (leading p (rest st))) (skip p (rest st)) (caps st))
        else None
    | [] => None
    end.
Proof.
  intros Hp Hk. unfold Plus. rewrite compile_Seq, compile_Class. unfold one. cbv beta.
  destruct st as [i s c]. cbn [pos rest caps].
  destruct s as [|u r]; [done|]. rewrite Hp.
  destruct (p u) eqn:Hu; [|done].
  rewrite compile_star_class by done. cbn [pos rest caps leading skip length]. rewrite Hu.
  cbn [length].
  rewrite (leading_ext _ p _ Hp), (skip_ext _ p _ Hp).
  by replace (S i + length (leading p r))%nat with (i + S (length (leading p r)))%nat by lia.
Qed.

End RegExpProperties.

(** ** The configuration of the API *)

Module ApiConfigProperties.
Import JS ApiConfig.

Lemma backoff_S k : backoff (S k) = backoff k ++ [RETRY_DELAY * Z.of_nat (S k)].
Proof. unfold backoff. by rewrite seq_S, map_app. Qed.

Lemma backoff_sum k : fold_right Z.add 0 (backoff k) = 500 * Z.of_nat k * (Z.of_nat k + 1).
Proof.
  induction k as [|k IH]; [done|].
  rewrite backoff_S, fold_right_app. cbn [fold_right].
  assert (H : forall l a, fold_right Z.add a l = a + fold_right Z.add 0 l).
  { induction l as [|x l IHl]; intros a; cbn; [lia|]. rewrite IHl. lia. }
  rewrite H, IH. unfold RETRY_DELAY. lia.
Qed.

(** The loop from the attempt [n + 1] on, after [n] failed calls. *)
Lemma retry_loop_success {A} (request : nat -> completion A) maxAttempts k a :
  Z.of_nat k < maxAttempts ->
  (forall j, (j < k)%nat -> error_of (request j) <> None) ->
  request k = Normal a ->
  forall d fuel n lastError,
    (n + d = k)%nat -> (d < fuel)%nat ->
    retry_loop request maxAttempts fuel (Z.of_nat (S n)) lastError n (backoff n)
    = Some (RetryRun (Resolved a) (S k) (backoff k)).
Proof.
  intros Hk Hfail Hok. induction d as [|d IH]; intros fuel n lastError Hn Hfuel.
  - rewrite Nat.add_0_r in Hn. subst n. destruct fuel as [|fuel]; [lia|].
    cbn [retry_loop]. replace (Z.of_nat (S k) <=? maxAttempts) with true
      by (symmetry; apply Z.leb_le; lia).
    by rewrite Hok.
  - destruct fuel as [|fuel]; [lia|]. cbn [retry_loop].
    replace (Z.of_nat (S n) <=? maxAttempts) with true
      by (symmetry; apply Z.leb_le; lia).
    pose proof (Hfail n ltac:(lia)) as Hn'.
    destruct (request n) as [b|e]; [done|].
    replace (Z.of_nat (S n) <? maxAttempts) with true
      by (symmetry; apply Z.ltb_lt; lia).
    rewrite <- backoff_S.
    replace (Z.of_nat (S n) + 1) with (Z.of_nat (S (S n))) by lia.
    apply IH; lia.
Qed.

Lemma retry_loop_failure {A} (request : nat -> completion A) maxAttempts :
  (forall j, Z.of_nat j < maxAttempts -> error_of (request j) <> None) ->
  forall d fuel n lastError,
    Z.of_nat n + Z.of_nat d = Z.max 0 maxAttempts -> (d <= fuel)%nat ->
    (n = O -> lastError = None) ->
    (forall m, n = S m -> lastError = error_of (request m)) ->
    retry_loop request maxAttempts fuel (Z.of_nat (S n)) lastError n
      (backoff (Nat.min n (Z.to_nat maxAttempts - 1)))
    = Some (RetryRun
              (Rejected match Z.to_nat maxAttempts with
                        | O => None
                        | S m => error_of (request m)
                        end)
              (Z.to_nat maxAttempts) (backoff (Z.to_nat maxAttempts - 1))).
Proof.
  intros Hfail. induction d as [|d IH]; intros fuel n lastError Hn Hfuel H0 HS.
  - assert (En : n = Z.to_nat maxAttempts) by lia.
    assert (Hle : (Z.of_nat (S n) <=? maxAttempts) = false) by (apply Z.leb_gt; lia).
    destruct fuel; cbn [retry_loop]; rewrite Hle; rewrite <- En;
      (replace (Nat.min n (n - 1)) with (n - 1)%nat by lia);
      (destruct n as [|m]; [by rewrite H0 | by rewrite (HS m)]).
  - destruct fuel as [|fuel]; [lia|]. cbn [retry_loop].
    replace (Z.of_nat (S n) <=? maxAttempts) with true
      by (symmetry; apply Z.leb_le; lia).
    pose proof (Hfail n ltac:(lia)) as Hn'.
    destruct (request n) as [b|e] eqn:Hreq; [done|].
    replace (Z.of_nat (S n) + 1) with (Z.of_nat (S (S n))) by lia.
    assert (Hb : (if Z.of_nat (S n) <? maxAttempts
                  then backoff (Nat.min n (Z.to_nat maxAttempts - 1))
                       ++ [RETRY_DELAY * Z.of_nat (S n)]
                  else backoff (Nat.min n (Z.to_nat maxAttempts - 1)))
                 = backoff (Nat.min (S n) (Z.to_nat maxAttempts - 1))).
    { destruct (Z.of_nat (S n) <? maxAttempts) eqn:Hlt.
      - apply Z.ltb_lt in Hlt.
        replace (Nat.min n (Z.to_nat maxAttempts - 1)) with n by lia.
        replace (Nat.min (S n) (Z.to_nat maxAttempts - 1)) with (S n) by lia.
        by rewrite backoff_S.
      - apply Z.ltb_ge in Hlt. f_equal. lia. }
    rewrite Hb. apply IH; [lia | lia | done |].
    intros m Hm. injection Hm as <-. by rewrite Hreq.
Qed.

(** X1.  When the call number [k + 1] of [requestFn] is the first that
    succeeds and [k + 1] is at most [maxAttempts], [retryRequest] resolves
    to its value after exactly [k + 1] calls; between the calls it has
    waited for timers of 1000, 2000, ..., [1000 * k] milliseconds, which is
    [500 * k * (k + 1)] in all. *)
Theorem retryRequest_first_success {A} (request : nat -> completion A)
    (maxAttempts : Z) (k : nat) (a : A) :
  Z.of_nat k < maxAttempts ->
  (forall j, (j < k)%nat -> error_of (request j) <> None) ->
  request k = Normal a ->
  retryRequest request maxAttempts = Some (RetryRun (Resolved a) (S k) (backoff k))
  /\ backoff k = List.map (fun j => 1000 * Z.of_nat (S j)) (seq 0 k)
  /\ fold_right Z.add 0 (backoff k) = 500 * Z.of_nat k * (Z.of_nat k + 1).
Proof.
  intros Hk Hfail Hok. split; [|split; [done | apply backoff_sum]].
  apply (retry_loop_success request maxAttempts k a Hk Hfail Hok k _ O None); lia.
Qed.

(** X2.  When the first [maxAttempts] calls of [requestFn] all fail,
    [retryRequest] rejects with the error of the last of them after exactly
    [maxAttempts] calls, having waited for timers of 1000, 2000, ...,
    [1000 * (maxAttempts - 1)] milliseconds and for none after the last
    call.  For [maxAttempts] 0 or less it calls nothing, waits for nothing
    and rejects with [undefined]. *)
Theorem retryRequest_all_fail {A} (request : nat -> completion A) (maxAttempts : Z) :
  (forall j, Z.of_nat j < maxAttempts -> error_of (request j) <> None) ->
  retryRequest request maxAttempts
  = Some (RetryRun
            (Rejected match Z.to_nat maxAttempts with
                      | O => None
                      | S m => error_of (request m)
                      end)
            (Z.to_nat maxAttempts) (backoff (Z.to_nat maxAttempts - 1))).
Proof.
  intros Hfail.
  apply (retry_loop_failure request maxAttempts Hfail (Z.to_nat maxAttempts) _ O None);
    [lia | lia | done | done].
Qed.

Lemma first_success {A} (request : nat -> completion A) (N : nat) :
  (exists k a, (k < N)%nat /\ request k = Normal a
     /\ forall j, (j < k)%nat -> error_of (request j) <> None)
  \/ (forall j, (j < N)%nat -> error_of (request j) <> None).
Proof.
  induction N as [|N [IH|IH]].
  - right. intros j Hj. lia.
  - left. destruct IH as (k & a & Hk & Ha & Hj). exists k, a. split; [lia | done].
  - destruct (request N) as [a|e] eqn:HN.
    + left. exists N, a. split; [lia|]. split; [done|]. exact IH.
    + right. intros j Hj. destruct (decide (j = N)) as [->|Hne]; [by rewrite HN|].
      apply IH. lia.
Qed.

(** X3.  [retryRequest] always settles, after at most [maxAttempts] calls
    of [requestFn] and with every call but the last one failed; it resolves
    only to the value of the last call it made, and it rejects only after
    [maxAttempts] failed calls. *)
Theorem retryRequest_settles {A} (request : nat -> completion A) (maxAttempts : Z) :
  exists r, retryRequest request maxAttempts = Some r
    /\ Z.of_nat (calls r) <= Z.max 0 maxAttempts
    /\ (forall j, (S j < calls r)%nat -> error_of (request j) <> None)
    /\ match outcome r with
       | Resolved a => exists k, calls r = S k /\ request k = Normal a
       | Rejected e => Z.of_nat (calls r) = Z.max 0 maxAttempts
                       /\ forall j, (j < calls r)%nat -> error_of (request j) <> None
       end.
Proof.
  destruct (first_success request (Z.to_nat maxAttempts))
    as [(k & a & Hk & Ha & Hj)|Hall].
  - eexists. split.
    { apply (retry_loop_success request maxAttempts k a ltac:(lia) Hj Ha k _ O None); lia. }
    cbn. split; [lia|]. split; [intros j Hlt; apply Hj; lia|]. by exists k.
  - eexists. split.
    { apply (retry_loop_failure request maxAttempts ltac:(intros j Hlt; apply Hall; lia)
               (Z.to_nat maxAttempts) _ O None); [lia | lia | done | done]. }
    cbn. split; [lia|]. split; [intros j Hlt; apply Hall; lia|].
    split; [lia | exact Hall].
Qed.

(** The loop of [getBestApiUrl] stops at the first URL that answers. *)
Lemma first_reachable_spec health urls : forall n,
  match first_reachable health n urls with
  | (Some url, m) =>
      exists i, m = (n + S i)%nat /\ urls !! i = Some url
        /\ checkUrlReachability (health (n + i)%nat (url ++ lit "/health")) = true
        /\ forall j u, (j < i)%nat -> urls !! j = Some u ->
             checkUrlReachability (health (n + j)%nat (u ++ lit "/health")) = false
  | (None, m) =>
      m = (n + length urls)%nat
      /\ forall j u, urls !! j = Some u ->
           checkUrlReachability (health (n + j)%nat (u ++ lit "/health")) = false
  end.
Proof.
  induction urls as [|url rest IH]; intros n; cbn [first_reachable].
  - split; [cbn; lia | intros j u H; by rewrite lookup_nil in H].
  - destruct (checkUrlReachability (health n (url ++ lit "/health"))) eqn:Hc.
    + exists O. rewrite Nat.add_0_r. repeat split; [lia | done | intros j u Hj; lia].
    + specialize (IH (S n)). destruct (first_reachable health (S n) rest) as [[u|] m].
      * destruct IH as (i & -> & Hi & Hr & Hbefore). exists (S i).
        replace (n + S i)%nat with (S n + i)%nat by lia.
        repeat split; [lia | done | done |].
        intros [|j] v Hj Hv; [cbn in Hv; injection Hv as <-; by rewrite Nat.add_0_r|].
        cbn in Hv. replace (n + S j)%nat with (S n + j)%nat by lia.
        apply (Hbefore j v); [lia | done].
      * destruct IH as [-> Hall]. split; [cbn; lia|].
        intros [|j] v Hv; [cbn in Hv; injection Hv as <-; by rewrite Nat.add_0_r|].
        cbn in Hv. replace (n + S j)%nat with (S n + j)%nat by lia. by apply Hall.
Qed.

(** X4.  [getBestApiUrl] tries its four candidates in order, each once,
    and stops at the first that answers [ok]: it returns that URL, no
    candidate before it has answered, and none after it is tried.  When none
    answers it returns the base URL after four requests.  What it returns is
    always one of the candidates. *)
Theorem getBestApiUrl_first_reachable
    (env : environment) (health : nat -> jsstring -> completion bool) :
  let '(url, n) := getBestApiUrl env health in
  In url (candidates env)
  /\ ((exists i, n = S i /\ candidates env !! i = Some url
         /\ checkUrlReachability (health i (url ++ lit "/health")) = true
         /\ forall j u, (j < i)%nat -> candidates env !! j = Some u ->
              checkUrlReachability (health j (u ++ lit "/health")) = false)
      \/ (n = 4%nat /\ url = BASE_URL env
          /\ forall j u, candidates env !! j = Some u ->
               checkUrlReachability (health j (u ++ lit "/health")) = false)).
Proof.
  unfold getBestApiUrl.
  pose proof (first_reachable_spec health (candidates env) O) as H.
  destruct (first_reachable health 0 (candidates env)) as [[url|] n].
  - destruct H as (i & -> & Hi & Hr & Hb). split.
    + apply list_elem_of_In. by apply (list_elem_of_lookup_2 _ i).
    + left. exists i. cbn in Hr. repeat split; try done.
  - destruct H as [-> Hall]. split.
    + cbn. tauto.
    + right. repeat split; try done.
Qed.

(** X5.  The URL [getApiUrl] gives is never empty, whatever the
    environment holds (a variable that is set to the empty string counts as
    not set), and it is one of the candidates of [getBestApiUrl]. *)
Theorem getApiUrl_candidate (env : environment) :
  getApiUrl env <> [] /\ In (getApiUrl env) (candidates env).
Proof.
  unfold getApiUrl, candidates. 
  destruct (_ && _).
  - split; [done | by left].
  - split; [|cbn; tauto].
    unfold BASE_URL, or_default. by destruct (EXPO_PUBLIC_API_URL env) as [[|c s]|].
Qed.

(** *** The theorems at concrete inputs *)

(** Two failures and then the value 7, with three attempts allowed. *)
Lemma retryRequest_first_success_witness :
  retryRequest (fun n => if (n <? 2)%nat then Throw (lit "timeout") else Normal 7%nat) 3
  = Some (RetryRun (Resolved 7%nat) 3 [1000; 2000]).
Proof.
  apply (retryRequest_first_success
           (fun n => if (n <? 2)%nat then Throw (lit "timeout") else Normal 7%nat) 3 2 7%nat);
    [lia | intros [|[|j]] H; [discriminate | discriminate | lia] | reflexivity].
Defined.

(** Three failures with three attempts allowed: two timers, and the error
    of the third call. *)
Lemma retryRequest_all_fail_witness :
  retryRequest (A := nat) (fun n => Throw (nat_toString n)) 3
  = Some (RetryRun (Rejected (Some (lit "2"))) 3 [1000; 2000]).
Proof.
  apply (retryRequest_all_fail (A := nat) (fun n => Throw (nat_toString n)) 3).
  intros j H. discriminate.
Defined.

End ApiConfigProperties.

(** ** The stock data service *)

Module StockDataServiceProperties.
Import JS RegExp StockDataService RegExpProperties.

Section Service.

Context `{host : Host}.

(** *** What [parseStockResponse] extracts *)

(** C4.  The example of the specification: the answer
    "Current Price: ₹2,850.55", "Change: ₹+12.30 (0.43%)",
    "Previous Close: ₹2,838.25" on three lines is parsed, in either shape of
    the response, to a price with [current_price] 2850.55, [change] 12.30,
    [change_percent] 0.43 and [previous_close] 2838.25. *)
Theorem parseStockResponse_example (symbol iso : jsstring) :
  exists sp,
    parseStockResponse (answer_string example_answer) symbol iso = Normal (Some sp)
    /\ parseStockResponse (answer_object example_answer) symbol iso = Normal (Some sp)
    /\ StockPrice.current_price sp = 2850.55%float
    /\ StockPrice.change sp = 12.30%float
    /\ StockPrice.change_percent sp = 0.43%float
    /\ StockPrice.previous_close sp = 2838.25%float.
Proof.
  eexists. split; [vm_compute; reflexivity|].
  split; [vm_compute; reflexivity|].
  cbn [StockPrice.current_price StockPrice.change StockPrice.change_percent
       StockPrice.previous_close].
  repeat split; reflexivity.
Qed.

Lemma parseStockResponse_content response content symbol iso :
  answer_content response = Normal (Some content) ->
  parseStockResponse response symbol iso = Normal (parse_content content symbol iso).
Proof. unfold parseStockResponse. by intros ->. Qed.

Lemma answer_content_string content :
  content <> [] -> answer_content (answer_string content) = Normal (Some content).
Proof.
  intros H. destruct content as [|c cs]; [done|]. vm_compute. reflexivity.
Qed.

Lemma answer_content_object content :
  answer_content (answer_object content) = Normal (Some content).
Proof. done. Qed.

(** C5.  When the price pattern does not match the text of the answer,
    [parseStockResponse] returns [null], whatever the other patterns find. *)
Theorem parseStockResponse_null_without_price
    (response : json) (content symbol iso : jsstring) :
  answer_content response = Normal (Some content) ->
  match_ true priceRe content = None ->
  parseStockResponse response symbol iso = Normal None.
Proof.
  intros Hc Hp. rewrite (parseStockResponse_content _ _ _ _ Hc).
  unfold parse_content. by rewrite Hp.
Qed.

(** C9.  When the price pattern matches the text of the answer,
    [parseStockResponse] returns a price: with [change] and
    [change_percent] 0 when the change pattern does not match, with
    [previous_close] the current price minus the change when the
    previous-close pattern does not match, with [volume] 0 when the volume
    pattern does not match, and always with [open] the previous close and
    [high] and [low] the current price plus and minus the magnitude of the
    change. *)
Theorem parseStockResponse_defaults
    (response : json) (content symbol iso : jsstring) (pm : gmap nat jsstring) :
  answer_content response = Normal (Some content) ->
  match_ true priceRe content = Some pm ->
  exists sp,
    parseStockResponse response symbol iso = Normal (Some sp)
    /\ StockPrice.current_price sp = parseFloat (remove_all 44%N (group pm 1))
    /\ (match_ true changeRe content = None ->
          StockPrice.change sp = 0%float /\ StockPrice.change_percent sp = 0%float)
    /\ (match_ true previousCloseRe content = None ->
          StockPrice.previous_close sp
          = (StockPrice.current_price sp - StockPrice.change sp)%float)
    /\ (match_ true volumeRe content = None -> StockPrice.volume sp = 0%float)
    /\ StockPrice.open sp = StockPrice.previous_close sp
    /\ StockPrice.high sp
       = (StockPrice.current_price sp + Math_abs (StockPrice.change sp))%float
    /\ StockPrice.low sp
       = (StockPrice.current_price sp - Math_abs (StockPrice.change sp))%float.
Proof.
  intros Hc Hp. rewrite (parseStockResponse_content _ _ _ _ Hc).
  unfold parse_content. rewrite Hp. eexists. split; [reflexivity|]. cbn.
  split; [done|]. split; [by intros ->|]. split; [by intros ->|].
  split; [by intros ->|]. done.
Qed.

(** [parseStockResponse] never throws. *)
Lemma parseStockResponse_returns response symbol iso :
  exists v, parseStockResponse response symbol iso = Normal v.
Proof.
  unfold parseStockResponse, mbind, completion_bind, try_catch.
  destruct (answer_content response) as [[c|]|e]; eauto.
Qed.

(** *** The languages of the patterns *)

Lemma single_digit_comma ic : single ic (Class [ADigit; AUnit 44%N]) digit_or_comma.
Proof.
  eapply single_ext; [|apply single_Class]. intros c. cbn.
  rewrite canon_not_letter by lia. unfold digit_or_comma. by rewrite orb_false_r.
Qed.

Lemma single_digit ic : single ic (Class [ADigit]) is_digit.
Proof.
  eapply single_ext; [|apply single_Class]. intros c. cbn. by rewrite orb_false_r.
Qed.

Lemma single_digit_point ic : single ic (Class [ADigit; AUnit 46%N]) digit_or_point.
Proof.
  eapply single_ext; [|apply single_Class]. intros c. cbn.
  rewrite canon_not_letter by lia. unfold digit_or_point. by rewrite orb_false_r.
Qed.

Lemma single_plus_minus ic : single ic (Class [AUnit 43%N; AUnit 45%N]) plus_or_minus.
Proof.
  eapply single_ext; [|apply single_Class]. intros c. cbn.
  rewrite !canon_not_letter by lia. unfold plus_or_minus. by rewrite orb_false_r.
Qed.

Lemma single_space ic : single ic (Class [ASpace]) is_whitespace.
Proof.
  eapply single_ext; [|apply single_Class]. intros c. cbn. by rewrite orb_false_r.
Qed.

(** The language of each pattern of [parseStockResponse]. *)
Lemma amount_language ic i w : matches ic amount i w <-> is_amount w.
Proof.
  unfold amount, is_amount. rewrite matches_Seq_iff. split.
  - intros (ds & w2 & -> & Hds & H2). apply matches_Seq_iff in H2.
    destruct H2 as (pt & fs & -> & Hpt & Hfs).
    apply (matches_Plus_single _ _ _ _ _ (single_digit_comma ic)) in Hds as [Hne Hds].
    apply matches_Opt_iff in Hpt.
    apply (matches_Star_single _ _ _ _ _ _ (single_digit ic)) in Hfs.
    exists ds, pt, fs. repeat split; try done.
    destruct Hpt as [->|Hpt]; [by left | right].
    by apply matches_unit in Hpt; [|lia].
  - intros (ds & pt & fs & -> & Hne & Hds & Hpt & Hfs). exists ds, (pt ++ fs).
    split; [done|]. split.
    + by apply (matches_Plus_single _ _ _ _ _ (single_digit_comma ic)).
    + apply matches_Seq_iff. exists pt, fs. split; [done|]. split.
      * apply matches_Opt_iff. destruct Hpt as [->| ->]; [by left | right].
        apply matches_unit; [lia | done].
      * by apply (matches_Star_single _ _ _ _ _ _ (single_digit ic)).
Qed.

Lemma sign_language ic i w : matches ic sign i w <-> is_sign w.
Proof.
  unfold sign, is_sign. rewrite matches_Opt_iff.
  by rewrite (single_plus_minus ic i w).
Qed.

(** The pattern of a label followed, on the same line, by a tail. *)
Lemma labelled_language label r (tail : jsstring -> Prop) i w :
  (forall j t, matches true r j t <-> tail t) ->
  matches true (Seq (Str label) (Seq (Star false AnyChar) r)) i w
  <-> labelled label tail w.
Proof.
  intros Hr. unfold labelled. rewrite matches_Seq_iff. split.
  - intros (l & w2 & -> & Hl & H2). apply matches_Seq_iff in H2.
    destruct H2 as (gap & t & -> & Hgap & Ht).
    apply matches_Str in Hl.
    apply (matches_Star_single _ _ _ _ _ _ (single_AnyChar true)) in Hgap.
    apply Hr in Ht. exists l, gap, t. done.
  - intros (l & gap & t & -> & Hl & Hgap & Ht). exists l, (gap ++ t).
    split; [done|]. split; [by apply matches_Str|].
    apply matches_Seq_iff. exists gap, t. split; [done|]. split.
    + by apply (matches_Star_single _ _ _ _ _ _ (single_AnyChar true)).
    + by apply Hr.
Qed.

Lemma rupee_amount_language ic i t :
  matches ic (Seq (Unit rupee) (Group 1 amount)) i t <-> rupee_amount t.
Proof.
  unfold rupee_amount. rewrite matches_Seq_iff. split.
  - intros (w1 & a & -> & H1 & Ha). apply matches_unit in H1; [|unfold rupee; lia].
    subst. apply matches_Group_iff, amount_language in Ha. eauto.
  - intros (a & -> & Ha). exists [rupee], a. split; [done|]. split.
    + apply matches_unit; [unfold rupee; lia | done].
    + by apply matches_Group_iff, amount_language.
Qed.

Theorem priceRe_language i w :
  matches true priceRe i w <-> labelled (lit "Current Price") rupee_amount w.
Proof. apply labelled_language. intros j t. apply rupee_amount_language. Qed.

Theorem previousCloseRe_language i w :
  matches true previousCloseRe i w <-> labelled (lit "Previous Close") rupee_amount w.
Proof. apply labelled_language. intros j t. apply rupee_amount_language. Qed.

Theorem volumeRe_language i w :
  matches true volumeRe i w <-> labelled (lit "Volume") digits_and_commas w.
Proof.
  apply labelled_language. intros j t. rewrite matches_Group_iff.
  apply (matches_Plus_single _ _ _ _ _ (single_digit_comma true)).
Qed.

Theorem changeRe_language i w :
  matches true changeRe i w <-> labelled (lit "Change") rupee_change w.
Proof.
  apply labelled_language. intros j t. unfold rupee_change. split.
  - intros H.
    apply matches_Seq_iff in H as (w1 & t1 & -> & H1 & H).
    apply matches_unit in H1; [|unfold rupee; lia]. subst w1.
    apply matches_Seq_iff in H as (g1 & t2 & -> & Hg1 & H).
    apply matches_Group_iff, matches_Seq_iff in Hg1 as (s1 & a & -> & Hs1 & Ha).
    apply sign_language in Hs1. apply amount_language in Ha.
    apply matches_Seq_iff in H as (sp & t3 & -> & Hsp & H).
    apply (matches_Star_single _ _ _ _ _ _ (single_space true)) in Hsp.
    apply matches_Seq_iff in H as (op & t4 & -> & Hop & H).
    apply matches_unit in Hop; [|lia]. subst op.
    apply matches_Seq_iff in H as (g2 & t5 & -> & Hg2 & H).
    apply matches_Group_iff, matches_Seq_iff in Hg2 as (s2 & pc & -> & Hs2 & Hpc).
    apply sign_language in Hs2.
    apply (matches_Plus_single _ _ _ _ _ (single_digit_point true)) in Hpc as [Hne Hpc].
    apply matches_Seq_iff in H as (pct & cl & -> & Hpct & Hcl).
    apply matches_unit in Hpct; [|lia]. apply matches_unit in Hcl; [|lia]. subst.
    exists s1, a, sp, s2, pc. split; [|done].
    cbn. by rewrite <- !app_assoc.
  - intros (s1 & a & sp & s2 & pc & -> & Hs1 & Ha & Hsp & Hs2 & Hne & Hpc).
    apply matches_Seq_iff. exists [rupee], (s1 ++ a ++ sp ++ 40%N :: s2 ++ pc ++ [37%N; 41%N]).
    split; [done|]. split; [apply matches_unit; [unfold rupee; lia | done]|].
    apply matches_Seq_iff. exists (s1 ++ a), (sp ++ 40%N :: s2 ++ pc ++ [37%N; 41%N]).
    split; [by rewrite <- app_assoc|]. split.
    { apply matches_Group_iff, matches_Seq_iff. exists s1, a. split; [done|].
      split; [by apply sign_language | by apply amount_language]. }
    apply matches_Seq_iff. exists sp, (40%N :: s2 ++ pc ++ [37%N; 41%N]).
    split; [done|]. split.
    { by apply (matches_Star_single _ _ _ _ _ _ (single_space true)). }
    apply matches_Seq_iff. exists [40%N], (s2 ++ pc ++ [37%N; 41%N]).
    split; [done|]. split; [apply matches_unit; [lia | done]|].
    apply matches_Seq_iff. exists (s2 ++ pc), [37%N; 41%N].
    split; [by rewrite <- app_assoc|]. split.
    { apply matches_Group_iff, matches_Seq_iff. exists s2, pc. split; [done|].
      split; [by apply sign_language|].
      by apply (matches_Plus_single _ _ _ _ _ (single_digit_point true)). }
    apply matches_Seq_iff. exists [37%N], [41%N]. split; [done|].
    split; apply matches_unit; (lia || done).
Qed.

(** [priceMatch] is not [null] exactly when the text has a part that reads
    [Current Price] in any case, then units of the same line, then the rupee
    sign and an amount. *)
Theorem priceRe_matches s :
  is_Some (match_ true priceRe s)
  <-> contains (labelled (lit "Current Price") rupee_amount) s.
Proof. apply match_contains, priceRe_language. Qed.

Theorem changeRe_matches s :
  is_Some (match_ true changeRe s)
  <-> contains (labelled (lit "Change") rupee_change) s.
Proof. apply match_contains, changeRe_language. Qed.

Theorem previousCloseRe_matches s :
  is_Some (match_ true previousCloseRe s)
  <-> contains (labelled (lit "Previous Close") rupee_amount) s.
Proof. apply match_contains, previousCloseRe_language. Qed.

Theorem volumeRe_matches s :
  is_Some (match_ true volumeRe s)
  <-> contains (labelled (lit "Volume") digits_and_commas) s.
Proof. apply match_contains, volumeRe_language. Qed.

(** The price pattern matches exactly the texts that hold, in any case,
    [Current Price], then on the same line a rupee sign directly followed by
    a digit or a comma. *)
Theorem priceRe_matches_text s :
  is_Some (match_ true priceRe s) <->
  exists pre l gap d post,
    s = pre ++ l ++ gap ++ rupee :: d :: post
    /\ ascii_upper l = lit "CURRENT PRICE"
    /\ forallb same_line gap = true
    /\ digit_or_comma d = true.
Proof.
  rewrite priceRe_matches. unfold contains, labelled, rupee_amount, is_amount. split.
  - intros (pre & w & post & -> & l & gap & t & -> & Hl & Hgap & a & ->
            & ds & pt & fs & -> & Hne & Hds & _).
    destruct ds as [|d ds]; [done|]. cbn in Hds. apply andb_true_iff in Hds as [Hd _].
    exists pre, l, gap, d, (ds ++ pt ++ fs ++ post). split; [|done].
    cbn. rewrite <- !app_assoc. cbn. by rewrite <- !app_assoc.
  - intros (pre & l & gap & d & post & -> & Hl & Hgap & Hd).
    exists pre, (l ++ gap ++ [rupee; d]), post. split.
    { by rewrite <- !app_assoc. }
    exists l, gap, [rupee; d]. split; [done|]. split; [done|]. split; [done|].
    exists [d]. split; [done|]. exists [d], [], []. cbn. rewrite Hd. eauto 10.
Qed.

(** [parseStockResponse] returns [null] on a response whose answer is the
    text [content] exactly when the text has no labelled price. *)
Theorem parseStockResponse_null_iff
    (response : json) (content symbol iso : jsstring) :
  answer_content response = Normal (Some content) ->
  (parseStockResponse response symbol iso = Normal None
   <-> ~ contains (labelled (lit "Current Price") rupee_amount) content).
Proof.
  intros Hc. rewrite (parseStockResponse_content _ _ _ _ Hc).
  rewrite <- (match_None_contains true priceRe _ content priceRe_language).
  unfold parse_content. destruct (match_ true priceRe content); split; congruence.
Qed.

(** *** What the patterns capture *)

Lemma digit_or_comma_class ic c :
  existsb (fun a => atom_matches ic a c) [ADigit; AUnit 44%N] = digit_or_comma c.
Proof. cbn. rewrite canon_not_letter by lia. unfold digit_or_comma. by rewrite orb_false_r. Qed.

Lemma amount_prefix_split s :
  s = amount_prefix s
      ++ drop (length (fraction (skip digit_or_comma s))) (skip digit_or_comma s).
Proof.
  unfold amount_prefix. rewrite <- app_assoc.
  rewrite <- (leading_skip digit_or_comma s) at 1. f_equal.
  rewrite <- (take_drop (length (fraction (skip digit_or_comma s))) (skip digit_or_comma s)) at 1.
  by rewrite fraction_take.
Qed.

(** The amount pattern at the head of [s], as a group. *)
Lemma amount_reads (j : nat) (s : jsstring) (c : gmap nat jsstring) :
  captured 1 (compile true (Group 1 amount) (MState j s c) Some) = amount_at s.
Proof.
  rewrite compile_Group. unfold amount. rewrite compile_Seq. cbn [pos rest caps].
  set (k1 := fun st' : mstate =>
               Some (MState (pos st') (rest st')
                       (<[1%nat := take (pos st' - j) s]> (caps st')))).
  assert (Hk1 : total k1) by (intros st'; by eexists).
  assert (Hk2 : total (fun st' =>
            compile true (Seq (Opt (Unit 46%N)) (Star true (Class [ADigit]))) st' k1)).
  { intros st'. rewrite fraction_at by done. apply Hk1. }
  rewrite (class_plus true _ digit_or_comma _ _ (digit_or_comma_class true) Hk2).
  cbn [pos rest caps]. unfold amount_at.
  destruct s as [|d r]; [done|].
  destruct (digit_or_comma d); [|done].
  rewrite fraction_at by done. unfold k1. cbn [pos rest caps captured fmap option_fmap option_map].
  clear Hk1 Hk2. subst k1. generalize (d :: r). clear d r. intros s.
  f_equal. unfold group. rewrite lookup_insert_eq. cbn [default].
  replace (j + length (leading digit_or_comma s) + length (fraction (skip digit_or_comma s)) - j)%nat
    with (length (amount_prefix s)) by (unfold amount_prefix; rewrite length_app; lia).
  apply (take_prefix _ _ _ (amount_prefix_split s)).
Qed.

Lemma rupee_amount_reads (j : nat) (s : jsstring) (c : gmap nat jsstring) :
  captured 1 (compile true (Seq (Unit rupee) (Group 1 amount)) (MState j s c) Some)
  = rupee_amount_at s.
Proof.
  rewrite compile_Seq, compile_Unit. unfold one. cbn [pos rest caps]. unfold rupee_amount_at.
  destruct s as [|x r]; [done|].
  rewrite canon_not_letter by (unfold rupee; lia).
  destruct (x =? rupee)%N; [|done]. apply amount_reads.
Qed.

Lemma digits_and_commas_reads (j : nat) (s : jsstring) (c : gmap nat jsstring) :
  captured 1 (compile true (Group 1 (Plus (Class [ADigit; AUnit 44%N]))) (MState j s c) Some)
  = digits_and_commas_at s.
Proof.
  rewrite compile_Group. cbn [pos rest caps].
  set (k1 := fun st' : mstate =>
               Some (MState (pos st') (rest st')
                       (<[1%nat := take (pos st' - j) s]> (caps st')))).
  assert (Hk1 : total k1) by (intros st'; by eexists).
  rewrite (class_plus true _ digit_or_comma _ _ (digit_or_comma_class true) Hk1).
  cbn [pos rest caps]. unfold digits_and_commas_at.
  destruct s as [|d r]; [done|].
  destruct (digit_or_comma d); [|done].
  unfold k1. cbn [pos rest caps captured fmap option_fmap option_map].
  f_equal. unfold group. rewrite lookup_insert_eq. cbn [default].
  replace (j + length (leading digit_or_comma (d :: r)) - j)%nat
    with (length (leading digit_or_comma (d :: r))) by lia.
  rewrite <- (leading_skip digit_or_comma (d :: r)) at 2. apply take_app_length.
Qed.

(** What each pattern of [parseStockResponse] captures. *)
Lemma priceRe_reads s :
  (fun caps => group caps 1) <$> match_ true priceRe s
  = first_labelled (lit "Current Price") rupee_amount_at s.
Proof. apply match_first_labelled; [done | apply rupee_amount_reads]. Qed.

Lemma previousCloseRe_reads s :
  (fun caps => group caps 1) <$> match_ true previousCloseRe s
  = first_labelled (lit "Previous Close") rupee_amount_at s.
Proof. apply match_first_labelled; [done | apply rupee_amount_reads]. Qed.

Lemma volumeRe_reads s :
  (fun caps => group caps 1) <$> match_ true volumeRe s
  = first_labelled (lit "Volume") digits_and_commas_at s.
Proof. apply match_first_labelled; [done | apply digits_and_commas_reads]. Qed.

(** X25.  [parseStockResponse] reads the price at the first place of the
    text where [Current Price] stands, in any case, with a rupee sign that a
    digit or a comma follows after it on the same line: the price is the
    amount after the first such sign, the digits and commas, a point if one
    follows and the digits after it, with the commas taken out.  With no
    such place it returns [null].  The previous close is read in the same
    way after [Previous Close], and the volume from the first digits and
    commas on the line after [Volume]. *)
Theorem parseStockResponse_reads_first_amounts
    (response : json) (content symbol iso : jsstring) :
  answer_content response = Normal (Some content) ->
  match first_labelled (lit "Current Price") rupee_amount_at content with
  | None => parseStockResponse response symbol iso = Normal None
  | Some price =>
      exists d,
        parseStockResponse response symbol iso = Normal (Some d)
        /\ StockPrice.current_price d = parseFloat (remove_all 44%N price)
        /\ StockPrice.previous_close d
           = match first_labelled (lit "Previous Close") rupee_amount_at content with
             | Some a => parseFloat (remove_all 44%N a)
             | None => (StockPrice.current_price d - StockPrice.change d)%float
             end
        /\ StockPrice.volume d
           = match first_labelled (lit "Volume") digits_and_commas_at content with
             | Some a => parseInt (remove_all 44%N a)
             | None => 0%float
             end
  end.
Proof.
  intros Hc. rewrite (parseStockResponse_content _ _ _ _ Hc).
  rewrite <- priceRe_reads, <- previousCloseRe_reads, <- volumeRe_reads.
  unfold parse_content.
  destruct (match_ true priceRe content) as [pm|]; [|done].
  cbn [fmap option_fmap option_map]. eexists. split; [done|].
  cbn [StockPrice.current_price StockPrice.previous_close StockPrice.volume StockPrice.change].
  split; [done|]. split.
  - by destruct (match_ true previousCloseRe content).
  - by destruct (match_ true volumeRe content).
Qed.

(** *** The invariant of the pending-request map *)

Lemma Inv_initial : Inv initial.
Proof.
  split; cbn; intros.
  - rewrite lookup_nil in H. discriminate.
  - rewrite lookup_empty in H. discriminate.
  - rewrite lookup_nil in H. discriminate.
Qed.

Lemma lookup_snoc_Some {A} (l : list A) (x y : A) (i : nat) :
  (l ++ [x]) !! i = Some y -> l !! i = Some y \/ (i = length l /\ y = x).
Proof.
  intros H. destruct (decide (i < length l)%nat) as [Hlt|Hge].
  - left. by rewrite lookup_app_l in H.
  - right. rewrite lookup_app_r in H by lia.
    destruct (i - length l)%nat as [|n] eqn:E; cbn in H; [|by destruct n].
    split; [lia | congruence].
Qed.

Lemma Inv_issue symbol st :
  Inv st -> pendingRequests st !! symbol = None ->
  Inv (State (cache st) (<[symbol := length (fetches st)]> (pendingRequests st))
             (fetches st ++ [Fetch symbol None true])).
Proof.
  intros [Ho Hp Hf] Hq. split; cbn.
  - intros p s r H. apply lookup_snoc_Some in H as [H|[-> H]].
    + destruct (decide (symbol = s)) as [->|Hne].
      * apply Ho in H. congruence.
      * rewrite lookup_insert_ne by done. eauto.
    + inversion H; subst. apply lookup_insert_eq.
  - intros s p H. destruct (decide (symbol = s)) as [->|Hne].
    + rewrite lookup_insert_eq in H. inversion H; subst.
      exists None. rewrite lookup_app_r by lia. by rewrite Nat.sub_diag.
    + rewrite lookup_insert_ne in H by done. destruct (Hp _ _ H) as [r Hr].
      exists r. rewrite lookup_app_l; [done|]. by eapply lookup_lt_Some.
  - intros p s w H. apply lookup_snoc_Some in H as [H|[_ H]]; [eauto|congruence].
Qed.

Lemma Inv_call now symbol st : Inv st -> Inv (fst (getStockPrice_call now symbol st)).
Proof.
  intros HI. unfold getStockPrice_call.
  destruct (fresh st symbol now); [done|].
  destruct (pendingRequests st !! symbol) as [q|] eqn:Hq; [done|].
  by apply Inv_issue.
Qed.

Lemma Inv_settle clk p net st : Inv st -> Inv (settle clk p net st).
Proof.
  intros [Ho Hp Hf]. unfold settle.
  destruct (fetches st !! p) as [[s0 [r0|] w0]|] eqn:E; try by split.
  assert (Hlt : (p < length (fetches st))%nat) by by eapply lookup_lt_Some.
  split; cbn.
  - intros q s r H. destruct (decide (p = q)) as [->|Hne].
    + rewrite list_lookup_insert_eq in H by done. inversion H; subst. eauto.
    + rewrite list_lookup_insert_ne in H by done. eauto.
  - intros s q H. destruct (Hp _ _ H) as [r Hr].
    destruct (decide (p = q)) as [->|Hne].
    + rewrite list_lookup_insert_eq by done. rewrite E in Hr. inversion Hr; subst. eauto.
    + rewrite list_lookup_insert_ne by done. eauto.
  - intros q s w H. destruct (decide (p = q)) as [->|Hne].
    + rewrite list_lookup_insert_eq in H by done. discriminate.
    + rewrite list_lookup_insert_ne in H by done. eauto.
Qed.

Lemma Inv_resume p st : Inv st -> Inv (resume p st).
Proof.
  intros [Ho Hp Hf]. unfold resume.
  destruct (fetches st !! p) as [[s0 [r0|] [|]]|] eqn:E; try by split.
  assert (Hlt : (p < length (fetches st))%nat) by by eapply lookup_lt_Some.
  split; cbn.
  - intros q s r H. destruct (decide (p = q)) as [->|Hne].
    + rewrite list_lookup_insert_eq in H by done. discriminate.
    + rewrite list_lookup_insert_ne in H by done.
      destruct (decide (s0 = s)) as [->|Hs].
      * apply Ho in H. apply Ho in E. congruence.
      * rewrite lookup_delete_ne by done. eauto.
  - intros s q H. destruct (decide (s0 = s)) as [->|Hs].
    + rewrite lookup_delete_eq in H. discriminate.
    + rewrite lookup_delete_ne in H by done. destruct (Hp _ _ H) as [r Hr].
      destruct (decide (p = q)) as [->|Hne]; [congruence|].
      rewrite list_lookup_insert_ne by done. eauto.
  - intros q s w H. destruct (decide (p = q)) as [->|Hne].
    + rewrite list_lookup_insert_eq in H by done. discriminate.
    + rewrite list_lookup_insert_ne in H by done. eauto.
Qed.

Lemma Inv_step st e : Inv st -> Inv (step st e).
Proof. destruct e; cbn; auto using Inv_call, Inv_settle, Inv_resume. Qed.

Lemma Inv_run evs st : Inv st -> Inv (run evs st).
Proof.
  revert st. induction evs as [|e evs IH]; intros st H; [done|].
  cbn. apply IH. by apply Inv_step.
Qed.

(** *** De-duplication *)

Lemma filter_at_most_one {A} (P : A -> bool) (l : list A) :
  (forall i j x y, l !! i = Some x -> l !! j = Some y ->
                   P x = true -> P y = true -> i = j) ->
  (length (List.filter P l) <= 1)%nat.
Proof.
  induction l as [|a l IH]; intros H; cbn; [lia|].
  destruct (P a) eqn:Pa.
  - assert (Hnil : List.filter P l = []).
    { destruct (List.filter P l) as [|b t] eqn:E; [done|].
      assert (Hb : In b (List.filter P l)) by (rewrite E; by left).
      apply List.filter_In in Hb as [Hin Pb].
      apply list_elem_of_In, list_elem_of_lookup in Hin as [j Hj].
      specialize (H O (S j) a b eq_refl Hj Pa Pb). discriminate. }
    rewrite Hnil. cbn. lia.
  - apply IH. intros i j x y Hi Hj Px Py.
    specialize (H (S i) (S j) x y Hi Hj Px Py). lia.
Qed.

Lemma filter_none {A} (P : A -> bool) (l : list A) :
  (forall x, In x l -> P x = false) -> List.filter P l = [].
Proof.
  induction l as [|a l IH]; intros H; [done|]. cbn.
  rewrite (H a) by (by left). apply IH. intros x Hx. apply H. by right.
Qed.

Lemma filter_filter_andb {A} (P Q : A -> bool) (l : list A) :
  List.filter P (List.filter Q l) = List.filter (fun x => Q x && P x) l.
Proof.
  induction l as [|a l IH]; cbn; [done|].
  destruct (Q a); cbn; [destruct (P a)|]; by rewrite IH.
Qed.

(** In a state the service can reach, at most one request per symbol is in
    flight. *)
Lemma one_request_in_flight (evs : list event) (symbol : jsstring) :
  (length (in_flight symbol (run evs initial)) <= 1)%nat.
Proof.
  pose proof (Inv_run evs initial Inv_initial) as [Ho Hp Hf].
  unfold in_flight, requests_for. rewrite filter_filter_andb.
  apply filter_at_most_one. intros i j [s1 r1 w1] [s2 r2 w2] Hi Hj H1 H2.
  cbn in H1, H2. apply andb_prop in H1 as [E1 N1], H2 as [E2 N2].
  apply bool_decide_eq_true in E1, E2. subst s1 s2.
  destruct r1, r2; try discriminate.
  pose proof (Hf _ _ _ Hi). pose proof (Hf _ _ _ Hj). subst.
  apply Ho in Hi, Hj. congruence.
Qed.

Lemma filter_insert_other {A} (P : A -> bool) (l : list A) (q : nat) (x y : A) :
  l !! q = Some x -> P x = false -> P y = false ->
  List.filter P (<[q := y]> l) = List.filter P l.
Proof.
  revert q. induction l as [|a l IH]; intros [|q] H Px Py; try done.
  - inversion H; subst. simpl. by rewrite Px, Py.
  - simpl. by rewrite (IH q).
Qed.

Lemma fresh_cache st st' symbol t :
  cache st' !! symbol = cache st !! symbol -> fresh st' symbol t = fresh st symbol t.
Proof. unfold fresh. by intros ->. Qed.

Lemma other_symbol_false s symbol : s <> symbol -> string_eqb s symbol = false.
Proof. intros H. by apply bool_decide_eq_false. Qed.

Lemma in_flight_for_step st0 symbol p R st e :
  in_flight_for symbol p (cache st0 !! symbol) R st ->
  keeps_in_flight st0 symbol p e = true ->
  in_flight_for symbol p (cache st0 !! symbol) R (step st e).
Proof.
  intros [HI Hpend Hfetch Hcache Hreq] Hk.
  pose proof HI as [Ho Hp Hf].
  destruct e as [t s|clk q net|q]; cbn in *.
  - unfold getStockPrice_call. destruct (decide (s = symbol)) as [->|Hne].
    + unfold string_eqb in Hk. rewrite bool_decide_eq_true_2 in Hk by done.
      rewrite (fresh_cache st0 st) by done.
      destruct (fresh st0 symbol t); [discriminate|]. rewrite Hpend. by split.
    + destruct (fresh st s t); [by split|].
      destruct (pendingRequests st !! s) eqn:E; [by split|].
      split; cbn.
      * by apply Inv_issue.
      * by rewrite lookup_insert_ne.
      * rewrite lookup_app_l; [done|]. by eapply lookup_lt_Some.
      * done.
      * unfold requests_for in *. cbn. rewrite List.filter_app. cbn.
        rewrite other_symbol_false by done. by rewrite app_nil_r.
  - apply negb_true_iff, Nat.eqb_neq in Hk.
    pose proof (Inv_settle clk q net st HI) as HI'. unfold settle in *.
    destruct (fetches st !! q) as [[s' [r'|] w']|] eqn:E; try by split.
    assert (w' = true) as -> by eauto.
    assert (Hs : s' <> symbol).
    { intros ->. apply Ho in E. congruence. }
    split; cbn; try done.
    + by rewrite list_lookup_insert_ne.
    + destruct (fetchStockData_result net s' (iso clk)) as [[sd|]|]; try done.
      by rewrite lookup_insert_ne.
    + unfold requests_for in *. cbn.
      erewrite filter_insert_other; eauto; cbn; by apply other_symbol_false.
  - pose proof (Inv_resume q st HI) as HI'. unfold resume in *.
    destruct (fetches st !! q) as [[s' [r'|] [|]]|] eqn:E; try by split.
    assert (Hs : s' <> symbol).
    { intros ->. pose proof (Ho _ _ _ E) as E'. rewrite Hpend in E'.
      inversion E'; subst. congruence. }
    assert (Hq : q <> p) by (intros ->; congruence).
    split; cbn; try done.
    + by rewrite lookup_delete_ne.
    + by rewrite list_lookup_insert_ne.
    + unfold requests_for in *. cbn.
      erewrite filter_insert_other; eauto; cbn; by apply other_symbol_false.
Qed.

Lemma in_flight_for_run st0 symbol p R evs st :
  in_flight_for symbol p (cache st0 !! symbol) R st ->
  forallb (keeps_in_flight st0 symbol p) evs = true ->
  in_flight_for symbol p (cache st0 !! symbol) R (run evs st).
Proof.
  revert st. induction evs as [|e evs IH]; intros st H Hall; [done|].
  cbn in Hall. apply andb_prop in Hall as [He Hall].
  cbn. apply IH; [|done]. by apply in_flight_for_step.
Qed.

(** C1.  De-duplication.  In a state [st] the service can reach, let a call
    of [getStockPrice(symbol)] find neither a fresh cache entry nor a pending
    request, and let any events follow that leave its request in flight:
    further calls for [symbol] that find no fresh entry, and anything that
    concerns other symbols.  Then the first call posts one query and stores
    its promise [p] as the pending entry of [symbol]; every later call for
    [symbol] awaits that same promise and changes nothing; one query for
    [symbol] has been posted in all; and when the request settles, with any
    outcome, every caller gets the one value of [p], and the first caller's
    [finally] removes the pending entry. *)
Theorem getStockPrice_deduplicates
    (evs0 : list event) (symbol : jsstring) (now0 : Z) (evs : list event) :
  let st := run evs0 initial in
  let p := length (fetches st) in
  fresh st symbol now0 = None ->
  pendingRequests st !! symbol = None ->
  forallb (keeps_in_flight st symbol p) evs = true ->
  let st1 := fst (getStockPrice_call now0 symbol st) in
  let st' := run evs st1 in
  snd (getStockPrice_call now0 symbol st) = AwaitsOwn p
  /\ pendingRequests st1 !! symbol = Some p
  /\ (forall pre t post, evs = pre ++ Call t symbol :: post ->
        getStockPrice_call t symbol (run pre st1) = (run pre st1, AwaitsPending p))
  /\ requests_for symbol st' = requests_for symbol st ++ [Fetch symbol None true]
  /\ in_flight symbol st' = [Fetch symbol None true]
  /\ forall clk net,
       let v := returned_value (fetchStockData_result net symbol (iso clk)) in
       let st2 := settle clk p net st' in
       awaited st2 p = Some v
       /\ awaited (resume p st2) p = Some v
       /\ pendingRequests (resume p st2) !! symbol = None
       /\ in_flight symbol (resume p st2) = []
       /\ length (requests_for symbol (resume p st2)) = S (length (requests_for symbol st)).
Proof.
  intros st p Hfresh Hpend Hall st1 st'.
  assert (HI : Inv st) by apply Inv_run, Inv_initial.
  assert (Hcall : getStockPrice_call now0 symbol st =
                  (State (cache st) (<[symbol := p]> (pendingRequests st))
                         (fetches st ++ [Fetch symbol None true]), AwaitsOwn p)).
  { unfold getStockPrice_call. by rewrite Hfresh, Hpend. }
  assert (H1 : in_flight_for symbol p (cache st !! symbol)
                 (requests_for symbol st ++ [Fetch symbol None true]) st1).
  { subst st1. rewrite Hcall. split; cbn.
    - by apply Inv_issue.
    - apply lookup_insert_eq.
    - rewrite lookup_app_r by (subst p; lia). subst p. by rewrite Nat.sub_diag.
    - done.
    - unfold requests_for. cbn. rewrite List.filter_app. cbn.
      unfold string_eqb. by rewrite bool_decide_eq_true_2. }
  assert (Hsettled : forall f, In f (requests_for symbol st) -> f_promise f <> None).
  { intros [s r w] Hin Hr. cbn in Hr. subst r.
    apply List.filter_In in Hin as [Hin Hs].
    cbn in Hs. apply bool_decide_eq_true in Hs. subst s.
    apply list_elem_of_In, list_elem_of_lookup in Hin as [j Hj].
    destruct HI as [Ho _ Hf]. pose proof (Hf _ _ _ Hj). subst w.
    apply Ho in Hj. congruence. }
  assert (Hnone : List.filter
            (fun f => match f_promise f with None => true | Some _ => false end)
            (requests_for symbol st) = []).
  { apply filter_none. intros f Hin. specialize (Hsettled f Hin).
    by destruct (f_promise f). }
  split; [by rewrite Hcall|].
  split; [apply H1|].
  split.
  { intros pre t post ->. rewrite forallb_app in Hall.
    apply andb_prop in Hall as [Hpre Hpost]. cbn in Hpost.
    apply andb_prop in Hpost as [Ht _].
    unfold string_eqb in Ht. rewrite bool_decide_eq_true_2 in Ht by done.
    destruct (in_flight_for_run st symbol p _ pre st1 H1 Hpre) as [_ Hp' _ Hc' _].
    unfold getStockPrice_call. rewrite (fresh_cache st) by done.
    destruct (fresh st symbol t); [discriminate|]. by rewrite Hp'. }
  destruct (in_flight_for_run st symbol p _ evs st1 H1 Hall) as [HI' Hp' Hf' Hc' Hr'].
  fold st' in HI', Hp', Hf', Hc', Hr'.
  split; [done|].
  split.
  { unfold in_flight. rewrite Hr', List.filter_app, Hnone. done. }
  intros clk net v st2.
  assert (Hlt : (p < length (fetches st'))%nat) by by eapply lookup_lt_Some.
  assert (Hst2 : fetches st2 = <[p := Fetch symbol
            (Some (fetchStockData_result net symbol (iso clk))) true]> (fetches st')
          /\ pendingRequests st2 = pendingRequests st').
  { subst st2. unfold settle. by rewrite Hf'. }
  destruct Hst2 as [Hfe2 Hpe2].
  assert (Hl2 : fetches st2 !! p = Some (Fetch symbol
            (Some (fetchStockData_result net symbol (iso clk))) true)).
  { rewrite Hfe2. by apply list_lookup_insert_eq. }
  assert (Hres : fetches (resume p st2) = <[p := Fetch symbol
            (Some (fetchStockData_result net symbol (iso clk))) false]> (fetches st2)
          /\ pendingRequests (resume p st2) = delete symbol (pendingRequests st2)).
  { unfold resume. by rewrite Hl2. }
  destruct Hres as [Hfe3 Hpe3].
  assert (Hlt2 : (p < length (fetches st2))%nat) by by eapply lookup_lt_Some.
  assert (Hl3 : fetches (resume p st2) !! p = Some (Fetch symbol
            (Some (fetchStockData_result net symbol (iso clk))) false)).
  { rewrite Hfe3. by apply list_lookup_insert_eq. }
  assert (Hsplit : exists l1 l2, fetches st' = l1 ++ Fetch symbol None true :: l2
                                 /\ length l1 = p).
  { exists (take p (fetches st')), (drop (S p) (fetches st')). split.
    - rewrite <- (take_drop_middle _ _ _ Hf') at 1. done.
    - rewrite length_take. lia. }
  destruct Hsplit as (l1 & l2 & Hsp & Hlen).
  assert (Hfe3' : fetches (resume p st2) =
            l1 ++ Fetch symbol (Some (fetchStockData_result net symbol (iso clk))) false :: l2).
  { rewrite Hfe3, Hfe2, list_insert_insert_eq, Hsp. subst p.
    rewrite <- Hlen. rewrite insert_app_r_alt by lia. by rewrite Nat.sub_diag. }
  assert (Hreq' : requests_for symbol st' =
            List.filter (fun f => string_eqb (f_symbol f) symbol) l1
            ++ Fetch symbol None true
            :: List.filter (fun f => string_eqb (f_symbol f) symbol) l2).
  { unfold requests_for. rewrite Hsp, List.filter_app. cbn.
    unfold string_eqb at 2. by rewrite bool_decide_eq_true_2. }
  assert (Hreq3 : requests_for symbol (resume p st2) =
            List.filter (fun f => string_eqb (f_symbol f) symbol) l1
            ++ Fetch symbol (Some (fetchStockData_result net symbol (iso clk))) false
            :: List.filter (fun f => string_eqb (f_symbol f) symbol) l2).
  { unfold requests_for. rewrite Hfe3', List.filter_app. cbn.
    unfold string_eqb at 2. by rewrite bool_decide_eq_true_2. }
  assert (Hfl' : in_flight symbol st' = [Fetch symbol None true]).
  { unfold in_flight. rewrite Hr', List.filter_app, Hnone. done. }
  split; [|split; [|split; [|split]]].
  - unfold awaited. rewrite Hl2. subst v.
    by destruct (fetchStockData_result net symbol (iso clk)).
  - unfold awaited. rewrite Hl3. subst v.
    by destruct (fetchStockData_result net symbol (iso clk)).
  - rewrite Hpe3. apply lookup_delete_eq.
  - unfold in_flight in *. rewrite Hreq3. rewrite Hreq' in Hfl'.
    rewrite List.filter_app in *. cbn in *.
    destruct (List.filter _ (List.filter _ l1)); [|destruct l; discriminate].
    cbn in *. by inversion Hfl'.
  - pose proof (f_equal length Hr') as Hlen'. rewrite Hreq' in Hlen'.
    rewrite Hreq3. rewrite !length_app in *. cbn in *. lia.
Qed.

(** *** The cache *)

Lemma cache_hit_returns (st : state) (symbol : jsstring) (cached : CacheEntry) (now : Z) :
  cache st !! symbol = Some cached ->
  now - timestamp cached < 120000 ->
  getStockPrice_call now symbol st = (st, Returned (data cached)).
Proof.
  intros Hc Hage. unfold getStockPrice_call, fresh. rewrite Hc.
  unfold CACHE_DURATION. by rewrite (proj2 (Z.ltb_lt _ _) Hage).
Qed.

(** C2.  A call of [getStockPrice(symbol)] that finds a cache entry younger
    than the 120 seconds of [CACHE_DURATION] returns the data of that entry
    and leaves the service as it was: no query is posted. *)
Theorem getStockPrice_cache_hit
    (st : state) (symbol : jsstring) (cached : CacheEntry) (now : Z) :
  cache st !! symbol = Some cached ->
  now - timestamp cached < 120000 ->
  getStockPrice_call now symbol st = (st, Returned (data cached))
  /\ fetches (fst (getStockPrice_call now symbol st)) = fetches st.
Proof.
  intros Hc Hage. by rewrite (cache_hit_returns st symbol cached now Hc Hage).
Qed.

(** A second call within the time to live of what the first one fetched
    returns that very price and posts nothing. *)
Lemma getStockPrice_second_call clk p net st symbol w stockData now' :
  fetches st !! p = Some (Fetch symbol None w) ->
  fetchStockData_result net symbol (iso clk) = Normal (Some stockData) ->
  now' - now clk < 120000 ->
  getStockPrice_call now' symbol (settle clk p net st)
  = (settle clk p net st, Returned stockData).
Proof.
  intros Hf Hr Hage.
  apply (cache_hit_returns _ symbol (Build_CacheEntry stockData (now clk)));
    [|done].
  unfold settle. rewrite Hf, Hr. cbn. apply lookup_insert_eq.
Qed.

(** *** Every awaited promise settles *)

Lemma settle_fetches_length clk p net st :
  length (fetches (settle clk p net st)) = length (fetches st).
Proof.
  unfold settle. destruct (fetches st !! p) as [[s [r|] w]|]; try done.
  cbn. by rewrite length_insert.
Qed.

Lemma resume_fetches_length p st : length (fetches (resume p st)) = length (fetches st).
Proof.
  unfold resume. destruct (fetches st !! p) as [[s [r|] [|]]|]; try done.
  cbn. by rewrite length_insert.
Qed.

Lemma awaited_settle clk q net st p v :
  awaited st p = Some v -> awaited (settle clk q net st) p = Some v.
Proof.
  unfold awaited, settle. intros H.
  destruct (fetches st !! q) as [[s [r|] w]|] eqn:E; try done. cbn.
  destruct (decide (q = p)) as [->|Hne].
  - by rewrite E in H.
  - by rewrite list_lookup_insert_ne.
Qed.

Lemma awaited_resume q st p v :
  awaited st p = Some v -> awaited (resume q st) p = Some v.
Proof.
  unfold awaited, resume. intros H.
  destruct (fetches st !! q) as [[s [r|] [|]]|] eqn:E; try done. cbn.
  destruct (decide (q = p)) as [->|Hne].
  - rewrite E in H. rewrite list_lookup_insert_eq by by eapply lookup_lt_Some. done.
  - by rewrite list_lookup_insert_ne.
Qed.

Lemma awaited_after_settle clk p net st :
  (p < length (fetches st))%nat -> is_Some (awaited (settle clk p net st) p).
Proof.
  intros Hlt. destruct (lookup_lt_is_Some_2 _ _ Hlt) as [[s r w] E].
  unfold awaited, settle. rewrite E. destruct r as [r|].
  - rewrite E. by destruct r.
  - cbn. rewrite list_lookup_insert_eq by done.
    by destruct (fetchStockData_result net s (iso clk)).
Qed.

Lemma settle_one_length E t st o :
  length (fetches (settle_one E t st o)) = length (fetches st).
Proof.
  unfold settle_one. destruct (promise_of o); [|done].
  by rewrite resume_fetches_length, settle_fetches_length.
Qed.

Lemma settle_one_awaited E t st o p v :
  awaited st p = Some v -> awaited (settle_one E t st o) p = Some v.
Proof.
  unfold settle_one. intros H. destruct (promise_of o); [|done].
  by apply awaited_resume, awaited_settle.
Qed.

Lemma settle_one_Inv E t st o : Inv st -> Inv (settle_one E t st o).
Proof.
  unfold settle_one. intros H. destruct (promise_of o); [|done].
  by apply Inv_resume, Inv_settle.
Qed.

Lemma settle_all_Inv E t outs st : Inv st -> Inv (settle_all E t outs st).
Proof.
  revert st. induction outs as [|o outs IH]; intros st H; [done|].
  cbn. apply IH. by apply settle_one_Inv.
Qed.

Lemma settle_all_awaited E t outs st p v :
  awaited st p = Some v -> awaited (settle_all E t outs st) p = Some v.
Proof.
  revert st. induction outs as [|o outs IH]; intros st H; [done|].
  cbn. apply IH. by apply settle_one_awaited.
Qed.

Lemma settle_all_settles E t outs st :
  (forall o p, In o outs -> promise_of o = Some p -> (p < length (fetches st))%nat) ->
  forall o p, In o outs -> promise_of o = Some p ->
    is_Some (awaited (settle_all E t outs st) p).
Proof.
  revert st. induction outs as [|o outs IH]; intros st Hlt o' p Hin Hp; [done|].
  cbn. destruct Hin as [->|Hin].
  - assert (Hs : is_Some (awaited (settle_one E t st o') p)).
    { unfold settle_one. rewrite Hp.
      destruct (awaited_after_settle (clock_at E (t + Z.of_N (latency E p))) p
                  (net_of E p) st) as [v Hv]; [by apply (Hlt o' p); [left|]|].
      exists v. by apply awaited_resume. }
    destruct Hs as [v Hv]. exists v. by apply settle_all_awaited.
  - eapply IH; [|exact Hin|exact Hp].
    intros o2 p2 H2 Hp2. rewrite settle_one_length. apply (Hlt o2 p2); [by right|done].
Qed.

Lemma call_fetches_length now symbol st :
  (length (fetches st) <= length (fetches (fst (getStockPrice_call now symbol st))))%nat.
Proof.
  unfold getStockPrice_call. destruct (fresh st symbol now); [done|].
  destruct (pendingRequests st !! symbol); [done|]. cbn. rewrite length_app. lia.
Qed.

Lemma call_promise_bound now symbol st p :
  Inv st -> promise_of (snd (getStockPrice_call now symbol st)) = Some p ->
  (p < length (fetches (fst (getStockPrice_call now symbol st))))%nat.
Proof.
  intros [_ Hp _]. unfold getStockPrice_call. destruct (fresh st symbol now); [done|].
  destruct (pendingRequests st !! symbol) as [q|] eqn:E; cbn; intros H; injection H as <-.
  - destruct (Hp _ _ E) as [r Hr]. by eapply lookup_lt_Some.
  - rewrite length_app. cbn. lia.
Qed.

Lemma call_all_Inv t batch st :
  Inv st ->
  Inv (fst (call_all t batch st))
  /\ (length (fetches st) <= length (fetches (fst (call_all t batch st))))%nat
  /\ forall o p, In o (snd (call_all t batch st)) -> promise_of o = Some p ->
       (p < length (fetches (fst (call_all t batch st))))%nat.
Proof.
  revert st. induction batch as [|s batch IH]; intros st HI; [by cbn|]. cbn.
  pose proof (Inv_call t s st HI) as HI1.
  pose proof (call_fetches_length t s st) as Hlen.
  pose proof (call_promise_bound t s st) as Hb.
  destruct (getStockPrice_call t s st) as [st1 o]. cbn in *.
  destruct (IH st1 HI1) as (HI2 & Hlen2 & Hb2).
  destruct (call_all t batch st1) as [st2 os]. cbn in *.
  split; [done|]. split; [lia|].
  intros o' p [<-|Hin] Hp.
  - specialize (Hb p HI Hp). lia.
  - by eapply Hb2.
Qed.

(** *** The batches of [getMultipleStockPrices] *)

Lemma call_all_length t batch st : length (snd (call_all t batch st)) = length batch.
Proof.
  revert st. induction batch as [|s batch IH]; intros st; [done|]. cbn.
  destruct (getStockPrice_call t s st) as [st1 o].
  specialize (IH st1). destruct (call_all t batch st1) as [st2 os]. cbn in *. lia.
Qed.

Lemma run_batch_fields E t batch st timer :
  let b := run_batch E t batch st timer in
  b_start b = t /\ b_symbols b = batch /\ b_timer b = timer
  /\ b_outcomes b = snd (call_all t batch st)
  /\ b_end b = batch_end E t (snd (call_all t batch st))
  /\ b_state b = settle_all E t (snd (call_all t batch st)) (fst (call_all t batch st))
  /\ b_results b = List.map (result_of (b_state b)) (b_outcomes b).
Proof. unfold run_batch. by destruct (call_all t batch st). Qed.

Section Loop.

Variable E : env.
Variable symbols : list jsstring.

Local Abbreviation batch_at := (StockDataService.batch_at symbols).
Local Abbreviation more_after := (StockDataService.more_after symbols).
Local Abbreviation next_start := (StockDataService.next_start E symbols).
Local Abbreviation batch_of := (StockDataService.batch_of E symbols).
Local Abbreviation timed := (StockDataService.timed symbols).

Lemma batches_ind (P : nat -> Z -> state -> gmap jsstring StockPrice.t -> run_result -> Prop) :
  (forall i t st res, (length symbols <= i)%nat -> P i t st res (RunResult st t res [])) ->
  (forall i t st res r, (i < length symbols)%nat ->
     let b := batch_of i t st in
     P (i + batchSize)%nat (next_start i t st) (b_state b)
       (collect (batch_at i) (b_results b) res) r ->
     P i t st res (RunResult (r_state r) (r_time r) (r_results r) (b :: r_log r))) ->
  forall fuel i t st res, (length symbols - i <= fuel)%nat ->
    P i t st res (batches E symbols fuel i t st res).
Proof.
  intros Hdone Hstep. induction fuel as [|fuel IH]; intros i t st res Hfuel.
  - cbn. apply Hdone. lia.
  - cbn [batches]. destruct (i <? length symbols)%nat eqn:Hi.
    + apply Nat.ltb_lt in Hi. apply (Hstep i t st res _ Hi).
      apply IH. unfold batchSize. lia.
    + apply Nat.ltb_ge in Hi. by apply Hdone.
Qed.

Lemma batch_at_length i : length (batch_at i) = Nat.min batchSize (length symbols - i).
Proof. unfold StockDataService.batch_at. by rewrite length_take, length_drop. Qed.

Lemma batches_partition fuel i t st res :
  (length symbols - i <= fuel)%nat ->
  concat (List.map b_symbols (r_log (batches E symbols fuel i t st res))) = drop i symbols.
Proof.
  revert fuel i t st res.
  apply (batches_ind (fun i _ _ _ r => concat (List.map b_symbols (r_log r)) = drop i symbols)).
  - intros i t st res Hi. cbn. by rewrite drop_ge.
  - intros i t st res r Hi b IH. cbn.
    destruct (run_batch_fields E t (batch_at i) st
                (if more_after i then Some (next_start i t st) else None))
      as (_ & Hs & _). fold (batch_of i t st) in Hs. fold b in Hs.
    rewrite Hs, IH. unfold StockDataService.batch_at. rewrite <- drop_drop. apply take_drop.
Qed.

Lemma batches_slices fuel i t st res :
  (length symbols - i <= fuel)%nat ->
  forall k b, r_log (batches E symbols fuel i t st res) !! k = Some b ->
    b_symbols b = batch_at (i + batchSize * k) /\ (i + batchSize * k < length symbols)%nat.
Proof.
  revert fuel i t st res.
  apply (batches_ind (fun i _ _ _ r => forall k b, r_log r !! k = Some b ->
    b_symbols b = batch_at (i + batchSize * k) /\ (i + batchSize * k < length symbols)%nat)).
  - intros i t st res Hi k b H. cbn in H. by rewrite lookup_nil in H.
  - intros i t st res r Hi b IH [|k] b' H; cbn in H.
    + injection H as <-.
      destruct (run_batch_fields E t (batch_at i) st
                  (if more_after i then Some (next_start i t st) else None))
        as (_ & Hs & _). fold (batch_of i t st) in Hs. fold b in Hs.
      rewrite Hs. rewrite Nat.mul_0_r, Nat.add_0_r. done.
    + destruct (IH k b' H) as [H1 H2].
      replace (i + batchSize * S k)%nat with (i + batchSize + batchSize * k)%nat by lia.
      done.
Qed.

Lemma batch_end_ge t outs : t <= batch_end E t outs.
Proof. unfold batch_end. lia. Qed.

Lemma next_start_ge i t st :
  batch_end E t (snd (call_all t (batch_at i) st)) <= next_start i t st.
Proof. unfold StockDataService.next_start. destruct (more_after i); lia. Qed.

Lemma batches_timed fuel i t st res :
  (length symbols - i <= fuel)%nat -> timed i t (batches E symbols fuel i t st res).
Proof.
  revert fuel i t st res. apply (batches_ind (fun i t _ _ r => timed i t r)).
  - intros i t st res Hi. split; cbn; try done.
    intros b H. by apply elem_of_nil in H.
  - intros i t st res r Hi b [He Ht Hf Hn Hl Ho].
    destruct (run_batch_fields E t (batch_at i) st
                (if more_after i then Some (next_start i t st) else None))
      as (Hs & _ & Htm & _ & Hend & _).
    fold (batch_of i t st) in Hs, Htm, Hend. fold b in Hs, Htm, Hend.
    pose proof (batch_end_ge t (snd (call_all t (batch_at i) st))) as Hge.
    pose proof (next_start_ge i t st) as Hge'.
    split; cbn.
    + split; [done|lia].
    + done.
    + intros b' H. by injection H as <-.
    + intros [|k] b1 b2 H1 H2; cbn in H1, H2; [|by eapply Hn].
      injection H1 as <-. rewrite (Hf _ H2), Htm, Hend.
      unfold StockDataService.next_start in *. unfold StockDataService.more_after in *.
      destruct (i + batchSize <? length symbols)%nat eqn:Hm.
      * split; [done|lia].
      * apply Nat.ltb_ge in Hm. apply He in Hm. rewrite Hm in H2. done.
    + intros b' H. destruct (r_log r) as [|b1 l] eqn:El.
      * cbn in H. injection H as <-. rewrite Htm, Hend, Ht by done.
        assert (Hm : (length symbols <= i + batchSize)%nat) by by apply He.
        unfold StockDataService.next_start, StockDataService.more_after.
        apply Nat.ltb_ge in Hm. by rewrite Hm.
      * apply Hl. by rewrite <- H.
    + intros b' H. apply elem_of_cons in H as [->|H].
      * rewrite Hs, Hend. lia.
      * destruct (Ho _ H). lia.
Qed.

Lemma in_flight_at_app tau l1 l2 :
  in_flight_at tau (l1 ++ l2) = (in_flight_at tau l1 + in_flight_at tau l2)%nat.
Proof. unfold in_flight_at. by rewrite List.filter_app, length_app. Qed.

Lemma in_flight_at_none tau reqs :
  (forall r, In r reqs -> tau < fst r \/ snd r <= tau) -> in_flight_at tau reqs = O.
Proof.
  intros H. unfold in_flight_at. rewrite filter_none; [done|].
  intros r Hr. destruct (H r Hr).
  - apply andb_false_iff. left. by apply Z.leb_gt.
  - apply andb_false_iff. right. by apply Z.ltb_ge.
Qed.

Lemma in_flight_at_le tau reqs : (in_flight_at tau reqs <= length reqs)%nat.
Proof. unfold in_flight_at. apply List.filter_length_le. Qed.

Lemma latency_le_max (p : nat) (l : list nat) :
  In p l -> (latency E p <= fold_right N.max 0 (List.map (latency E) l))%N.
Proof.
  induction l as [|q l IH]; intros H; [done|]. cbn.
  destruct H as [->|H]; [lia|]. specialize (IH H). lia.
Qed.

Lemma own_promise_awaited (outs : list call_outcome) (p : nat) :
  In p (omap own_promise outs) -> In p (omap promise_of outs).
Proof.
  intros H. apply list_elem_of_In, list_elem_of_omap in H as (o & Ho & Hp).
  apply list_elem_of_In, list_elem_of_omap. exists o. split; [done|].
  by destruct o.
Qed.

Lemma omap_length_le {A B} (f : A -> option B) (l : list A) :
  (length (omap f l) <= length l)%nat.
Proof. induction l as [|a l IH]; cbn; [done|]. destruct (f a); cbn; lia. Qed.

(** The queries of one batch are posted at its start, settle by its end,
    and are at most [batchSize]. *)
Lemma posted_batch i t st timer :
  let b := run_batch E t (batch_at i) st timer in
  (length (posted E [b]) <= batchSize)%nat
  /\ forall r, In r (posted E [b]) -> fst r = t /\ snd r <= b_end b.
Proof.
  intros b. destruct (run_batch_fields E t (batch_at i) st timer)
    as (Hs & _ & _ & Hout & Hend & _). fold b in Hs, Hout, Hend.
  unfold posted. cbn. rewrite app_nil_r. split.
  - rewrite length_map. etrans; [apply omap_length_le|].
    rewrite Hout, call_all_length, batch_at_length. lia.
  - intros r Hr. apply in_map_iff in Hr as (p & <- & Hp). cbn.
    rewrite Hs, Hend. split; [done|]. rewrite <- Hout.
    apply own_promise_awaited, latency_le_max in Hp. unfold batch_end. lia.
Qed.

Lemma posted_cons b log : posted E (b :: log) = posted E [b] ++ posted E log.
Proof. unfold posted. cbn. by rewrite app_nil_r. Qed.

Lemma batches_in_flight fuel i t st res :
  (length symbols - i <= fuel)%nat ->
  let log := r_log (batches E symbols fuel i t st res) in
  (forall tau, (in_flight_at tau (posted E log) <= batchSize)%nat)
  /\ (forall r, In r (posted E log) -> t <= fst r).
Proof.
  revert fuel i t st res.
  apply (batches_ind (fun _ t _ _ r =>
    (forall tau, (in_flight_at tau (posted E (r_log r)) <= batchSize)%nat)
    /\ (forall q, In q (posted E (r_log r)) -> t <= fst q))).
  - intros i t st res Hi. cbn. split; [intros; unfold batchSize; lia|done].
  - intros i t st res r Hi b [IH1 IH2]. cbn [r_log].
    rewrite posted_cons.
    destruct (posted_batch i t st (if more_after i then Some (next_start i t st) else None))
      as [Hlen Hin]. fold (batch_of i t st) in Hlen, Hin. fold b in Hlen, Hin.
    destruct (run_batch_fields E t (batch_at i) st
                (if more_after i then Some (next_start i t st) else None))
      as (_ & _ & _ & _ & Hend & _). fold (batch_of i t st) in Hend. fold b in Hend.
    pose proof (batch_end_ge t (snd (call_all t (batch_at i) st))) as Hge.
    pose proof (next_start_ge i t st) as Hge'.
    split.
    + intros tau. rewrite in_flight_at_app.
      destruct (decide (tau < next_start i t st)) as [Hlt|Hnlt].
      * rewrite (in_flight_at_none tau (posted E (r_log r))).
        -- pose proof (in_flight_at_le tau (posted E [b])). lia.
        -- intros q Hq. left. specialize (IH2 q Hq). lia.
      * rewrite (in_flight_at_none tau (posted E [b])); [apply IH1|].
        intros q Hq. right. destruct (Hin q Hq). lia.
    + intros q Hq. apply in_app_or in Hq as [Hq|Hq].
      * destruct (Hin q Hq). lia.
      * specialize (IH2 q Hq). lia.
Qed.

Lemma collect_lookup (batch : list jsstring) (rs : list (option StockPrice.t))
    (res : gmap jsstring StockPrice.t) (s : jsstring) :
  is_Some (collect batch rs res !! s) <->
  is_Some (res !! s) \/ exists j d, batch !! j = Some s /\ rs !! j = Some (Some d).
Proof.
  revert rs res. induction batch as [|s0 batch IH]; intros rs res.
  - cbn. split; [by left|]. intros [H|(j & d & H & _)]; [done|]. done.
  - destruct rs as [|r rs].
    + cbn. split; [by left|]. intros [H|(j & d & _ & H)]; [done|]. done.
    + cbn [collect]. rewrite IH. split.
      * intros [H|(j & d & H1 & H2)].
        -- destruct r as [d0|]; [|by left].
           destruct (decide (s0 = s)) as [->|Hne].
           ++ right. by exists O, d0.
           ++ rewrite lookup_insert_ne in H by done. by left.
        -- right. by exists (S j), d.
      * intros [H|(j & d & H1 & H2)].
        -- left. destruct r as [d0|]; [|done].
           destruct (decide (s0 = s)) as [->|Hne].
           ++ rewrite lookup_insert_eq. by eexists.
           ++ by rewrite lookup_insert_ne.
        -- destruct j as [|j]; cbn in H1, H2.
           ++ injection H1 as ->. injection H2 as ->. left.
              rewrite lookup_insert_eq. by eexists.
           ++ right. by exists j, d.
Qed.

Lemma batches_results fuel i t st res :
  (length symbols - i <= fuel)%nat ->
  let r := batches E symbols fuel i t st res in
  forall s, is_Some (r_results r !! s) <->
    is_Some (res !! s)
    \/ exists b j d, b ∈ r_log r /\ b_symbols b !! j = Some s
                     /\ b_results b !! j = Some (Some d).
Proof.
  revert fuel i t st res.
  apply (batches_ind (fun _ _ _ res r =>
    forall s, is_Some (r_results r !! s) <->
      is_Some (res !! s)
      \/ exists b j d, b ∈ r_log r /\ b_symbols b !! j = Some s
                       /\ b_results b !! j = Some (Some d))).
  - intros i t st res Hi s. cbn. split; [by left|].
    intros [H|(b & j & d & H & _)]; [done|]. by apply elem_of_nil in H.
  - intros i t st res r Hi b IH s. cbn [r_results r_log].
    destruct (run_batch_fields E t (batch_at i) st
                (if more_after i then Some (next_start i t st) else None))
      as (_ & Hs & _). fold (batch_of i t st) in Hs. fold b in Hs.
    rewrite IH, collect_lookup. split.
    + intros [[H|(j & d & H1 & H2)]|(b' & j & d & Hb & H1 & H2)].
      * by left.
      * right. exists b, j, d. rewrite Hs. split; [by left|done].
      * right. exists b', j, d. split; [by right|done].
    + intros [H|(b' & j & d & Hb & H1 & H2)]; [by left; left|].
      apply elem_of_cons in Hb as [->|Hb].
      * left. right. exists j, d. by rewrite <- Hs.
      * right. by exists b', j, d.
Qed.

(** Started in a state that satisfies the invariant, a run awaits only
    promises that have settled when [Promise.all] resolves. *)
Lemma batches_resolved fuel i t st res :
  (length symbols - i <= fuel)%nat -> Inv st ->
  let r := batches E symbols fuel i t st res in
  Inv (r_state r)
  /\ forall b o p, b ∈ r_log r -> In o (b_outcomes b) -> promise_of o = Some p ->
       is_Some (awaited (b_state b) p).
Proof.
  revert fuel i t st res.
  apply (batches_ind (fun _ _ st _ r => Inv st ->
    Inv (r_state r)
    /\ forall b o p, b ∈ r_log r -> In o (b_outcomes b) -> promise_of o = Some p ->
         is_Some (awaited (b_state b) p))).
  - intros i t st res Hi HI. cbn. split; [done|].
    intros b o p H. by apply elem_of_nil in H.
  - intros i t st res r Hi b IH HI. cbn [r_state r_log].
    destruct (run_batch_fields E t (batch_at i) st
                (if more_after i then Some (next_start i t st) else None))
      as (_ & _ & _ & Hout & _ & Hst & _).
    fold (batch_of i t st) in Hout, Hst. fold b in Hout, Hst.
    destruct (call_all_Inv t (batch_at i) st HI) as (HI1 & _ & Hb).
    assert (HI2 : Inv (b_state b)) by (rewrite Hst; by apply settle_all_Inv).
    destruct (IH HI2) as [HI3 Hres]. split; [done|].
    intros b' o p Hb' Ho Hp. apply elem_of_cons in Hb' as [->|Hb'].
    + rewrite Hst. rewrite Hout in Ho. by eapply settle_all_settles.
    + by eapply Hres.
Qed.

Lemma batches_are_batches fuel i t st res :
  (length symbols - i <= fuel)%nat ->
  forall b, b ∈ r_log (batches E symbols fuel i t st res) ->
    exists st_b, b = run_batch E (b_start b) (b_symbols b) st_b (b_timer b).
Proof.
  revert fuel i t st res.
  apply (batches_ind (fun _ _ _ _ r => forall b, b ∈ r_log r ->
    exists st_b, b = run_batch E (b_start b) (b_symbols b) st_b (b_timer b))).
  - intros i t st res Hi b H. by apply elem_of_nil in H.
  - intros i t st res r Hi b IH b' H. cbn in H. apply elem_of_cons in H as [->|H].
    + exists st.
      destruct (run_batch_fields E t (batch_at i) st
                  (if more_after i then Some (next_start i t st) else None))
        as (Hs & Hsy & Htm & _).
      fold (batch_of i t st) in Hs, Hsy, Htm. fold b in Hs, Hsy, Htm.
      by rewrite Hs, Hsy, Htm.
    + by apply IH.
Qed.

End Loop.

Lemma run_batch_awaits E t batch st timer :
  let b := run_batch E t batch st timer in
  length (b_outcomes b) = length batch
  /\ b_results b = List.map (result_of (b_state b)) (b_outcomes b)
  /\ forall o p, In o (b_outcomes b) -> promise_of o = Some p ->
       b_start b + Z.of_N (latency E p) <= b_end b.
Proof.
  intros b. destruct (run_batch_fields E t batch st timer)
    as (Hs & _ & _ & Hout & Hend & _ & Hres). fold b in Hs, Hout, Hend, Hres.
  split; [by rewrite Hout, call_all_length|]. split; [done|].
  intros o p Ho Hp. rewrite Hs, Hend, <- Hout. unfold batch_end.
  assert (Hin : In p (omap promise_of (b_outcomes b))).
  { apply list_elem_of_In, list_elem_of_omap. exists o. by rewrite list_elem_of_In. }
  apply (latency_le_max E) in Hin. lia.
Qed.


(** *** A backend that cannot be reached *)

Lemma fetchStockData_returns net symbol iso :
  exists v, fetchStockData_result net symbol iso = Normal v.
Proof.
  unfold fetchStockData_result, try_catch, mbind, completion_bind.
  destruct net as [e|[|] [d|e]]; cbn; eauto.
  destruct (parseStockResponse_returns d symbol iso) as [v ->]. eauto.
Qed.

(** A rejected [fetch], a response that is not [ok], a body that is not
    JSON and an answer that has no text all settle to [null]. *)
Lemma fetchStockData_failures symbol iso e ok body :
  fetchStockData_result (NetFailure e) symbol iso = Normal None
  /\ fetchStockData_result (NetResponse false body) symbol iso = Normal None
  /\ fetchStockData_result (NetResponse ok (Throw e)) symbol iso = Normal None
  /\ fetchStockData_result (NetResponse ok (Normal JNull)) symbol iso = Normal None.
Proof. by destruct ok. Qed.

Lemma no_price_call t symbol st :
  fresh st symbol t = None -> no_price_settled st ->
  let '(st1, o) := getStockPrice_call t symbol st in
  cache st1 = cache st /\ no_price_settled st1 /\ is_Some (promise_of o).
Proof.
  intros Hfresh H0. unfold getStockPrice_call. rewrite Hfresh.
  destruct (pendingRequests st !! symbol) as [q|]; [by eauto|].
  split; [done|]. split; [|by eauto].
  intros p v. unfold awaited. cbn. intros H.
  destruct (fetches st !! p) as [f|] eqn:E.
  - rewrite (lookup_app_l_Some _ _ _ _ E) in H. apply (H0 p v).
    unfold awaited. by rewrite E.
  - apply lookup_ge_None in E. rewrite lookup_app_r in H by done.
    by destruct (p - length (fetches st))%nat as [|[|n]].
Qed.

Lemma no_price_call_all t batch st :
  (forall s, In s batch -> fresh st s t = None) -> no_price_settled st ->
  cache (fst (call_all t batch st)) = cache st
  /\ no_price_settled (fst (call_all t batch st))
  /\ Forall (fun o => is_Some (promise_of o)) (snd (call_all t batch st)).
Proof.
  revert st. induction batch as [|s batch IH]; intros st Hfresh H0; [by cbn|]. cbn.
  pose proof (no_price_call t s st (Hfresh s (or_introl eq_refl)) H0) as H1.
  destruct (getStockPrice_call t s st) as [st1 o]. destruct H1 as (Hc1 & H01 & Ho).
  destruct (IH st1) as (Hc2 & H02 & Hos); [|done|].
  { intros s' Hs'. unfold fresh. rewrite Hc1. apply Hfresh. by right. }
  destruct (call_all t batch st1) as [st2 os]. cbn in *.
  split; [congruence|]. split; [done|]. by constructor.
Qed.

Lemma no_price_settle clk p E st :
  gives_no_price E -> no_price_settled st ->
  cache (settle clk p (net_of E p) st) = cache st
  /\ no_price_settled (settle clk p (net_of E p) st).
Proof.
  intros HE H0. unfold settle.
  destruct (fetches st !! p) as [[s [r|] w]|] eqn:Ef; try done.
  rewrite HE. cbn. split; [done|].
  intros q v. unfold awaited. cbn. destruct (decide (p = q)) as [->|Hne].
  - rewrite list_lookup_insert_eq by by eapply lookup_lt_Some. by intros [= <-].
  - rewrite list_lookup_insert_ne by done. apply (H0 q v).
Qed.

Lemma no_price_resume p st :
  no_price_settled st ->
  cache (resume p st) = cache st /\ no_price_settled (resume p st).
Proof.
  intros H0. split.
  - unfold resume. by destruct (fetches st !! p) as [[s [r|] [|]]|].
  - intros q v Hq. destruct (awaited st q) as [v'|] eqn:E.
    + rewrite (awaited_resume p st q v' E) in Hq. injection Hq as <-. by apply (H0 q).
    + revert Hq. unfold awaited, resume in *.
      destruct (fetches st !! p) as [[s [r|] [|]]|] eqn:Ef; cbn; try by rewrite E.
      destruct (decide (p = q)) as [->|Hne].
      * rewrite Ef in E. by destruct r.
      * rewrite list_lookup_insert_ne by done. by rewrite E.
Qed.

Lemma no_price_settle_all E t outs st :
  gives_no_price E -> no_price_settled st ->
  cache (settle_all E t outs st) = cache st
  /\ no_price_settled (settle_all E t outs st).
Proof.
  intros HE. revert st. induction outs as [|o outs IH]; intros st H0; [done|].
  change (settle_all E t (o :: outs) st)
    with (settle_all E t outs (settle_one E t st o)).
  assert (H1 : cache (settle_one E t st o) = cache st
               /\ no_price_settled (settle_one E t st o)).
  { unfold settle_one. destruct (promise_of o) as [p|]; [|done].
    destruct (no_price_settle (clock_at E (t + Z.of_N (latency E p))) p E st HE H0)
      as [Hc H1].
    destruct (no_price_resume p _ H1) as [Hc' H2]. split; [congruence|done]. }
  destruct H1 as [Hc H1]. destruct (IH _ H1) as [Hc' H2]. split; [congruence|done].
Qed.

Lemma collect_nothing (batch : list jsstring) (rs : list (option StockPrice.t))
    (res : gmap jsstring StockPrice.t) :
  Forall (fun r => r = None) rs -> collect batch rs res = res.
Proof.
  revert rs res. induction batch as [|s batch IH]; intros rs res H; [done|].
  destruct rs as [|r rs]; [done|]. apply Forall_cons in H as [-> H]. cbn. by apply IH.
Qed.

Lemma no_price_batch E t batch st timer :
  gives_no_price E -> no_price_settled st ->
  (forall s, In s batch -> fresh st s t = None) ->
  let b := run_batch E t batch st timer in
  cache (b_state b) = cache st /\ no_price_settled (b_state b)
  /\ Forall (fun r => r = None) (b_results b).
Proof.
  intros HE H0 Hfresh b.
  destruct (run_batch_fields E t batch st timer) as (_ & _ & _ & Hout & _ & Hst & Hres).
  fold b in Hout, Hst, Hres.
  destruct (no_price_call_all t batch st Hfresh H0) as (Hc1 & H1 & Hos).
  destruct (no_price_settle_all E t (snd (call_all t batch st)) _ HE H1) as (Hc2 & H2).
  rewrite <- Hst in Hc2, H2. split; [congruence|]. split; [done|].
  rewrite Hres, Hout. apply Forall_map. eapply Forall_impl; [exact Hos|].
  intros o [p Hp]. destruct o as [d|q|q]; cbn in *; [discriminate| |];
    (destruct (awaited (b_state b) q) as [v|] eqn:Ea; [|done]; cbn; by apply (H2 q)).
Qed.

(** When the backend gives no price and the service holds none that is
    fresh, [getMultipleStockPrices] returns the empty map. *)
Lemma getMultipleStockPrices_no_price E symbols t st :
  gives_no_price E -> no_price_settled st ->
  (forall s t', In s symbols -> fresh st s t' = None) ->
  r_results (getMultipleStockPrices E symbols t st) = ∅.
Proof.
  intros HE H0 Hfresh. unfold getMultipleStockPrices.
  assert (Hgen : forall fuel i t' st' res, (length symbols - i <= fuel)%nat ->
            cache st' = cache st -> no_price_settled st' -> res = ∅ ->
            r_results (batches E symbols fuel i t' st' res) = ∅).
  { apply (batches_ind E symbols
      (fun i t' st' res r => cache st' = cache st -> no_price_settled st' -> res = ∅ ->
                             r_results r = ∅)).
    - by intros i t0 st0 res0 Hi Hc H0' ->.
    - intros i t0 st0 res0 r Hi b IH Hc H0' ->.
      destruct (no_price_batch E t0 (batch_at symbols i) st0
                  (if more_after symbols i
                   then Some (next_start E symbols i t0 st0) else None) HE H0')
        as (Hc1 & H1 & Hnone).
      { intros s Hs. unfold fresh. rewrite Hc. apply Hfresh.
        unfold batch_at in Hs. apply list_elem_of_In in Hs.
        apply list_elem_of_In. by eapply subseteq_drop, subseteq_take. }
      fold (batch_of E symbols i t0 st0) in Hc1, H1, Hnone. fold b in Hc1, H1, Hnone.
      cbn. apply IH; [congruence | done |]. by apply collect_nothing. }
  apply Hgen; [lia|done|done|done].
Qed.

End Service.

(** *** The theorems at concrete inputs *)

(** Three calls for AAPL and one for MSFT before any request settles: one
    query for AAPL is posted. *)
Lemma getStockPrice_deduplicates_witness :
  length (requests_for (lit "AAPL")
            (run (host := ascii_host)
               [Call 5 (lit "AAPL"); Call 6 (lit "AAPL"); Call 7 (lit "MSFT");
                Call 8 (lit "AAPL")]
               initial)) = 1%nat.
Proof.
  pose proof (getStockPrice_deduplicates (host := ascii_host) [] (lit "AAPL") 5
                [Call 6 (lit "AAPL"); Call 7 (lit "MSFT"); Call 8 (lit "AAPL")]
                eq_refl eq_refl eq_refl) as (_ & _ & _ & H & _).
  exact (f_equal length H).
Defined.

(** A call 119999 milliseconds after the entry was cached is served from the
    cache. *)
Lemma getStockPrice_cache_hit_witness :
  exists cached,
    cache cached_state !! lit "AAPL" = Some cached
    /\ getStockPrice_call 120999 (lit "AAPL") cached_state
       = (cached_state, Returned (data cached)).
Proof.
  eexists. split; [vm_compute; reflexivity|].
  apply (getStockPrice_cache_hit cached_state (lit "AAPL") _ 120999);
    vm_compute; reflexivity.
Defined.

Lemma parseStockResponse_null_without_price_witness :
  is_Some (match_ true changeRe answer_without_price)
  /\ is_Some (match_ true previousCloseRe answer_without_price)
  /\ is_Some (match_ true volumeRe answer_without_price)
  /\ parseStockResponse (host := ascii_host) (answer_string answer_without_price)
       (lit "TCS") (lit "2024-01-15T09:30:00.000Z") = Normal None.
Proof.
  split; [vm_compute; eexists; reflexivity|].
  split; [vm_compute; eexists; reflexivity|].
  split; [vm_compute; eexists; reflexivity|].
  apply (parseStockResponse_null_without_price (host := ascii_host)
           (answer_string answer_without_price) answer_without_price);
    vm_compute; reflexivity.
Defined.

Lemma parseStockResponse_defaults_witness :
  exists sp,
    parseStockResponse (host := ascii_host) (answer_object answer_price_only)
      (lit "tcs") (lit "2024-01-15T09:30:00.000Z") = Normal (Some sp)
    /\ StockPrice.current_price sp = 1500%float
    /\ StockPrice.change sp = 0%float
    /\ StockPrice.change_percent sp = 0%float
    /\ StockPrice.volume sp = 0%float.
Proof.
  edestruct (parseStockResponse_defaults (host := ascii_host) (answer_object answer_price_only)
               answer_price_only (lit "tcs") (lit "2024-01-15T09:30:00.000Z"))
    as (sp & Hsp & Hprice & Hchange & _ & Hvolume & _);
    [reflexivity | vm_compute; reflexivity |].
  exists sp. split; [exact Hsp|].
  split; [rewrite Hprice; vm_compute; reflexivity|].
  destruct Hchange as [Hc Hcp]; [vm_compute; reflexivity|].
  split; [exact Hc|]. split; [exact Hcp|].
  apply Hvolume. vm_compute. reflexivity.
Defined.

Example getMultipleStockPrices_seven :
  let r := getMultipleStockPrices (host := ascii_host) example_env
             [lit "AAPL"; lit "GOOGL"; lit "MSFT"; lit "TSLA"; lit "NVDA"; lit "AAPL";
              lit "META"]
             1000 initial in
  List.map (fun b => (b_start b, length (b_symbols b), b_end b, b_timer b)) (r_log r)
  = [(1000, 3%nat, 1200, Some 1707); (1707, 3%nat, 2107, Some 2614);
     (2614, 1%nat, 3114, None)]
  /\ List.map b_outcomes (r_log r)
     = [[AwaitsOwn 0; AwaitsOwn 1; AwaitsOwn 2];
        [AwaitsOwn 3; AwaitsOwn 4; match r_results r !! lit "AAPL" with
                                   | Some d => Returned d
                                   | None => AwaitsOwn 5
                                   end];
        [AwaitsOwn 5]]
  /\ List.map (fun s => match r_results r !! s with Some _ => true | None => false end)
       [lit "AAPL"; lit "GOOGL"; lit "MSFT"; lit "TSLA"; lit "NVDA"; lit "META"]
     = [true; false; true; true; false; true]
  /\ size (r_results r) = 4%nat.
Proof.
  cbv zeta. split; [vm_compute; reflexivity|]. split; [vm_compute; reflexivity|].
  split; vm_compute; reflexivity.
Qed.

(** A text with the label in capitals, a rupee sign that no amount
    follows before the one that an amount follows, and a volume. *)
Lemma parseStockResponse_reads_first_amounts_witness :
  let content := lit "CURRENT PRICE (" ++ [rupee] ++ lit "): " ++ [rupee]
                 ++ lit "1,250.50 Volume 3,400" in
  exists d,
    parseStockResponse (host := ascii_host) (answer_string content)
      (lit "tcs") (lit "2024-01-15T09:30:00.000Z")
    = Normal (Some d)
    /\ StockPrice.current_price d = 1250.5%float
    /\ StockPrice.volume d = 3400%float.
Proof.
  intros content.
  pose proof (parseStockResponse_reads_first_amounts (host := ascii_host)
                (answer_string content) content
                (lit "tcs") (lit "2024-01-15T09:30:00.000Z") eq_refl) as H.
  replace (first_labelled (lit "Current Price") rupee_amount_at content)
    with (Some (lit "1,250.50")) in H by (vm_compute; reflexivity).
  replace (first_labelled (lit "Volume") digits_and_commas_at content)
    with (Some (lit "3,400")) in H by (vm_compute; reflexivity).
  destruct H as (d & Hd & Hprice & _ & Hvolume).
  exists d. split; [exact Hd|]. rewrite Hprice, Hvolume. split; vm_compute; reflexivity.
Defined.

(** *** The other operations of the service *)

Section Operations.

Import Json.

Context `{host : Host} `{numbers : NumberHost}.

(** *** The invariant, with [clearCache] *)

Lemma Inv_clearCache st : Inv st -> Inv (clearCache st).
Proof. intros [Ho Hp Hf]. by split. Qed.

Lemma Inv_run_operations ops st : Inv st -> Inv (run_operations ops st).
Proof.
  revert st. induction ops as [|o ops IH]; intros st H; [done|].
  cbn. apply IH. destruct o; cbn; [by apply Inv_step | by apply Inv_clearCache].
Qed.

(** X6.  Whatever calls of [getStockPrice] and of [clearCache] are made and
    however the requests settle, at no time are two requests for the same
    symbol in flight. *)
Theorem requests_never_overlap (ops : list operation) (symbol : jsstring) :
  (length (in_flight symbol (run_operations ops initial)) <= 1)%nat.
Proof.
  pose proof (Inv_run_operations ops initial Inv_initial) as [Ho Hp Hf].
  unfold in_flight, requests_for. rewrite filter_filter_andb.
  apply filter_at_most_one. intros i j [s1 r1 w1] [s2 r2 w2] Hi Hj H1 H2.
  cbn in H1, H2. apply andb_prop in H1 as [E1 N1], H2 as [E2 N2].
  apply bool_decide_eq_true in E1, E2. subst s1 s2.
  destruct r1, r2; try discriminate.
  pose proof (Hf _ _ _ Hi). pose proof (Hf _ _ _ Hj). subst.
  apply Ho in Hi, Hj. congruence.
Qed.

(** *** Where the entries of the cache come from *)

Lemma parse_content_parsed content symbol iso d :
  parse_content content symbol iso = Some d -> parsed_for symbol d.
Proof.
  unfold parse_content. destruct (match_ true priceRe content); [|done].
  intros [= <-]. by repeat split.
Qed.

Lemma fetchStockData_parsed net symbol iso d :
  fetchStockData_result net symbol iso = Normal (Some d) -> parsed_for symbol d.
Proof.
  unfold fetchStockData_result, try_catch.
  destruct net as [e|ok body]; [done|]. destruct ok; [|done]. cbn.
  destruct body as [data|e]; [|done]. cbn.
  unfold parseStockResponse, try_catch.
  destruct (answer_content data) as [[c|]|e]; cbn; try done.
  intros [= H]. by apply parse_content_parsed in H.
Qed.

Lemma sourced_call now symbol st : sourced st -> sourced (fst (getStockPrice_call now symbol st)).
Proof.
  intros H. unfold getStockPrice_call.
  destruct (fresh st symbol now); [done|].
  destruct (pendingRequests st !! symbol); [done|]. cbn.
  intros s e He. destruct (H s e He) as (Hp & p & w & Hf). split; [done|].
  exists p, w. cbn. by apply lookup_app_l_Some.
Qed.

Lemma sourced_settle clk p net st : sourced st -> sourced (settle clk p net st).
Proof.
  intros H. unfold settle.
  destruct (fetches st !! p) as [[symbol [r|] w]|] eqn:E; try done.
  assert (Hlt : (p < length (fetches st))%nat) by by eapply lookup_lt_Some.
  assert (Hold : forall s e, cache st !! s = Some e ->
            parsed_for s (data e)
            /\ exists q w', <[p := Fetch symbol (Some (fetchStockData_result net symbol (iso clk))) w]>
                             (fetches st) !! q
                           = Some (Fetch s (Some (Normal (Some (data e)))) w')).
  { intros s e He. destruct (H s e He) as (Hp & q & w' & Hq). split; [done|].
    exists q, w'. rewrite list_lookup_insert_ne; [done|]. intros ->. congruence. }
  destruct (fetchStockData_result net symbol (iso clk)) as [[d|]|err] eqn:Hr;
    unfold sourced; cbn; try exact Hold.
  intros s e. destruct (decide (symbol = s)) as [<-|Hne].
  - rewrite lookup_insert_eq. intros [= <-]. cbn. split.
    + by eapply fetchStockData_parsed.
    + exists p, w. by rewrite list_lookup_insert_eq.
  - rewrite lookup_insert_ne by done. apply Hold.
Qed.

Lemma sourced_resume p st : sourced st -> sourced (resume p st).
Proof.
  intros H. unfold resume.
  destruct (fetches st !! p) as [[symbol [r|] [|]]|] eqn:E; try done. cbn.
  assert (Hlt : (p < length (fetches st))%nat) by by eapply lookup_lt_Some.
  intros s e He. destruct (H s e He) as (Hp & q & w' & Hq). split; [done|].
  destruct (decide (p = q)) as [<-|Hne].
  - exists p, false. cbn. rewrite list_lookup_insert_eq by done. congruence.
  - exists q, w'. cbn. by rewrite list_lookup_insert_ne.
Qed.

Lemma sourced_run_operations ops st : sourced st -> sourced (run_operations ops st).
Proof.
  revert st. induction ops as [|o ops IH]; intros st H; [done|].
  cbn. apply IH. destruct o as [[now s|clk p net|p]|]; cbn.
  - by apply sourced_call.
  - by apply sourced_settle.
  - by apply sourced_resume.
  - intros s e He. cbn in He. by rewrite lookup_empty in He.
Qed.

(** X7.  Whatever calls are made and however the requests settle, an entry
    of the cache under the key [s] holds a price that a request for [s]
    resolved to, never [null] and never the price of another key: its
    [symbol] is [s] in upper case, its [name] the company name of [s], its
    [open] its [previous_close] and its [market_cap] [N/A]. *)
Theorem cache_holds_fetched_prices
    (ops : list operation) (s : jsstring) (e : CacheEntry) :
  cache (run_operations ops initial) !! s = Some e ->
  (exists p w, fetches (run_operations ops initial) !! p
               = Some (Fetch s (Some (Normal (Some (data e)))) w))
  /\ StockPrice.symbol (data e) = toUpperCase s
  /\ StockPrice.name (data e) = getCompanyName s
  /\ StockPrice.open (data e) = StockPrice.previous_close (data e)
  /\ StockPrice.market_cap (data e) = lit "N/A".
Proof.
  intros He.
  assert (H0 : sourced initial) by (intros s0 e0 H; cbn in H; by rewrite lookup_empty in H).
  destruct (sourced_run_operations ops initial H0 s e He) as ((H1 & H2 & H3 & H4) & Hp).
  done.
Qed.

(** *** One call of [getStockPrice] *)

Lemma getStockPrice_cached E t symbol st cached :
  cache st !! symbol = Some cached -> t - timestamp cached < 120000 ->
  getStockPrice E t symbol st = (st, t, Some (data cached)).
Proof.
  intros Hc Hage. unfold getStockPrice.
  rewrite (cache_hit_returns st symbol cached t Hc Hage). cbn.
  unfold batch_end. cbn. by rewrite Z.add_0_r.
Qed.

(** A call that finds neither a fresh entry nor a pending request posts one
    query and resolves to what [fetchStockData] makes of its outcome. *)
Lemma getStockPrice_fetches E t symbol st :
  fresh st symbol t = None -> pendingRequests st !! symbol = None ->
  let p := length (fetches st) in
  let '(st', t', v) := getStockPrice E t symbol st in
  t' = t + Z.of_N (latency E p)
  /\ v = returned_value
           (fetchStockData_result (net_of E p) symbol (iso_of E t'))
  /\ length (fetches st') = S p
  /\ pendingRequests st' = pendingRequests st.
Proof.
  intros Hf Hp p. unfold getStockPrice, getStockPrice_call. rewrite Hf, Hp. fold p.
  assert (Hend : batch_end E t [AwaitsOwn p] = t + Z.of_N (latency E p)).
  { unfold batch_end. cbn. by rewrite N.max_0_r. }
  rewrite Hend. unfold settle_one. cbn [promise_of].
  set (clk := clock_at E (t + Z.of_N (latency E p))).
  set (st1 := State _ _ _).
  assert (E1 : fetches st1 !! p = Some (Fetch symbol None true)).
  { unfold st1. cbn. rewrite lookup_app_r by done. unfold p. by rewrite Nat.sub_diag. }
  assert (Hlt : (p < length (fetches st1))%nat) by by eapply lookup_lt_Some.
  split; [done|].
  set (r := fetchStockData_result (net_of E p) symbol (iso clk)).
  assert (E2 : fetches (settle clk p (net_of E p) st1) !! p
               = Some (Fetch symbol (Some r) true)).
  { unfold settle. rewrite E1. cbn. by rewrite list_lookup_insert_eq. }
  assert (E3 : fetches (resume p (settle clk p (net_of E p) st1)) !! p
               = Some (Fetch symbol (Some r) false)).
  { unfold resume. rewrite E2. cbn. rewrite list_lookup_insert_eq; [done|].
    by rewrite settle_fetches_length. }
  split.
  { unfold result_of, awaited. rewrite E3.
    change (iso_of E (t + Z.of_N (latency E p))) with (iso clk). fold r. by destruct r. }
  split.
  { rewrite resume_fetches_length, settle_fetches_length. unfold st1. cbn.
    rewrite length_app. cbn. lia. }
  unfold resume. rewrite E2. cbn. unfold settle. rewrite E1. cbn.
  unfold st1. cbn. rewrite delete_insert_eq. by apply delete_id.
Qed.

(** X8.  With a price of AAPL in the cache that is less than 120 seconds
    old, [testConnection] reports [true] at once and without a request,
    whatever the backend would answer. *)
Theorem testConnection_from_cache (E : env) (t : Z) (st : state) (cached : CacheEntry) :
  cache st !! lit "AAPL" = Some cached ->
  t - timestamp cached < 120000 ->
  testConnection E t st = (st, t, true).
Proof.
  intros Hc Hage. unfold testConnection.
  by rewrite (getStockPrice_cached E t (lit "AAPL") st cached Hc Hage).
Qed.

(** X9.  With neither a fresh price of AAPL in the cache nor a request for
    AAPL pending, [testConnection] posts exactly one query and reports
    [true] exactly when [fetchStockData] makes a price of the answer: a
    backend that answers without a labelled price counts as not connected. *)
Theorem testConnection_needs_a_price (E : env) (t : Z) (st : state) :
  fresh st (lit "AAPL") t = None ->
  pendingRequests st !! lit "AAPL" = None ->
  let p := length (fetches st) in
  let '(st', t', connected) := testConnection E t st in
  length (fetches st') = S p
  /\ t' = t + Z.of_N (latency E p)
  /\ (connected = true <->
      exists d, fetchStockData_result (net_of E p) (lit "AAPL") (iso_of E t')
                = Normal (Some d)).
Proof.
  intros Hf Hp p. unfold testConnection.
  pose proof (getStockPrice_fetches E t (lit "AAPL") st Hf Hp) as H.
  destruct (getStockPrice E t (lit "AAPL") st) as [[st' t'] v].
  destruct H as (Ht & Hv & Hl & _). fold p in Ht, Hv, Hl.
  split; [done|]. split; [done|]. rewrite Hv.
  destruct (fetchStockData_result _ _ _) as [[d|]|e]; cbn -[lit]; split; try done; eauto;
    by intros [d' H'].
Qed.

Lemma getStockPrice_no_price E t symbol st :
  gives_no_price E -> no_price_settled st -> fresh st symbol t = None ->
  snd (getStockPrice E t symbol st) = None.
Proof.
  intros HE H0 Hf.
  pose proof (no_price_batch E t [symbol] st None HE H0) as H.
  destruct H as (_ & _ & Hres).
  { intros s [<-|[]]. done. }
  revert Hres. unfold getStockPrice, run_batch. cbn [call_all].
  destruct (getStockPrice_call t symbol st) as [st1 o]. cbn -[lit].
  by intros [-> _]%Forall_cons.
Qed.

(** X10.  [updateInvestmentWithRealData] changes nothing but the price,
    the change, the change in percent and the current value of a position:
    the identifier, the ticker, the name, the type, the purchase value and
    the quantity are kept, and the current value it writes is the price it
    writes times the quantity. *)
Theorem updateInvestment_keeps_position
    (E : env) (t : Z) (investment : Investment.t) (st : state) :
  let updated := snd (updateInvestmentWithRealData E t investment st) in
  Investment.id updated = Investment.id investment
  /\ Investment.ticker updated = Investment.ticker investment
  /\ Investment.name updated = Investment.name investment
  /\ Investment.type updated = Investment.type investment
  /\ Investment.purchaseValue updated = Investment.purchaseValue investment
  /\ Investment.quantity updated = Investment.quantity investment
  /\ (updated = investment
      \/ Investment.currentValue updated
         = (Investment.price updated * Investment.quantity investment)%float).
Proof.
  unfold updateInvestmentWithRealData.
  destruct (getStockPrice E t (Investment.ticker investment) st) as [[st' t'] [d|]]; cbn -[lit].
  - repeat split. by right.
  - repeat split. by left.
Qed.

(** X11.  When the backend gives no price and the service holds none that
    is fresh, [updateInvestmentWithRealData] returns the investment it was
    given. *)
Theorem updateInvestment_without_price
    (E : env) (t : Z) (investment : Investment.t) (st : state) :
  gives_no_price E -> no_price_settled st ->
  fresh st (Investment.ticker investment) t = None ->
  snd (updateInvestmentWithRealData E t investment st) = investment.
Proof.
  intros HE H0 Hf. unfold updateInvestmentWithRealData.
  pose proof (getStockPrice_no_price E t (Investment.ticker investment) st HE H0 Hf) as H.
  destruct (getStockPrice E t (Investment.ticker investment) st) as [[st' t'] v].
  cbn in H. by subst v.
Qed.

(** *** The lists of stocks *)

Lemma null_or_not (v : json) : v = JNull \/ v <> JNull.
Proof. destruct v; [by left | by right..]. Qed.

Lemma map_all_Forall2 {A B} (f : A -> completion B) (xs : list A) (ys : list B) :
  map_all f xs = Normal ys <-> Forall2 (fun x y => f x = Normal y) xs ys.
Proof.
  revert ys. induction xs as [|x xs IH]; intros ys; cbn -[lit].
  - split; [intros [= <-]; constructor | intros H; by inversion H].
  - destruct (f x) as [y|e] eqn:Hx; cbn -[lit].
    + destruct (map_all f xs) as [zs|e] eqn:Hxs; cbn -[lit].
      * split.
        -- intros [= <-]. constructor; [done | by apply IH].
        -- intros H. inversion H as [|? y' ? zs' Hy Hzs]; subst.
           apply IH in Hzs. congruence.
      * split; [done|]. intros H. inversion H as [|? y' ? zs' Hy Hzs]; subst.
        by apply IH in Hzs.
    + split; [done|]. intros H. inversion H; subst. congruence.
Qed.

(** X12.  [formatStockData] throws on [null], and otherwise only when the
    market capitalisation cannot be written as a string.  In what it returns
    the market capitalisation is never the empty string, the volume is a
    truthy value or the number 0, the open equals the low, and the low and
    the high are those of the day, or the current price when they are
    missing or falsy. *)
Theorem formatStockData_defaults (stock : json) :
  match formatStockData stock with
  | Throw _ =>
      stock = JNull
      \/ exists v e, own (lit "market_cap") stock = Some v /\ toString v = Throw e
  | Normal f =>
      stock <> JNull
      /\ FormattedStock.market_cap f <> []
      /\ (Json.truthy (FormattedStock.volume f) = true
          \/ FormattedStock.volume f = JNumber 0)
      /\ FormattedStock.open f = FormattedStock.low f
      /\ FormattedStock.low f
         = or_else (own (lit "day_low") stock) (own (lit "current_price") stock)
      /\ FormattedStock.high f
         = or_else (own (lit "day_high") stock) (own (lit "current_price") stock)
  end.
Proof.
  assert (Hv : forall v : option json,
            Json.truthy match v with
                        | Some v => if Json.truthy v then v else JNumber 0
                        | None => JNumber 0
                        end = true
            \/ match v with
               | Some v => if Json.truthy v then v else JNumber 0
               | None => JNumber 0
               end = JNumber 0).
  { intros [v|]; [|by right]. destruct (Json.truthy v) eqn:T; [by left | by right]. }
  assert (Hm : forall s : jsstring, match s with [] => lit "N/A" | _ => s end <> []).
  { by intros [|c s]. }
  destruct stock as [|b|x|s|xs|fields]; [by left|..]; unfold formatStockData;
    cbn [get own mbind completion_bind]; try (split; [done|]; split; [done|]; split; [by right|done]).
  destruct (lookup_field (lit "market_cap") fields) as [v|] eqn:Hmc;
    [|split; [done|]; split; [done|]; split; [apply Hv | done]].
  destruct (null_or_not v) as [->|Hn];
    [split; [done|]; split; [done|]; split; [apply Hv | done]|].
  assert (Ht : match v with JNull => Normal [] | _ => toString v end = toString v)
    by by destruct v.
  rewrite Ht. destruct (toString v) as [text|e] eqn:Hs; cbn -[lit].
  - split; [done|]. split; [apply Hm|]. split; [apply Hv | done].
  - right. eauto.
Qed.

(** A list of stocks that is not empty was read from a response that is
    [ok], with a truthy [success] and an array as [data]. *)
Lemma stocks_of_response_entries net message v :
  stocks_of_response net message = Normal v -> v <> [] ->
  exists data stocks,
    net = NetResponse true (Normal data)
    /\ truthy_value (own (lit "success") data) = true
    /\ own (lit "data") data = Some (JArray stocks)
    /\ Forall2 (fun stock f => formatStockData stock = Normal f) stocks v.
Proof.
  unfold stocks_of_response. destruct net as [e|ok body]; [done|].
  destruct ok; [|done]. cbn -[lit]. destruct body as [data|e]; [|done]. cbn -[lit].
  destruct (null_or_not data) as [->|Hdata]; [done|].
  assert (Hget : forall key, get key data = Normal (own key data))
    by (intros; by destruct data).
  rewrite !Hget. cbn -[lit].
  destruct (truthy_value (own (lit "success") data)) eqn:Hs; [|intros [= Ev] Hne; congruence].
  destruct (own (lit "data") data) as [dv|] eqn:Hd; [|intros [= Ev] Hne; congruence].
  destruct (Json.truthy dv) eqn:Ht; [|intros [= Ev] Hne; congruence].
  destruct dv as [|b|x|s|stocks|fs]; try done. cbn -[lit].
  intros Hv Hne. exists data, stocks. split; [done|]. split; [done|]. split; [done|].
  by apply map_all_Forall2.
Qed.


Lemma map_all_throws {A B} (f : A -> completion B) (xs : list A) (e : jsstring) :
  map_all f xs = Throw e -> exists x e', In x xs /\ f x = Throw e'.
Proof.
  revert e. induction xs as [|x xs IH]; intros e; [done|]. cbn -[lit].
  destruct (f x) as [y|e'] eqn:Hx; cbn -[lit].
  - destruct (map_all f xs) as [ys|e''] eqn:Hxs; [done|].
    intros _. destruct (IH e'' eq_refl) as (x0 & e0 & Hin & H0).
    exists x0, e0. split; [by right | done].
  - intros _. exists x, e'. split; [by left | done].
Qed.

Lemma movers_list_not_array (m : json) :
  m <> JNull -> (forall stocks, m <> JArray stocks) ->
  exists e, movers_list (Some m) = Throw e.
Proof.
  intros Hn Ha. destruct m as [|b|x|s|stocks|fs]; cbn -[lit]; eauto; [done|].
  by destruct (Ha stocks).
Qed.


(** *** What is in the cache after it was cleared *)

Lemma call_cache t symbol st : cache (fst (getStockPrice_call t symbol st)) = cache st.
Proof.
  unfold getStockPrice_call. destruct (fresh st symbol t); [done|].
  by destruct (pendingRequests st !! symbol).
Qed.

Lemma call_all_cache t batch st : cache (fst (call_all t batch st)) = cache st.
Proof.
  revert st. induction batch as [|s batch IH]; intros st; [done|].
  cbn [call_all]. pose proof (call_cache t s st) as H1.
  destruct (getStockPrice_call t s st) as [st1 o]. cbn [fst] in H1.
  pose proof (IH st1) as H2. destruct (call_all t batch st1) as [st2 os]. cbn [fst] in *.
  congruence.
Qed.

(** A call that is answered at once is answered from the cache. *)
Lemma call_returned t symbol st d :
  snd (getStockPrice_call t symbol st) = Returned d ->
  exists e, cache st !! symbol = Some e /\ data e = d /\ t - timestamp e < CACHE_DURATION.
Proof.
  unfold getStockPrice_call, fresh.
  destruct (cache st !! symbol) as [e|].
  - destruct (t - timestamp e <? CACHE_DURATION) eqn:Hage.
    + cbn [snd]. intros Hd. injection Hd as Hd. exists e. by apply Z.ltb_lt in Hage.
    + by destruct (pendingRequests st !! symbol).
  - by destruct (pendingRequests st !! symbol).
Qed.

Lemma call_all_returned t batch st :
  Forall2 (fun symbol o =>
             forall d, o = Returned d ->
               exists e, cache st !! symbol = Some e /\ data e = d
                         /\ t - timestamp e < CACHE_DURATION)
    batch (snd (call_all t batch st)).
Proof.
  revert st. induction batch as [|s batch IH]; intros st; [constructor|].
  cbn [call_all]. pose proof (call_returned t s st) as H1.
  pose proof (call_cache t s st) as Hc.
  destruct (getStockPrice_call t s st) as [st1 o]. cbn [fst snd] in *.
  specialize (IH st1). destruct (call_all t batch st1) as [st2 os]. cbn [snd] in *.
  constructor; [exact (H1)|]. by rewrite <- Hc.
Qed.

Lemma stored_since_perform t st o :
  not_before t o = true -> stored_since t st -> stored_since t (perform st o).
Proof.
  intros Ho H. destruct o as [[now symbol|clk p net|p]|]; cbn [perform step].
  - unfold stored_since. by rewrite call_cache.
  - unfold settle. destruct (fetches st !! p) as [[symbol [r|] w]|]; try done.
    cbn in Ho. apply Z.leb_le in Ho.
    destruct (fetchStockData_result net symbol (iso clk)) as [[d|]|e]; try done.
    intros s e. cbn [cache]. destruct (decide (s = symbol)) as [->|Hne].
    + rewrite lookup_insert_eq. by intros [= <-].
    + rewrite lookup_insert_ne by done. apply H.
  - unfold resume. destruct (fetches st !! p) as [[symbol [r|] [|]]|]; done.
  - intros s e. cbn. by rewrite lookup_empty.
Qed.

Lemma stored_since_run t ops st :
  forallb (not_before t) ops = true -> stored_since t st ->
  stored_since t (run_operations ops st).
Proof.
  revert st. induction ops as [|o ops IH]; intros st Hall H; [done|].
  cbn in Hall. apply andb_prop in Hall as [Ho Hall].
  cbn. apply IH; [done|]. by apply stored_since_perform.
Qed.

(** No call on a service whose cache is empty is answered at once. *)
Lemma call_all_empty_cache t batch st :
  cache st = ∅ -> Forall (fun o => is_Some (promise_of o)) (snd (call_all t batch st)).
Proof.
  revert st. induction batch as [|s batch IH]; intros st Hc; [constructor|].
  cbn [call_all]. pose proof (call_cache t s st) as H1.
  assert (Ho : is_Some (promise_of (snd (getStockPrice_call t s st)))).
  { unfold getStockPrice_call, fresh. rewrite Hc, lookup_empty.
    destruct (pendingRequests st !! s); by eexists. }
  destruct (getStockPrice_call t s st) as [st1 o]. cbn [fst snd] in *.
  specialize (IH st1). destruct (call_all t batch st1) as [st2 os]. cbn [snd] in *.
  constructor; [done|]. apply IH. by rewrite H1.
Qed.

(** *** The first batch of a run *)

Lemma first_batch E symbols t st :
  symbols <> [] ->
  r_log (getMultipleStockPrices E symbols t st) !! O = Some (batch_of E symbols 0 t st).
Proof.
  intros Hne. unfold getMultipleStockPrices.
  destruct symbols as [|s l]; [done|]. cbn [length batches].
  by change (0 <? S (length l))%nat with true.
Qed.

Lemma call_all_first t s batch st :
  exists outs, snd (call_all t (s :: batch) st) = snd (getStockPrice_call t s st) :: outs.
Proof.
  cbn [call_all]. destruct (getStockPrice_call t s st) as [st1 o].
  destruct (call_all t batch st1) as [st2 os]. by exists os.
Qed.

End Operations.

(** *** The operations at concrete inputs *)

(** The calls that make [cached_state]: a call for AAPL at time 0, answered
    at time 1000 with the answer of the example. *)
Lemma cache_holds_fetched_prices_witness :
  exists e,
    cache (run_operations (host := ascii_host)
             [Loop (Call 0 (lit "AAPL"));
              Loop (Settle {| now := 1000; iso := lit "2024-01-15T09:30:00.000Z" |} 0
                      (NetResponse true (Normal (answer_string example_answer))))]
             initial) !! lit "AAPL" = Some e
    /\ StockPrice.symbol (data e) = lit "AAPL"
    /\ StockPrice.name (data e) = lit "Apple Inc.".
Proof.
  eexists. split; [vm_compute; reflexivity|].
  refine (let H := cache_holds_fetched_prices (host := ascii_host)
                     [Loop (Call 0 (lit "AAPL"));
                      Loop (Settle {| now := 1000; iso := lit "2024-01-15T09:30:00.000Z" |} 0
                              (NetResponse true (Normal (answer_string example_answer))))]
                     (lit "AAPL") _ _ in
          conj (proj1 (proj2 H)) (proj1 (proj2 (proj2 H)))).
  vm_compute. reflexivity.
Defined.

(** With the price of AAPL cached at time 1000, the connection test of
    time 120999 is answered from the cache. *)
Lemma testConnection_from_cache_witness :
  testConnection (host := ascii_host) example_env 120999 cached_state
  = (cached_state, 120999, true).
Proof.
  eapply (testConnection_from_cache (host := ascii_host) example_env 120999 cached_state);
    vm_compute; reflexivity.
Defined.

(** On a fresh service the connection test posts its query, and the answer
    of the example makes it succeed. *)
Lemma testConnection_needs_a_price_witness :
  snd (testConnection (host := ascii_host) example_env 0 initial) = true.
Proof.
  pose proof (testConnection_needs_a_price (host := ascii_host) example_env 0 initial
                eq_refl eq_refl) as H.
  cbv zeta in H.
  destruct (testConnection (host := ascii_host) example_env 0 initial) as [[st' t'] connected].
  destruct H as (_ & -> & H). apply H. eexists. vm_compute. reflexivity.
Defined.

(** A position of the fallback table against a backend that cannot be
    reached. *)
Lemma updateInvestment_without_price_witness :
  let investment :=
    Investment.Build (lit "1") (lit "AAPL") (lit "Apple Inc.") 175.23 2.45 1.42
      (lit "stock") 17523 15000 100 in
  snd (updateInvestmentWithRealData (host := ascii_host) RealTimeDataProvider.unreachable 0
         investment initial)
  = investment.
Proof.
  intros investment.
  apply (updateInvestment_without_price (host := ascii_host) RealTimeDataProvider.unreachable
           0 investment initial).
  - intros p symbol iso. reflexivity.
  - intros p v H. discriminate H.
  - reflexivity.
Defined.

End StockDataServiceProperties.

(** ** The real-time data provider *)

Module RealTimeDataProviderProperties.
Import JS RegExp RealTimeDataProvider.

Section Provider.

Context `{host : Host}.

(** *** The fallback table *)

Lemma getFallbackInvestments_table :
  (forall s, is_ascii s -> toUpperCase s = ascii_upper s) ->
  getFallbackInvestments = fallback_table.
Proof.
  intros Hup. unfold getFallbackInvestments, USER_PORTFOLIO_CONFIG.
  cbn [imap compose].
  unfold getFallbackInvestment, StockDataService.getCompanyName, fallback_table.
  cbn [PortfolioConfig.ticker PortfolioConfig.quantity PortfolioConfig.purchaseValue].
  rewrite (Hup (lit "AAPL")), (Hup (lit "GOOGL")), (Hup (lit "MSFT")),
    (Hup (lit "TSLA")), (Hup (lit "NVDA"))
    by (apply (bool_decide_unpack _); vm_compute; exact I).
  vm_compute. reflexivity.
Qed.

Lemma build_investments_empty : build_investments ∅ = getFallbackInvestments.
Proof. unfold build_investments, getFallbackInvestments. cbn [imap]. reflexivity. Qed.

Lemma fallback_without_prices
    (E : StockDataService.env) (t : Z) (P : provider) (st : StockDataService.state) :
  (forall s, is_ascii s -> toUpperCase s = ascii_upper s) ->
  cached_investments P t = None ->
  StockDataService.r_results
    (StockDataService.getMultipleStockPrices E
       (List.map PortfolioConfig.ticker USER_PORTFOLIO_CONFIG) t st) = ∅ ->
  snd (getRealTimeInvestments E t P st) = Normal fallback_table.
Proof.
  intros Hup Hcache Hprices.
  unfold getRealTimeInvestments. rewrite Hcache. cbv zeta. rewrite Hprices.
  unfold getRealTimeInvestments_after, mbind, completion_bind, try_catch. cbn [snd].
  by rewrite build_investments_empty, getFallbackInvestments_table.
Qed.

(** C3.  When the investment cache is empty or stale and the map of fetched
    prices is empty, [getRealTimeInvestments] returns the fallback table:
    AAPL, GOOGL, MSFT, TSLA and NVDA at 175.23, 2847.56, 331.78, 248.50 and
    875.30, each with its configured quantity and purchase value and with
    the fallback price times the quantity as current value. *)
Theorem getRealTimeInvestments_fallback
    (E : StockDataService.env) (t : Z) (P : provider) (st : StockDataService.state) :
  (forall s, is_ascii s -> toUpperCase s = ascii_upper s) ->
  cached_investments P t = None ->
  StockDataService.r_results
    (StockDataService.getMultipleStockPrices E
       (List.map PortfolioConfig.ticker USER_PORTFOLIO_CONFIG) t st) = ∅ ->
  snd (getRealTimeInvestments E t P st) = Normal fallback_table
  /\ List.map Investment.ticker fallback_table
     = [lit "AAPL"; lit "GOOGL"; lit "MSFT"; lit "TSLA"; lit "NVDA"]
  /\ List.map Investment.price fallback_table
     = [175.23; 2847.56; 331.78; 248.50; 875.30]%float
  /\ Forall2 (fun inv config =>
                Investment.quantity inv = PortfolioConfig.quantity config
                /\ Investment.purchaseValue inv = PortfolioConfig.purchaseValue config
                /\ Investment.currentValue inv
                   = (Investment.price inv * PortfolioConfig.quantity config)%float)
       fallback_table USER_PORTFOLIO_CONFIG.
Proof.
  intros Hup Hcache Hprices. split; [by apply fallback_without_prices|].
  split; [reflexivity|]. split; [reflexivity|]. repeat constructor.
Qed.

(** When the backend gives no price, the investment cache is empty or stale
    and the service holds no fresh price of the five tickers,
    [getRealTimeInvestments] returns the fallback table. *)
Lemma getRealTimeInvestments_unreachable
    (E : StockDataService.env) (t : Z) (P : provider) (st : StockDataService.state) :
  (forall s, is_ascii s -> toUpperCase s = ascii_upper s) ->
  cached_investments P t = None ->
  StockDataService.gives_no_price E ->
  StockDataService.no_price_settled st ->
  (forall config t', In config USER_PORTFOLIO_CONFIG ->
     StockDataService.fresh st (PortfolioConfig.ticker config) t' = None) ->
  snd (getRealTimeInvestments E t P st) = Normal fallback_table.
Proof.
  intros Hup Hcache HE H0 Hfresh.
  apply fallback_without_prices; try done.
  apply StockDataServiceProperties.getMultipleStockPrices_no_price; try done.
  intros s t' Hs. apply in_map_iff in Hs as (config & <- & Hc). by apply Hfresh.
Qed.

(** *** The series *)

(** The data and the labels of a series have the same length: six months
    for the portfolio, seven days for the exchange rates. *)
Lemma series_lengths (investments : list Investment.t) (response : jsstring)
    (random : nat -> float) :
  length (Series.data (portfolio_series investments random)) = 6%nat
  /\ length (Series.labels (portfolio_series investments random)) = 6%nat
  /\ length (Series.data (exchange_series response random)) = 7%nat
  /\ length (Series.labels (exchange_series response random)) = 7%nat
  /\ length (Series.data fallback_portfolio) = length (Series.labels fallback_portfolio)
  /\ length (Series.data fallback_exchange_rates)
     = length (Series.labels fallback_exchange_rates).
Proof. repeat split. Qed.

(** [Math.max(50, Math.min(150, value))] is [NaN] or neither below 50 nor
    above 150. *)
Lemma clamped (value : float) :
  let c := Math_max 50 (Math_min 150 value) in
  c = nan \/ ((c <? 50)%float = false /\ (150 <? c)%float = false).
Proof.
  cbv zeta. unfold Math_min.
  destruct (is_nan 150 || is_nan value) eqn:N1; [by left|].
  destruct (150 <? value)%float eqn:A; [by right|].
  assert (Hv : let c := Math_max 50 value in
               c = nan \/ ((c <? 50)%float = false /\ (150 <? c)%float = false)).
  { cbv zeta. unfold Math_max.
    destruct (is_nan 50 || is_nan value); [by left|].
    destruct (value <? 50)%float eqn:C; [by right|].
    destruct (50 <? value)%float eqn:D; [by right|]. by right. }
  destruct (value <? 150)%float; [exact Hv|].
  change (get_sign 150) with false. exact Hv.
Qed.

Lemma portfolio_series_clamped (investments : list Investment.t) (random : nat -> float) :
  Forall (fun c => c = nan \/ ((c <? 50)%float = false /\ (150 <? c)%float = false))
    (Series.data (portfolio_series investments random)).
Proof.
  unfold portfolio_series. cbn [Series.data]. apply Forall_map, Forall_forall.
  intros i _. apply clamped.
Qed.

(** At most three insights are returned, and none is empty. *)
Lemma parse_insights_bounds (response : jsstring) :
  (length (parse_insights response) <= 3)%nat
  /\ Forall (fun insight => insight <> []) (parse_insights response).
Proof.
  unfold parse_insights. split.
  - rewrite length_take. lia.
  - apply Forall_take, Forall_forall. intros x Hx.
    apply list_elem_of_In, List.filter_In in Hx as [_ Hx]. by destruct x.
Qed.

(** *** No operation of the provider throws *)

Lemma getRealTimeInvestments_after_returns P now prices :
  exists v, snd (getRealTimeInvestments_after P now prices) = Normal v
    /\ match prices with
       | Normal stockPrices => v = build_investments stockPrices
       | Throw _ => v = getFallbackInvestments
       end.
Proof.
  unfold getRealTimeInvestments_after, mbind, completion_bind, try_catch.
  destruct prices; cbn; eauto.
Qed.

Lemma getRealTimeInvestments_returns E t P st :
  exists v, snd (getRealTimeInvestments E t P st) = Normal v
    /\ (cached_investments P t = Some v
        \/ v = build_investments
                 (StockDataService.r_results
                    (StockDataService.getMultipleStockPrices E
                       (List.map PortfolioConfig.ticker USER_PORTFOLIO_CONFIG) t st))).
Proof.
  unfold getRealTimeInvestments. destruct (cached_investments P t) as [c|]; cbn; eauto.
Qed.

End Provider.

(** With a fresh provider and a fresh service and no reachable backend,
    [getRealTimeInvestments] returns the fallback table. *)
Lemma getRealTimeInvestments_fallback_witness :
  snd (getRealTimeInvestments (host := ascii_host) unreachable 0 new_provider
         StockDataService.initial)
  = Normal fallback_table.
Proof.
  apply (getRealTimeInvestments_fallback (host := ascii_host) unreachable 0 new_provider
           StockDataService.initial);
    [intros; reflexivity | reflexivity | vm_compute; reflexivity].
Defined.

(** The current values of the fallback table, evaluated. *)
Example fallback_current_values :
  List.map Investment.currentValue fallback_table
  = [17523; 28475.6; 16589; 6212.5; 26259]%float.
Proof. vm_compute. reflexivity. Qed.

(** *** The positions and the caches *)

Section Positions.

Context `{host : Host}.

Lemma build_investments_configured (stockPrices : gmap jsstring StockPrice.t) :
  configured (build_investments stockPrices).
Proof.
  unfold configured, build_investments, USER_PORTFOLIO_CONFIG.
  cbn -[lit nat_toString]. split.
  - repeat constructor;
      match goal with |- context [stockPrices !! ?k] => by destruct (stockPrices !! k) end.
  - repeat match goal with |- context [stockPrices !! ?k] => destruct (stockPrices !! k) end;
      reflexivity.
Qed.

Lemma getFallbackInvestments_configured : configured getFallbackInvestments.
Proof. rewrite <- build_investments_empty. apply build_investments_configured. Qed.

(** X15.  Whatever the backend answers, [getRealTimeInvestments] returns
    one position for each entry of the configuration, in its order and
    numbered from 1, each a stock with the ticker, the quantity and the
    purchase value of its entry; and what it leaves in the cache of the
    provider is such a list again. *)
Theorem getRealTimeInvestments_positions
    (E : StockDataService.env) (t : Z) (P : provider) (st : StockDataService.state) :
  (forall c, investmentCache P = Some c -> configured c) ->
  let '(P', _, _, r) := getRealTimeInvestments E t P st in
  (exists v, r = Normal v /\ configured v)
  /\ (forall c, investmentCache P' = Some c -> configured c).
Proof.
  intros HP. unfold getRealTimeInvestments.
  destruct (cached_investments P t) as [c|] eqn:Hc.
  - split; [|done]. exists c. split; [done|]. apply HP.
    unfold cached_investments in Hc. destruct (investmentCache P); [|done].
    by destruct (_ <? _); [injection Hc as ->|].
  - cbn. split.
    + eexists. split; [done|]. apply build_investments_configured.
    + intros c [= <-]. apply build_investments_configured.
Qed.

(** X16.  When [getRealTimeInvestments] does not answer from the cache of
    the provider, it stores what it returns with the time at which it
    returns; a call less than 300 seconds after that time returns the same
    list and touches neither the service nor the network, whatever the
    backend would answer then. *)
Theorem getRealTimeInvestments_cached
    (E E' : StockDataService.env) (t now : Z) (P : provider)
    (st st2 : StockDataService.state) :
  cached_investments P t = None ->
  let '(P', _, t', r) := getRealTimeInvestments E t P st in
  now - t' < 300000 ->
  (exists v, r = Normal v /\ P' = Provider (Some v) t')
  /\ getRealTimeInvestments E' now P' st2 = (P', st2, now, r).
Proof.
  intros Hc. unfold getRealTimeInvestments at 1. rewrite Hc. cbn. intros Hage.
  split; [by eexists|].
  unfold getRealTimeInvestments, cached_investments. cbn.
  unfold RealTimeDataProvider.CACHE_DURATION. by rewrite (proj2 (Z.ltb_lt _ _) Hage).
Qed.


End Positions.

(** *** Refreshing all data *)

Section Refresh.

Import StockDataService StockDataServiceProperties.

Context `{host : Host}.

(** X17.  [refreshAllData] drops the cache of the provider and clears the
    cache of the service before its first calls: the three calls of the
    first batch are not answered from the cache, each waits for a request.
    Whatever else uses the service afterwards and however the requests
    settle, those that were pending before the refresh too, a later call of
    the run that is answered from the cache gets a price that was stored
    after the refresh began, as long as the clock does not go back. *)
Theorem refreshAllData_fetches_afresh
    (t : Z) (st : state) (ops : list operation) (t' : Z) (i : nat) :
  forallb (not_before t) ops = true ->
  let '(P, st1, outs) := refreshAllData_start t st in
  let st2 := run_operations ops st1 in
  P = Provider None 0
  /\ length outs = 3%nat
  /\ Forall (fun o => is_Some (promise_of o)) outs
  /\ Forall2 (fun symbol o =>
                forall d, o = Returned d ->
                  exists e, cache st2 !! symbol = Some e /\ data e = d
                            /\ t <= timestamp e
                            /\ t' - timestamp e < StockDataService.CACHE_DURATION)
       (batch_at tickers i) (snd (call_all t' (batch_at tickers i) st2)).
Proof.
  intros Hops. unfold refreshAllData_start.
  change (cached_investments (Provider None 0) t) with (@None (list Investment.t)).
  cbv iota.
  pose proof (call_all_cache t (batch_at tickers 0) (clearCache st)) as Hc.
  pose proof (call_all_empty_cache t (batch_at tickers 0) (clearCache st) eq_refl) as Hw.
  pose proof (call_all_length t (batch_at tickers 0) (clearCache st)) as Hl.
  destruct (call_all t (batch_at tickers 0) (clearCache st)) as [st1 outs].
  cbn [fst snd] in *. cbv zeta.
  split; [done|]. split; [by rewrite Hl|]. split; [done|].
  assert (Hs : stored_since t (run_operations ops st1)).
  { apply stored_since_run; [done|]. intros s e. rewrite Hc. cbn. by rewrite lookup_empty. }
  eapply Forall2_impl; [apply call_all_returned|].
  intros symbol o H d Hd. destruct (H d Hd) as (e & He & Hde & Hage).
  exists e. split; [done|]. split; [done|]. split; [by eapply Hs | done].
Qed.

(** X18.  A request that is pending when [refreshAllData] is called is not
    posted again: the call of the run for its symbol waits for that request,
    so that the refreshed price can be one that was asked for before the
    refresh. *)
Theorem refreshAllData_reuses_pending
    (E : env) (t : Z) (st : state) (p : nat) :
  pendingRequests st !! lit "AAPL" = Some p ->
  exists b outs,
    r_log (getMultipleStockPrices E tickers t (clearCache st)) !! O = Some b
    /\ b_symbols b = [lit "AAPL"; lit "GOOGL"; lit "MSFT"]
    /\ b_outcomes b = AwaitsPending p :: outs.
Proof.
  intros Hp.
  assert (Hcall : getStockPrice_call t (lit "AAPL") (clearCache st)
                  = (clearCache st, AwaitsPending p)).
  { unfold getStockPrice_call, fresh. cbn [cache clearCache pendingRequests].
    rewrite lookup_empty. by rewrite Hp. }
  exists (batch_of E tickers 0 t (clearCache st)).
  destruct (run_batch_fields E t (batch_at tickers 0) (clearCache st)
              (if more_after tickers 0
               then Some (next_start E tickers 0 t (clearCache st)) else None))
    as (_ & Hsym & _ & Hout & _).
  fold (batch_of E tickers 0 t (clearCache st)) in Hsym, Hout.
  change (batch_at tickers 0) with (lit "AAPL" :: [lit "GOOGL"; lit "MSFT"]) in Hsym, Hout.
  destruct (call_all_first t (lit "AAPL") [lit "GOOGL"; lit "MSFT"] (clearCache st))
    as [outs Houts].
  exists outs. split; [by apply first_batch|]. split; [done|].
  rewrite Hout, Houts. by rewrite Hcall.
Qed.

End Refresh.

(** *** What the answers are read for *)

Section Patterns.

Import RegExpProperties.

Local Open Scope nat_scope.

(** The rate pattern at one index: it matches exactly when a digit stands
    there, and then takes the number that starts there. *)
Lemma rate_at (i : nat) (s : jsstring) (c0 : gmap nat jsstring) :
  compile false rateRe (MState i s c0) Some
  = match s with
    | c :: _ =>
        if is_digit c
        then Some (MState (i + length (number_prefix s))
                          (drop (length (number_prefix s)) s)
                          (<[1 := number_prefix s]> c0))
        else None
    | [] => None
    end.
Proof.
  unfold rateRe. rewrite compile_Group, compile_Seq. cbn [pos rest caps].
  set (k1 := fun st' : mstate =>
               Some (MState (pos st') (rest st')
                       (<[1 := take (pos st' - i) s]> (caps st')))).
  assert (Hk1 : total k1) by (intros st'; by eexists).
  assert (Hk2 : total (fun st' =>
            compile false (Seq (Opt (Unit 46%N)) (Star true (Class [ADigit]))) st' k1)).
  { intros st'. rewrite fraction_at by done. apply Hk1. }
  rewrite digits_plus by done. cbn [pos rest caps].
  destruct s as [|c r]; [done|].
  destruct (is_digit c); [|done].
  rewrite fraction_at by done. unfold k1. cbn [pos rest caps]. clear Hk1 Hk2. subst k1.
  generalize (c :: r). clear c r. intros s.
  f_equal. f_equal.
  - rewrite number_prefix_fraction, length_app. lia.
  - by rewrite (drop_prefix _ _ _ (number_prefix_split s)).
  - f_equal.
    replace (i + length (leading is_digit s) + length (fraction (skip is_digit s)) - i)
      with (length (number_prefix s)) by (rewrite number_prefix_fraction, length_app; lia).
    apply (take_prefix _ _ _ (number_prefix_split s)).
Qed.

(** The rate pattern finds the first number of the text: the first digit,
    the digits that follow it, and a point with the digits after it when a
    point follows them.  It finds nothing exactly when the text has no
    digit. *)
Lemma rateRe_first_number (s : jsstring) :
  match_ false rateRe s
  = (fun number => <[O := number]> (<[1 := number]> ∅)) <$> first_number s.
Proof.
  unfold match_.
  assert (H : forall i, search (compile false rateRe) i s
              = (fun number => <[O := number]> (<[1 := number]> ∅)) <$> first_number s);
    [|apply H].
  induction s as [|c r IH]; intros i; cbn [search first_number]; rewrite rate_at; [done|].
  destruct (is_digit c) eqn:Hc.
  - cbn [pos caps fmap option_fmap option_map]. f_equal. f_equal.
    replace (i + length (number_prefix (c :: r)) - i) with (length (number_prefix (c :: r)))
      by lia.
    apply (take_prefix _ _ _ (number_prefix_split (c :: r))).
  - apply IH.
Qed.

(** X19.  [getRealTimeExchangeRates] reads the rate from the first number
    of the answer, whatever that number is: the first digit, the digits that
    follow it, and a point with the digits after it when a point follows
    them.  It takes 83.5 exactly when the answer has no digit.  The seven
    points are that rate plus a variation, rounded to two decimals. *)
Theorem getRealTimeExchangeRates_first_number
    (response : jsstring) (random : nat -> float) :
  let currentRate := match first_number response with
                     | Some number => parseFloat number
                     | None => 83.5%float
                     end in
  getRealTimeExchangeRates (Normal response) random
  = Normal
      {| Series.data :=
           List.map (fun i => toFixed2 (currentRate + (random i - 0.5) * 2)%float) (seq 0 7);
         Series.labels :=
           [lit "Day 1"; lit "Day 2"; lit "Day 3"; lit "Day 4"; lit "Day 5";
            lit "Day 6"; lit "Day 7"] |}
  /\ (first_number response = None <-> Forall (fun c => is_digit c = false) response).
Proof.
  cbv zeta. split.
  - unfold getRealTimeExchangeRates, exchange_series. cbn [mbind completion_bind try_catch].
    rewrite rateRe_first_number. by destruct (first_number response).
  - induction response as [|c r IH]; cbn [first_number].
    + split; [constructor | done].
    + destruct (is_digit c) eqn:Hc.
      * split; [done|]. intros H. apply Forall_cons in H as [H _]. congruence.
      * rewrite IH. split; [by constructor | by intros [_ H]%Forall_cons].
Qed.

(** *** The bullet of an insight *)

Lemma bullet_class c :
  existsb (fun a => atom_matches false a c) [AUnit bullet; AUnit 45%N] = is_bullet c.
Proof.
  cbn [existsb atom_matches]. unfold canon, is_bullet.
  by rewrite orb_false_r, (N.eqb_sym bullet c), (N.eqb_sym 45 c).
Qed.

Lemma space_class c : existsb (fun a => atom_matches false a c) [ASpace] = is_whitespace c.
Proof. cbn. apply orb_false_r. Qed.

Lemma bullet_at (i : nat) (line : jsstring) (c0 : gmap nat jsstring) :
  compile false bulletRe (MState i line c0) Some
  = match i, line with
    | O, c :: text =>
        if is_bullet c
        then Some (MState (1 + length (leading is_whitespace text))
                          (skip is_whitespace text) c0)
        else None
    | _, _ => None
    end.
Proof.
  unfold bulletRe. rewrite compile_Seq, compile_Bol. cbn [pos].
  destruct i as [|i]; [|done].
  rewrite compile_Seq, compile_Class. unfold one. cbn [rest pos caps].
  destruct line as [|c text]; [done|]. rewrite bullet_class.
  destruct (is_bullet c); [|done].
  rewrite compile_star_class by (intros st'; by eexists). cbn [pos rest caps].
  by rewrite (leading_ext _ is_whitespace _ space_class),
     (skip_ext _ is_whitespace _ space_class).
Qed.

Lemma replace_after_start (s : jsstring) (i : nat) :
  replace_first (compile false bulletRe) (S i) s = s.
Proof.
  revert i. induction s as [|c r IH]; intros i; cbn [replace_first]; rewrite bullet_at; [done|].
  by rewrite IH.
Qed.

(** The bullet is taken off a line that starts with it, with the white
    space after it, and off no other line. *)
Lemma replace_leading_bullet (line : jsstring) :
  replace_ false bulletRe line
  = match line with
    | c :: text => if is_bullet c then trimStart text else line
    | [] => []
    end.
Proof.
  unfold replace_. destruct line as [|c text]; cbn [replace_first]; rewrite bullet_at; [done|].
  destruct (is_bullet c).
  - cbn [rest]. apply skip_whitespace.
  - by rewrite replace_after_start.
Qed.

Lemma trimStart_idem s : trimStart (trimStart s) = trimStart s.
Proof.
  induction s as [|c r IH]; [done|]. cbn. destruct (is_whitespace c) eqn:Hc; [done|].
  cbn. by rewrite Hc.
Qed.

Lemma insight_of_line line : trim (replace_ false bulletRe line) = insight_of line.
Proof.
  rewrite replace_leading_bullet. unfold insight_of. destruct line as [|c text]; [done|].
  destruct (is_bullet c); [|done]. unfold trim. by rewrite trimStart_idem.
Qed.

(** X20.  An insight is a line of the answer without the bullet or hyphen
    it starts with, trimmed; but the bullet is taken off only when it is the
    very first unit of the line: a bullet line that is indented yields an
    insight that still begins with its bullet. *)
Theorem insights_line_by_line (response : jsstring) :
  parse_insights response
  = take 3 (List.filter (fun insight => negb (length insight =? 0))
              (List.map insight_of (List.filter bullet_line (split 10%N response))))
  /\ forall line, bullet_line line = true ->
       match line with
       | c :: text =>
           if is_bullet c then insight_of line = trim text
           else insight_of line = trim line
                /\ (startsWith [bullet] (insight_of line)
                    || startsWith [45%N] (insight_of line)) = true
       | [] => False
       end.
Proof.
  split.
  - unfold parse_insights. f_equal. f_equal. apply map_ext. intros line.
    apply insight_of_line.
  - intros [|c text] H; [done|]. unfold insight_of. by destruct (is_bullet c).
Qed.

End Patterns.

(** *** No operation of the provider throws: what each returns *)

Section Operations.

Context `{host : Host}.

(** Each position is built from the price of its ticker, or is the row of
    the fallback table when the map has no price for it. *)
Lemma build_investments_rows (stockPrices : gmap jsstring StockPrice.t)
    (index : nat) (config : PortfolioConfig.t) :
  (forall s, is_ascii s -> toUpperCase s = ascii_upper s) ->
  USER_PORTFOLIO_CONFIG !! index = Some config ->
  build_investments stockPrices !! index
  = match stockPrices !! PortfolioConfig.ticker config with
    | Some stockData => Some (live_investment config index stockData)
    | None => fallback_table !! index
    end.
Proof.
  intros Hup Hc. rewrite <- (getFallbackInvestments_table Hup).
  unfold build_investments, getFallbackInvestments.
  rewrite !list_lookup_imap, Hc. cbn [fmap option_fmap option_map].
  by destruct (stockPrices !! PortfolioConfig.ticker config).
Qed.

(** C7.  Whatever the requests of the stock service end with ([E] is any
    world) and however the awaited calls complete, by a value or by an
    exception, each of [getRealTimeInvestments], [getRealTimePortfolioData],
    [getMarketInsights] and [getRealTimeExchangeRates] completes normally,
    with the data derived from what it received or with its fallback:
    - the investments are the cached ones, or five positions, each built
      from the price of its ticker or the row of the fallback table when
      there is no price for it, or the whole fallback table when the
      prices cannot be had;
    - the portfolio data is six points from Jul to Dec computed from the
      performance of the investments, or the series 67, 72, 69, 75, 78, 82;
    - the insights are the first three bullet lines of the answer without
      their bullet, or the three fallback sentences when there is none or
      no answer;
    - the exchange rates are seven points around the first number of the
      answer, or around 83.5 when it has none, or the series 83.2, 83.5,
      83.1, 83.3, 83.6, 83.4, 83.7 when there is no answer. *)
Theorem provider_operations_return
    (E : StockDataService.env) (t : Z) (P : provider) (st : StockDataService.state)
    (random : nat -> float) (now : Z)
    (prices : completion (gmap jsstring StockPrice.t))
    (investments : completion (list Investment.t))
    (response : completion jsstring) :
  (forall s, is_ascii s -> toUpperCase s = ascii_upper s) ->
  let live_or_fallback (stockPrices : gmap jsstring StockPrice.t) (v : list Investment.t) :=
    length v = 5%nat
    /\ forall index config, USER_PORTFOLIO_CONFIG !! index = Some config ->
         v !! index
         = match stockPrices !! PortfolioConfig.ticker config with
           | Some stockData =>
               Some {| Investment.id := nat_toString (index + 1);
                       Investment.ticker := PortfolioConfig.ticker config;
                       Investment.name := StockPrice.name stockData;
                       Investment.price :=
                         toFixed2 (StockPrice.current_price stockData * 0.012)%float;
                       Investment.change :=
                         toFixed2 (StockPrice.change stockData * 0.012)%float;
                       Investment.changePercent :=
                         toFixed2 (StockPrice.change_percent stockData);
                       Investment.type := lit "stock";
                       Investment.currentValue :=
                         toFixed2 (StockPrice.current_price stockData * 0.012
                                   * PortfolioConfig.quantity config)%float;
                       Investment.purchaseValue := PortfolioConfig.purchaseValue config;
                       Investment.quantity := PortfolioConfig.quantity config |}
           | None => fallback_table !! index
           end in
  let derived_portfolio (invs : list Investment.t) : Series.t :=
    let totalCurrentValue := JS.sum (List.map Investment.currentValue invs) in
    let totalPurchaseValue := JS.sum (List.map Investment.purchaseValue invs) in
    {| Series.data :=
         List.map
           (fun i =>
              Math_max 50
                (Math_min 150
                   (100 + (totalCurrentValue - totalPurchaseValue) / totalPurchaseValue * 100
                          * number_of_nat (i + 1) / 6
                    + (random i - 0.5) * 10)))%float
           (seq 0 6);
       Series.labels := [lit "Jul"; lit "Aug"; lit "Sep"; lit "Oct"; lit "Nov"; lit "Dec"] |} in
  let days := [lit "Day 1"; lit "Day 2"; lit "Day 3"; lit "Day 4"; lit "Day 5";
               lit "Day 6"; lit "Day 7"] in
  let fallback_insights :=
    [ lit "Tech stocks showing mixed performance amid market volatility";
      lit "Federal Reserve policy decisions continue to impact market sentiment";
      lit "Energy sector gains momentum with rising commodity prices" ] in
  (exists v, snd (getRealTimeInvestments E t P st) = Normal v
     /\ match cached_investments P t with
        | Some cached => v = cached
        | None =>
            live_or_fallback
              (StockDataService.r_results
                 (StockDataService.getMultipleStockPrices E tickers t st)) v
        end)
  /\ (exists v, snd (getRealTimeInvestments_after P now prices) = Normal v
        /\ match prices with
           | Normal stockPrices => live_or_fallback stockPrices v
           | Throw _ => v = fallback_table
           end)
  /\ (exists invs, snd (getRealTimeInvestments E t P st) = Normal invs
        /\ snd (getRealTimePortfolioData E t P st random) = Normal (derived_portfolio invs))
  /\ getRealTimePortfolioData_after investments random
     = Normal match investments with
              | Normal invs => derived_portfolio invs
              | Throw _ =>
                  {| Series.data := [67; 72; 69; 75; 78; 82]%float;
                     Series.labels :=
                       [lit "Jul"; lit "Aug"; lit "Sep"; lit "Oct"; lit "Nov"; lit "Dec"] |}
              end
  /\ (exists v, getMarketInsights response = Normal v
        /\ v <> [] /\ (length v <= 3)%nat
        /\ match response with
           | Normal r =>
               let insights :=
                 take 3 (List.filter (fun insight => negb (length insight =? 0)%nat)
                           (List.map insight_of
                              (List.filter bullet_line (split 10%N r)))) in
               v = match insights with
                   | [] => fallback_insights
                   | _ :: _ => insights
                   end
           | Throw _ => v = fallback_insights
           end)
  /\ getRealTimeExchangeRates response random
     = Normal match response with
              | Normal r =>
                  let currentRate := match first_number r with
                                     | Some number => parseFloat number
                                     | None => 83.5%float
                                     end in
                  {| Series.data :=
                       List.map (fun i => toFixed2 (currentRate + (random i - 0.5) * 2)%float)
                         (seq 0 7);
                     Series.labels := days |}
              | Throw _ =>
                  {| Series.data := [83.2; 83.5; 83.1; 83.3; 83.6; 83.4; 83.7]%float;
                     Series.labels := days |}
              end.
Proof.
  intros Hup live_or_fallback derived_portfolio days fallback_insights.
  assert (Hbuild : forall stockPrices, live_or_fallback stockPrices (build_investments stockPrices)).
  { intros stockPrices. split; [done|]. intros index config Hc.
    by rewrite (build_investments_rows stockPrices index config Hup Hc). }
  split.
  { unfold getRealTimeInvestments. destruct (cached_investments P t) as [c|]; cbn; eauto. }
  split.
  { unfold getRealTimeInvestments_after, mbind, completion_bind, try_catch.
    destruct prices as [stockPrices|e]; cbn [snd].
    - eauto.
    - exists getFallbackInvestments. split; [done|]. by apply getFallbackInvestments_table. }
  split.
  { destruct (getRealTimeInvestments_returns E t P st) as (v & Hv & _).
    exists v. split; [done|]. unfold getRealTimePortfolioData.
    destruct (getRealTimeInvestments E t P st) as [[[P' st'] t'] r]. cbn in *.
    by rewrite Hv. }
  split.
  { unfold getRealTimePortfolioData_after, mbind, completion_bind, try_catch.
    by destruct investments. }
  split.
  { unfold getMarketInsights, mbind, completion_bind, try_catch.
    destruct response as [r|e].
    - assert (Hp : parse_insights r
                   = take 3 (List.filter (fun insight => negb (length insight =? 0)%nat)
                               (List.map insight_of
                                  (List.filter bullet_line (split 10%N r))))).
      { unfold parse_insights. f_equal. f_equal. apply map_ext. intros line.
        apply insight_of_line. }
      cbv zeta. rewrite <- Hp.
      pose proof (parse_insights_bounds r) as [Hlen _].
      destruct (parse_insights r) as [|x l] eqn:Ei; cbn [length Nat.ltb Nat.leb].
      + exists getFallbackInsights. split; [done|]. split; [done|]. split; [cbn; lia | done].
      + exists (x :: l). split; [done|]. split; [done|]. by split.
    - exists getFallbackInsights. split; [done|]. split; [done|]. split; [cbn; lia | done]. }
  unfold getRealTimeExchangeRates, exchange_series, mbind, completion_bind, try_catch.
  destruct response as [r|e]; [|done].
  rewrite rateRe_first_number. by destruct (first_number r).
Qed.

End Operations.

(** *** The operations at concrete inputs *)

(** A fresh provider against a backend that cannot be reached. *)
Lemma getRealTimeInvestments_positions_witness :
  let '(P', _, _, r) :=
    getRealTimeInvestments (host := ascii_host) unreachable 0 new_provider
      StockDataService.initial in
  (exists v, r = Normal v /\ configured v)
  /\ (forall c, investmentCache P' = Some c -> configured c).
Proof.
  apply (getRealTimeInvestments_positions (host := ascii_host) unreachable 0 new_provider
           StockDataService.initial).
  intros c H. discriminate H.
Defined.

(** The run against the backend that cannot be reached ends at time 560; a
    call at time 300559 is answered from the cache of the provider, though
    the backend would answer then. *)
Lemma getRealTimeInvestments_cached_witness :
  let '(P', _, t', r) :=
    getRealTimeInvestments (host := ascii_host) unreachable 0 new_provider
      StockDataService.initial in
  300559 - t' < 300000
  /\ getRealTimeInvestments (host := ascii_host) StockDataService.example_env 300559 P'
       StockDataService.initial
     = (P', StockDataService.initial, 300559, r).
Proof.
  pose proof (getRealTimeInvestments_cached (host := ascii_host) unreachable
                StockDataService.example_env 0 300559 new_provider
                StockDataService.initial StockDataService.initial eq_refl) as H.
  assert (Ht : snd (fst (getRealTimeInvestments (host := ascii_host) unreachable 0
                           new_provider StockDataService.initial)) = 560)
    by (vm_compute; reflexivity).
  destruct (getRealTimeInvestments (host := ascii_host) unreachable 0 new_provider
              StockDataService.initial) as [[[P' st'] t'] r].
  cbn [fst snd] in Ht. subst t'.
  split; [reflexivity|]. apply H. reflexivity.
Defined.

(** A request for AAPL posted at time 0 is pending when the data is
    refreshed at time 5. *)
Lemma refreshAllData_reuses_pending_witness :
  exists b outs,
    StockDataService.r_log
      (StockDataService.getMultipleStockPrices (host := ascii_host)
         StockDataService.example_env tickers 5
         (StockDataService.clearCache
            (fst (StockDataService.getStockPrice_call 0 (lit "AAPL")
                    StockDataService.initial)))) !! O = Some b
    /\ StockDataService.b_symbols b = [lit "AAPL"; lit "GOOGL"; lit "MSFT"]
    /\ StockDataService.b_outcomes b = StockDataService.AwaitsPending 0 :: outs.
Proof.
  apply (refreshAllData_reuses_pending (host := ascii_host) StockDataService.example_env 5
           (fst (StockDataService.getStockPrice_call 0 (lit "AAPL")
                   StockDataService.initial)) 0).
  vm_compute. reflexivity.
Defined.

(** The prices cannot be had; an answer with one indented bullet line; an
    answer with a rate, and no variation. *)
Lemma provider_operations_return_witness :
  snd (getRealTimeInvestments_after (host := ascii_host) new_provider 0
         (Throw (lit "Error: Network request failed")))
  = Normal fallback_table
  /\ getMarketInsights (Normal (lit "  - Markets are calm")) = Normal [lit "- Markets are calm"]
  /\ getRealTimeExchangeRates (Normal (lit "USD/INR: 84.25")) (fun _ => 0.5%float)
     = Normal {| Series.data := [84.25; 84.25; 84.25; 84.25; 84.25; 84.25; 84.25]%float;
                 Series.labels := [lit "Day 1"; lit "Day 2"; lit "Day 3"; lit "Day 4";
                                   lit "Day 5"; lit "Day 6"; lit "Day 7"] |}.
Proof.
  destruct (provider_operations_return (host := ascii_host) unreachable 0 new_provider
              StockDataService.initial (fun _ => 0.5%float) 0
              (Throw (lit "Error: Network request failed")) (Throw (lit "Error"))
              (Normal (lit "  - Markets are calm"))
              (fun s _ => eq_refl))
    as (_ & (v & Hv & ->) & _ & _ & (w & Hw & _ & _ & Hw') & _).
  split; [exact Hv|]. split.
  - rewrite Hw, Hw'. vm_compute. reflexivity.
  - destruct (provider_operations_return (host := ascii_host) unreachable 0 new_provider
                StockDataService.initial (fun _ => 0.5%float) 0
                (Throw (lit "Error: Network request failed")) (Throw (lit "Error"))
                (Normal (lit "USD/INR: 84.25"))
                (fun s _ => eq_refl))
      as (_ & _ & _ & _ & _ & Hx).
    rewrite Hx. vm_compute. reflexivity.
Defined.

(** A request for TSLA is pending when the data is refreshed at the instant
    5; it settles at the instant 50, and the call for TSLA of the second
    batch is answered from the cache. *)
Lemma refreshAllData_fetches_afresh_witness :
  let pending := fst (StockDataService.getStockPrice_call 0 (lit "TSLA") StockDataService.initial) in
  let ops :=
    [StockDataService.Loop (StockDataService.Settle {| StockDataService.now := 50; StockDataService.iso := lit "2024-01-15T09:30:00.050Z" |} 0
             (StockDataService.NetResponse true (Normal (StockDataService.answer_string StockDataService.example_answer))));
     StockDataService.Loop (StockDataService.Resume 0)] in
  let '(P, st1, outs) := refreshAllData_start 5 pending in
  Forall (fun o => is_Some (StockDataService.promise_of o)) outs
  /\ exists d e,
       snd (StockDataService.call_all 600 [lit "TSLA"; lit "NVDA"] (StockDataService.run_operations (host := ascii_host) ops st1))
       = [StockDataService.Returned d; StockDataService.AwaitsOwn 4]
       /\ StockDataService.cache (StockDataService.run_operations (host := ascii_host) ops st1) !! lit "TSLA" = Some e
       /\ StockDataService.data e = d /\ 5 <= StockDataService.timestamp e.
Proof.
  intros pending ops.
  pose proof (refreshAllData_fetches_afresh (host := ascii_host) 5 pending ops 600 3 eq_refl)
    as H.
  destruct (refreshAllData_start 5 pending) as [[P st1] outs] eqn:Hstart.
  destruct H as (_ & _ & Hw & H). split; [exact Hw|].
  assert (Hst1 : st1 = snd (fst (refreshAllData_start 5 pending))) by (by rewrite Hstart).
  assert (Hcalls : exists d,
            snd (StockDataService.call_all 600 (StockDataService.batch_at tickers 3) (StockDataService.run_operations (host := ascii_host) ops st1))
            = [StockDataService.Returned d; StockDataService.AwaitsOwn 4]).
  { rewrite Hst1. eexists. vm_compute. reflexivity. }
  destruct Hcalls as [d Hd]. rewrite Hd in H.
  change (StockDataService.batch_at tickers 3) with [lit "TSLA"; lit "NVDA"] in H, Hd.
  apply Forall2_cons_1 in H as [H _].
  destruct (H d eq_refl) as (e & He & Hde & Ht & _).
  exists d, e. done.
Defined.

End RealTimeDataProviderProperties.

(** ** The data context *)

Module DataContextProperties.
Import JS DataContext.

(** *** Toggling real time *)

Lemma off_stays_off (c0 : state) (evs : list event) (s : state) :
  forallb passive evs = true ->
  isRealTimeEnabled s = false -> interval s = false -> refreshes s = refreshes c0 ->
  isRealTimeEnabled (run evs s) = false /\ interval (run evs s) = false
  /\ refreshes (run evs s) = refreshes c0.
Proof.
  revert s. induction evs as [|e evs IH]; intros s Hall He Hi Hr; [done|].
  cbn in Hall. apply andb_prop in Hall as [Hp Hall]. cbn [run fold_left].
  apply IH; try done; destruct e as [| | | |o]; try discriminate; cbn;
    rewrite ?Hi; cbn; try done;
    destruct (suspended s); cbn; try done; destruct o; cbn; done.
Qed.

(** C8.  From a render in which real time is on, [toggleRealTime] turns it
    off without calling [refreshData], and the effect clears the polling
    timer: as long as nothing but timer ticks, settlements and dismissals of
    the error is attempted, real time stays off, the timer is not set, no
    tick can happen, and [refreshData] is not called.  The next
    [toggleRealTime] turns real time on, sets the timer, and calls
    [refreshData] once. *)
Theorem toggle_off_on_refreshes_once (c : state) (evs : list event) :
  isRealTimeEnabled c = true ->
  forallb passive evs = true ->
  let off := commit (toggleRealTime c) in
  let on := commit (toggleRealTime (run evs off)) in
  step c Toggle = Some off
  /\ (forall pre post, evs = pre ++ post ->
        isRealTimeEnabled (run pre off) = false
        /\ interval (run pre off) = false
        /\ step (run pre off) Tick = None
        /\ refreshes (run pre off) = refreshes c)
  /\ step (run evs off) Toggle = Some on
  /\ isRealTimeEnabled on = true
  /\ interval on = true
  /\ refreshes on = refreshes c ++ [ByToggle].
Proof.
  intros Hon Hall off on.
  assert (Hoff : isRealTimeEnabled off = false /\ interval off = false
                 /\ refreshes off = refreshes c).
  { subst off. unfold toggleRealTime. rewrite Hon. done. }
  destruct Hoff as (He & Hi & Hr).
  split; [done|]. split.
  { intros pre post ->. rewrite forallb_app in Hall.
    apply andb_prop in Hall as [Hpre _].
    destruct (off_stays_off c pre off Hpre He Hi Hr) as (He' & Hi' & Hr').
    split; [done|]. split; [done|]. split; [|done]. cbn. by rewrite Hi'. }
  destruct (off_stays_off c evs off Hall He Hi Hr) as (He' & Hi' & Hr').
  split; [done|]. subst on. unfold toggleRealTime. rewrite He'. cbn.
  unfold refreshData. rewrite He'.
  destruct (isLoading (run evs off)); cbn; by rewrite Hr'.
Qed.

(** *** The guarded percentages *)

Lemma not_positive (x : float) : (x <=? 0)%float = true -> (0 <? x)%float = false.
Proof.
  rewrite leb_spec, ltb_spec. change (Prim2SF 0) with (S754_zero false).
  destruct (Prim2SF x) as [s|s| |s m e]; cbn; try done; destruct s; done.
Qed.

Lemma usePortfolio_without_previous (portfolioData : Series.t) :
  second_to_last (Series.data portfolioData) = None ->
  changePercent (usePortfolio portfolioData) = 0%float.
Proof.
  unfold second_to_last, usePortfolio. cbn.
  destruct (Series.data portfolioData) as [|a [|b l]] eqn:E; cbn; try done.
  intros H. apply lookup_ge_None in H. cbn in H. lia.
Qed.

Lemma usePortfolio_not_positive (portfolioData : Series.t) (x : float) :
  second_to_last (Series.data portfolioData) = Some x ->
  (x <=? 0)%float = true ->
  changePercent (usePortfolio portfolioData) = 0%float.
Proof.
  unfold second_to_last, usePortfolio. cbn.
  destruct (length (Series.data portfolioData)) as [|[|n]] eqn:El; try done.
  intros Hx Hle.
  assert (Hi : element_or_zero (Series.data portfolioData) (Z.of_nat (S (S n)) - 2)
               = if truthy x then x else 0%float).
  { unfold element_or_zero.
    destruct (Z.of_nat (S (S n)) - 2 <? 0) eqn:Hneg; [apply Z.ltb_lt in Hneg; lia|].
    replace (Z.to_nat (Z.of_nat (S (S n)) - 2)) with n by lia. by rewrite Hx. }
  rewrite Hi. destruct (truthy x).
  - by rewrite not_positive.
  - done.
Qed.

(** C10.  The percentages of the hooks do not divide by a total that is not
    positive: [useInvestments] gives 0 as [totalGainLossPercent] when the
    total purchase value is at most 0, as for no investment at all, and
    otherwise the gain over the total purchase value times 100;
    [usePortfolio] gives 0 as [changePercent] when the second-to-last point
    of the series is at most 0 and when the series has no such point, as
    for an empty series. *)
Theorem percentages_guarded :
  (forall investments,
     let r := useInvestments investments in
     totalValue r = JS.sum (List.map Investment.currentValue investments)
     /\ totalPurchaseValue r = JS.sum (List.map Investment.purchaseValue investments)
     /\ ((totalPurchaseValue r <=? 0)%float = true -> totalGainLossPercent r = 0%float)
     /\ ((0 <? totalPurchaseValue r)%float = true ->
           totalGainLossPercent r
           = ((totalValue r - totalPurchaseValue r) / totalPurchaseValue r * 100)%float))
  /\ totalGainLossPercent (useInvestments []) = 0%float
  /\ (forall portfolioData x,
        second_to_last (Series.data portfolioData) = Some x ->
        (x <=? 0)%float = true ->
        changePercent (usePortfolio portfolioData) = 0%float)
  /\ (forall portfolioData,
        second_to_last (Series.data portfolioData) = None ->
        changePercent (usePortfolio portfolioData) = 0%float)
  /\ changePercent (usePortfolio (Series.Build [] [])) = 0%float.
Proof.
  split.
  { intros investments r. subst r. unfold useInvestments. cbn.
    split; [done|]. split; [done|]. split.
    - intros H. by rewrite (not_positive _ H).
    - by intros ->. }
  split; [reflexivity|].
  split; [apply usePortfolio_not_positive|].
  split; [apply usePortfolio_without_previous|]. reflexivity.
Qed.

(** From the mounted component: off, a tick that cannot happen, a
    dismissal of the error, and on again. *)
Lemma toggle_off_on_refreshes_once_witness :
  refreshes
    (commit (toggleRealTime
       (run [Tick; ClearError; Settled Failed] (commit (toggleRealTime mounted)))))
  = [ByToggle].
Proof.
  exact (proj2 (proj2 (proj2 (proj2 (proj2
    (toggle_off_on_refreshes_once mounted [Tick; ClearError; Settled Failed]
       eq_refl eq_refl)))))).
Defined.

(** *** Refreshes and the polling timer *)

(** X21.  When a refresh finds the backend unavailable, real time is turned
    off, the message is set and the polling timer is cleared; from then on
    no tick can happen and [refreshData] is not called again, whatever
    settles and whatever error is dismissed, until the user toggles real
    time or asks for a refresh: the component does not come back by itself. *)
Theorem unavailable_stops_polling (c : state) (evs : list event) :
  suspended c <> O ->
  forallb passive evs = true ->
  exists s,
    step c (Settled Unavailable) = Some s
    /\ isRealTimeEnabled s = false /\ interval s = false /\ isLoading s = false
    /\ error s = Some (lit "Backend unavailable. Using cached data.")
    /\ shown s = shown c
    /\ forall pre post, evs = pre ++ post ->
         isRealTimeEnabled (run pre s) = false
         /\ step (run pre s) Tick = None
         /\ refreshes (run pre s) = refreshes c.
Proof.
  intros Hs Hall. cbn [step]. destruct (suspended c) as [|n] eqn:Hn; [done|].
  eexists. split; [done|]. do 5 (split; [done|]).
  intros pre post ->. rewrite forallb_app in Hall. apply andb_prop in Hall as [Hpre _].
  set (s := commit (refresh_settles Unavailable c)).
  destruct (off_stays_off c pre s Hpre) as (He & Hi & Hr); try done.
  split; [done|]. split; [|done]. cbn. by rewrite Hi.
Qed.

(** X22.  The call of [refreshData] that [toggleRealTime] makes when it
    turns real time on reads the state of the render in which real time was
    still off: it loads nothing.  Real time is on and the timer is set
    after the toggle, but no refresh is in progress and what is shown has
    not changed. *)
Theorem reenabling_loads_nothing (c : state) :
  isRealTimeEnabled c = false ->
  exists s,
    step c Toggle = Some s
    /\ isRealTimeEnabled s = true /\ interval s = true
    /\ refreshes s = refreshes c ++ [ByToggle]
    /\ suspended s = suspended c
    /\ isLoading s = isLoading c
    /\ shown s = shown c.
Proof.
  intros Hoff. eexists. split; [done|].
  unfold toggleRealTime, refreshData. rewrite Hoff. cbn.
  destruct (isLoading c) eqn:Hl; cbn; by rewrite ?Hl.
Qed.

Lemma one_refresh_step c e s : one_refresh c -> step c e = Some s -> one_refresh s.
Proof.
  intros [H1 H2] Hs.
  assert (Hcase : isLoading c = true \/ (isLoading c = false /\ suspended c = O)).
  { destruct (isLoading c); [by left | right]. split; [done|].
    destruct (suspended c) as [|[|n]]; [done | by discriminate H2 | lia]. }
  unfold one_refresh.
  destruct e as [| | | |o]; cbn in Hs.
  - injection Hs as <-. unfold toggleRealTime, refreshData.
    destruct (isRealTimeEnabled c); cbn; [done|].
    destruct Hcase as [Hl|[Hl H0]]; rewrite Hl; cbn; [done|]. rewrite H0. split; [lia | done].
  - destruct (interval c); [|done]. injection Hs as <-.
    destruct Hcase as [Hl|[Hl H0]]; rewrite Hl; cbn; [done|].
    unfold refreshData. rewrite Hl. cbn. destruct (isRealTimeEnabled c); cbn; rewrite H0;
      [done | split; [lia | done]].
  - injection Hs as <-. unfold refreshData.
    destruct Hcase as [Hl|[Hl H0]]; rewrite Hl; cbn; [done|].
    destruct (isRealTimeEnabled c); cbn; rewrite H0; [done | split; [lia | done]].
  - injection Hs as <-. done.
  - destruct (suspended c) as [|n] eqn:E; [done|]. injection Hs as <-.
    assert (n = O) by lia. subst n. unfold refresh_settles. rewrite E.
    destruct o; cbn; split; (lia || done).
Qed.

(** *** The mount effect and the refreshes *)

Section Mount.

Context `{host : Host}.

(** While the component is loading with no refresh suspended, every refresh
    that is asked for is dropped. *)
Lemma loading_step c e s :
  isLoading c = true -> suspended c = O -> step c e = Some s ->
  isLoading s = true /\ suspended s = O.
Proof.
  intros Hl H0 Hs. destruct e as [| | | |o]; cbn in Hs.
  - injection Hs as <-. unfold toggleRealTime, refreshData. rewrite Hl.
    by destruct (isRealTimeEnabled c).
  - destruct (interval c); [|done]. injection Hs as <-. by rewrite Hl.
  - injection Hs as <-. unfold refreshData. by rewrite Hl.
  - by injection Hs as <-.
  - by rewrite H0 in Hs.
Qed.

(** X23.  From the mount of the component on, with the call of
    [loadInitialData] that its effect makes and a render after every event,
    at most one call of [refreshData] is ever suspended at an [await], and
    only while the component is loading; and while [loadInitialData] has
    not ended none is: a refresh that is asked for during the initial load
    or during another refresh, by the timer, the user or a toggle, is
    dropped. *)
Theorem refreshes_never_overlap (evs : list lifecycle_event) :
  let s := lifecycle_run evs mounting in
  (suspended (view s) <= 1)%nat
  /\ (suspended (view s) = 1%nat -> isLoading (view s) = true)
  /\ (is_Some (initialLoad s) -> suspended (view s) = O /\ isLoading (view s) = true).
Proof.
  cbv zeta.
  assert (H : forall s, one_refresh (view s)
                /\ (is_Some (initialLoad s) -> suspended (view s) = O /\ isLoading (view s) = true) ->
              one_refresh (view (lifecycle_run evs s))
              /\ (is_Some (initialLoad (lifecycle_run evs s)) ->
                  suspended (view (lifecycle_run evs s)) = O
                  /\ isLoading (view (lifecycle_run evs s)) = true)).
  { induction evs as [|e evs IH]; intros s Hs; [done|].
    cbn [lifecycle_run fold_left]. apply IH. clear IH.
    destruct Hs as [H1 H2].
    destruct (lifecycle_step s e) as [s'|] eqn:Hstep; cbn [default]; [|done].
    destruct e as [e|a now|r now]; cbn [lifecycle_step] in Hstep.
    - destruct (step (view s) e) as [v|] eqn:Hv; [|done]. injection Hstep as <-.
      cbn [view initialLoad]. split; [by eapply one_refresh_step|].
      intros Hi. destruct (H2 Hi) as [H0 Hl].
      destruct (loading_step _ _ _ Hl H0 Hv). done.
    - destruct (initialLoad s) as [[|]|] eqn:Hi; try done.
      destruct (H2 ltac:(by eexists)) as [H0 Hl].
      destruct a as [[|]|err]; injection Hstep as <-; cbn [view initialLoad].
      + done.
      + split; [|by intros [? ?]]. split; cbn; rewrite H0; [lia | done].
      + split; [|by intros [? ?]]. split; cbn; rewrite H0; [lia | done].
    - destruct (initialLoad s) as [[|]|] eqn:Hi; try done.
      destruct (H2 ltac:(by eexists)) as [H0 Hl].
      destruct r as [d|err]; injection Hstep as <-; cbn [view initialLoad].
      + split; [|by intros [? ?]]. split; cbn; rewrite H0; [lia | done].
      + split; [|by intros [? ?]]. split; cbn; rewrite H0; [lia | done]. }
  destruct (H mounting) as [[Ha Hb] Hc].
  { split; [split; cbn; [lia | done]|]. intros _. done. }
  done.
Qed.

End Mount.

(** *** The hooks over the positions of the provider *)

Lemma configured_purchase_values (investments : list Investment.t) :
  RealTimeDataProvider.configured investments ->
  List.map Investment.purchaseValue investments
  = List.map PortfolioConfig.purchaseValue RealTimeDataProvider.USER_PORTFOLIO_CONFIG.
Proof.
  intros [H _]. induction H as [|inv config invs configs (_ & _ & Hp & _) _ IH]; [done|].
  cbn [List.map]. by rewrite Hp, IH.
Qed.

(** X24.  Over the positions [getRealTimeInvestments] returns, whatever
    the prices, the total purchase value of [useInvestments] is 90000, so
    that the guard of the percentage passes and the percentage is the gain
    over 90000, times 100. *)
Theorem useInvestments_of_positions (investments : list Investment.t) :
  RealTimeDataProvider.configured investments ->
  let totals := useInvestments investments in
  totalPurchaseValue totals = 90000%float
  /\ totalGainLoss totals = (totalValue totals - 90000)%float
  /\ totalGainLossPercent totals = ((totalValue totals - 90000) / 90000 * 100)%float.
Proof.
  intros H.
  assert (Hp : JS.sum (List.map Investment.purchaseValue investments) = 90000%float).
  { by rewrite (configured_purchase_values investments H). }
  cbv zeta. unfold useInvestments.
  cbn [totalPurchaseValue totalGainLoss totalGainLossPercent totalValue].
  rewrite !Hp. by repeat split.
Qed.

(** *** The theorems at concrete inputs *)

(** A refresh asked by the user from the mounted component finds the
    backend unavailable. *)
Lemma unavailable_stops_polling_witness :
  exists s,
    step (run [UserRefresh] mounted) (Settled Unavailable) = Some s
    /\ isRealTimeEnabled s = false
    /\ step s Tick = None
    /\ refreshes (run [Tick; ClearError] s) = [ByUser].
Proof.
  destruct (unavailable_stops_polling (run [UserRefresh] mounted) [Tick; ClearError])
    as (s & Hs & He & _ & _ & _ & _ & H); [discriminate | reflexivity |].
  exists s. split; [exact Hs|]. split; [exact He|].
  split; [exact (proj1 (proj2 (H [] [Tick; ClearError] eq_refl)))|].
  exact (proj2 (proj2 (H [Tick; ClearError] [] eq_refl))).
Defined.

(** Off and on again from the mounted component. *)
Lemma reenabling_loads_nothing_witness :
  exists s,
    step (commit (toggleRealTime mounted)) Toggle = Some s
    /\ isRealTimeEnabled s = true
    /\ suspended s = O
    /\ shown s = shown mounted.
Proof.
  destruct (reenabling_loads_nothing (commit (toggleRealTime mounted)) eq_refl)
    as (s & Hs & He & _ & _ & Hn & _ & Hsh).
  exists s. split; [exact Hs|]. split; [exact He|]. split; [exact Hn | exact Hsh].
Defined.

(** The fallback positions. *)
Lemma useInvestments_of_positions_witness :
  totalPurchaseValue
    (useInvestments (RealTimeDataProvider.getFallbackInvestments (host := ascii_host)))
  = 90000%float.
Proof.
  exact (proj1 (useInvestments_of_positions _
                  (RealTimeDataProviderProperties.getFallbackInvestments_configured
                     (host := ascii_host)))).
Defined.

End DataContextProperties.
